(** * database_director: cache-coherent persistence layer

    A shallow embedding of [Code/backend/database_director.py].

    Conventions of the embedding.
    - A Python [str] is a [string]; its characters are read as the code
      points 0..255.
    - The SQLite database is a record of tables.  A table with a primary key
      is a finite map from the key to the remaining columns; the [messages]
      table is kept as the list of its rows in insertion order, because reads
      sort it.
    - A nullable column is an [option]; [None] is SQL NULL.
    - [datetime.now()] and [uuid.uuid4()] are inputs of the operation that
      calls them.
    - An [async] method is a state transformer on the director; a task handed
      to [asyncio.create_task] is appended to a queue of pending tasks and
      runs later, through [run_task]. *)

From Stdlib Require Import String Ascii ZArith NArith List Bool Lia Sorted.
From stdpp Require Import gmap strings list fin_maps.

Set Warnings "-register-all".

Local Open Scope Z_scope.

(** ** Python string primitives *)

Module Py.

Definition code (c : ascii) : N := N_of_ascii c.

Definition between (lo hi : N) (c : ascii) : bool :=
  ((lo <=? code c) && (code c <=? hi))%N.

(** [str.isspace] on one character, which is also what [\s] matches in a
    [str] pattern: TAB..CR, FS..US, space, NEL and NBSP. *)
Definition isspace (c : ascii) : bool :=
  between 9 13 c || between 28 32 c || (code c =? 133)%N || (code c =? 160)%N.

(** [\d] in a [str] pattern; below 256 the only decimal digits are 0-9. *)
Definition isdigit (c : ascii) : bool := between 48 57 c.

Definition islower_az (c : ascii) : bool := between 97 122 c.

(** [str.lower] on one character: A-Z and the Latin-1 capitals. *)
Definition lower_char (c : ascii) : ascii :=
  if between 65 90 c || (between 192 222 c && negb (code c =? 215)%N)
  then ascii_of_N (code c + 32)
  else c.

Fixpoint lower (s : string) : string :=
  match s with
  | EmptyString => EmptyString
  | String c r => String (lower_char c) (lower r)
  end.

Fixpoint lstrip (p : ascii → bool) (s : string) : string :=
  match s with
  | EmptyString => EmptyString
  | String c r => if p c then lstrip p r else s
  end.

Fixpoint rstrip (p : ascii → bool) (s : string) : string :=
  match s with
  | EmptyString => EmptyString
  | String c r =>
      match rstrip p r with
      | EmptyString => if p c then EmptyString else String c EmptyString
      | r' => String c r'
      end
  end.

(** [s.strip()] is [strip isspace s]; [s.strip('-')] is [strip is_hyphen s]. *)
Definition strip (p : ascii → bool) (s : string) : string :=
  rstrip p (lstrip p s).

(** [re.sub(cls, '', s)] for a one-character class [cls]. *)
Fixpoint re_delete (p : ascii → bool) (s : string) : string :=
  match s with
  | EmptyString => EmptyString
  | String c r => if p c then re_delete p r else String c (re_delete p r)
  end.

(** [re.sub(cls+, rep, s)]: every maximal run of [cls] becomes one [rep].
    [in_run] tells that the previous character was in the class. *)
Fixpoint re_collapse (p : ascii → bool) (rep : ascii) (in_run : bool)
    (s : string) : string :=
  match s with
  | EmptyString => EmptyString
  | String c r =>
      if p c
      then if in_run then re_collapse p rep true r
           else String rep (re_collapse p rep true r)
      else String c (re_collapse p rep false r)
  end.

(** Python truthiness of a [str]. *)
Definition truthy (s : string) : bool :=
  match s with EmptyString => false | _ => true end.

(** [x or ""] on an optional text. *)
Definition or_empty (o : option string) : string := default EmptyString o.

Definition digit_char (d : nat) : ascii := ascii_of_nat (48 + d).

Fixpoint str_nat_go (fuel n : nat) (acc : string) : string :=
  match fuel with
  | O => acc
  | S fuel' =>
      let acc' := String (digit_char (n mod 10)) acc in
      if (n / 10 =? 0)%nat then acc' else str_nat_go fuel' (n / 10) acc'
  end.

(** [str(n)] for a natural number. *)
Definition str_nat (n : nat) : string := str_nat_go (S n) n EmptyString.

Fixpoint zeros (k : nat) (s : string) : string :=
  match k with O => s | S k' => String "0"%char (zeros k' s) end.

(** [f"{n:03d}"]: decimal, padded on the left with zeros to width 3. *)
Definition format_03d (n : nat) : string :=
  let s := str_nat n in zeros (3 - String.length s) s.

Definition digit_val (c : ascii) : nat := N.to_nat (code c) - 48.

(** [int(s)] on a text of decimal digits. *)
Definition int_digits (s : string) : nat :=
  (fix go (acc : nat) (s : string) : nat :=
     match s with
     | EmptyString => acc
     | String c r => go (10 * acc + digit_val c)%nat r
     end) 0%nat s.

End Py.

(** ** Exceptions *)

(** The exceptions a method meets.  [DatabaseError] stands for the errors of
    [sqlite3] (OperationalError, IntegrityError); [ValueError] for a plain
    [ValueError] and for the [ValidationError] of a model.  A
    [JSONDecodeError] is kept apart from the other [ValueError]s, because
    [_row_to_voice] catches it alone. *)
Inductive exn : Type :=
  | HTTPException (status_code : Z) (detail : string)
  | DatabaseError (message : string)
  | ValueError (message : string)
  | JSONDecodeError (message : string)
  | RecursionError (message : string)
  | OverflowError (message : string).

Definition str_Z (z : Z) : string := Py.str_nat (Z.to_nat z).

(** [str(e)]. *)
Definition str_exn (e : exn) : string :=
  match e with
  | HTTPException c d => str_Z c +:+ ": " +:+ d
  | DatabaseError m => m
  | ValueError m => m
  | JSONDecodeError m => m
  | RecursionError m => m
  | OverflowError m => m
  end.

Definition status_of (e : exn) : option Z :=
  match e with HTTPException c _ => Some c | _ => None end.

(** ** SQL text primitives *)

Module Sql.

(** ASCII case folding used by LIKE. *)
Definition fold_case (c : ascii) : ascii :=
  if Py.between 65 90 c then ascii_of_N (Py.code c + 32) else c.

Definition eq_nocase (c d : ascii) : bool :=
  bool_decide (fold_case c = fold_case d).

(** The comparison of a text with a LIKE pattern: [%] matches any run of
    characters, [_] one character, any other character itself up to ASCII
    case. *)
Fixpoint pattern_compare (p s : string) : bool :=
  match p with
  | EmptyString => negb (Py.truthy s)
  | String "%"%char p' =>
      (fix any (s : string) : bool :=
         pattern_compare p' s ||
         match s with EmptyString => false | String _ s' => any s' end) s
  | String "_"%char p' =>
      match s with EmptyString => false | String _ s' => pattern_compare p' s' end
  | String c p' =>
      match s with
      | EmptyString => false
      | String d s' => eq_nocase c d && pattern_compare p' s'
      end
  end.

(** A text as the C string the comparison reads: its characters before the
    first NUL. *)
Fixpoint c_str (s : string) : string :=
  match s with
  | EmptyString => EmptyString
  | String c r => if bool_decide (c = Ascii.zero) then EmptyString else String c (c_str r)
  end.

(** The number of bytes of a text in UTF-8: a character from 128 on takes
    two. *)
Fixpoint utf8_length (s : string) : Z :=
  match s with
  | EmptyString => 0
  | String c r => (if (Py.code c <? 128)%N then 1 else 2) + utf8_length r
  end.

(** [SQLITE_MAX_LIKE_PATTERN_LENGTH], in bytes. *)
Definition max_like_pattern_length : Z := 50000.

(** [text LIKE pattern] on one row.  A pattern of more bytes than the limit
    is refused; pattern and text are compared as C strings. *)
Definition like (pattern text : string) : exn + bool :=
  if (max_like_pattern_length <? utf8_length pattern)%Z
  then inl (DatabaseError "LIKE or GLOB pattern too complex")
  else inr (pattern_compare (c_str pattern) (c_str text)).

(** [SELECT ... WHERE cond]: the condition is evaluated row by row, and the
    statement ends with the error of the first evaluation that raises.  On an
    empty table nothing is evaluated. *)
Fixpoint select_where {A} (cond : A → exn + bool) (rows : list A) : exn + list A :=
  match rows with
  | [] => inr []
  | row :: rest =>
      match cond row with
      | inl e => inl e
      | inr keep =>
          match select_where cond rest with
          | inl e => inl e
          | inr found => inr (if keep : bool then row :: found else found)
          end
      end
  end.

(** The integers [sqlite3] binds to a parameter: those of 64 bits. *)
Definition int64 (n : Z) : bool := (- 2 ^ 63 <=? n)%Z && (n <? 2 ^ 63)%Z.

(** Binding Python integers to the parameters of a statement: one outside
    the 64 bits raises [OverflowError] before the statement runs. *)
Definition bind_ints (params : list Z) : exn + unit :=
  if forallb int64 params
  then inr tt
  else inl (OverflowError "Python int too large to convert to SQLite INTEGER").

End Sql.

(** ** Character ids *)

Definition is_hyphen (c : ascii) : bool := bool_decide (c = "-"%char).

(** The class [[a-z0-9\s-]] of the first substitution. *)
Definition slug_char (c : ascii) : bool :=
  Py.islower_az c || Py.isdigit c || Py.isspace c || is_hyphen c.

(** Lines 300-307 of [_generate_character_id]: the slug of a name. *)
Definition slug (name : string) : string :=
  let base_id := Py.strip Py.isspace (Py.lower name) in
  let base_id := Py.re_delete (λ c, negb (slug_char c)) base_id in
  let base_id := Py.re_collapse Py.isspace "-" false base_id in
  let base_id := Py.re_collapse is_hyphen "-" false base_id in
  let base_id := Py.strip is_hyphen base_id in
  if Py.truthy base_id then base_id else "character".

(** The characters an id is made of: [[a-z0-9-]]. *)
Definition id_char (c : ascii) : bool :=
  Py.islower_az c || Py.isdigit c || is_hyphen c.

Fixpoint all_chars (p : ascii → bool) (s : string) : bool :=
  match s with
  | EmptyString => true
  | String c r => p c && all_chars p r
  end.

Definition starts_with (p : ascii → bool) (s : string) : bool :=
  match s with
  | EmptyString => false
  | String c _ => p c
  end.

Fixpoint ends_with (p : ascii → bool) (s : string) : bool :=
  match s with
  | EmptyString => false
  | String c EmptyString => p c
  | String _ r => ends_with p r
  end.

(** Two characters of the class stand side by side somewhere in the text. *)
Fixpoint has_run (p : ascii → bool) (s : string) : bool :=
  match s with
  | EmptyString => false
  | String c r => (p c && starts_with p r) || has_run p r
  end.

(** What the specification says of a slug: not empty, made of [[a-z0-9-]],
    no hyphen at either end, no two hyphens in a row. *)
Definition well_formed_slug (s : string) : bool :=
  Py.truthy s && all_chars id_char s &&
  negb (starts_with is_hyphen s) && negb (ends_with is_hyphen s) &&
  negb (has_run is_hyphen s).

Fixpoint strip_prefix (p s : string) : option string :=
  match p, s with
  | EmptyString, _ => Some s
  | String a p', String b s' => if bool_decide (a = b) then strip_prefix p' s' else None
  | String _ _, EmptyString => None
  end.

Definition newline : ascii := "010"%char.

(** The tail [(\d{3})$] of the pattern, giving [int(match.group(1))].
    Without MULTILINE, [$] matches at the end of the text and also just
    before a newline that ends it. *)
Definition match_digits (rest : string) : option nat :=
  match rest with
  | String a (String b (String c tail)) =>
      if Py.isdigit a && Py.isdigit b && Py.isdigit c &&
         (bool_decide (tail = EmptyString) ||
          bool_decide (tail = String newline EmptyString))
      then Some (Py.int_digits (String a (String b (String c EmptyString))))
      else None
  | _ => None
  end.

(** [pattern.match(id)] for [^{re.escape(base_id)}-(\d{3})$]. *)
Definition match_suffix (base_id id : string) : option nat :=
  strip_prefix (base_id +:+ "-") id ≫= match_digits.

(** The loop of lines 317-324. *)
Definition highest_num (base_id : string) (rows : list string) : nat :=
  fold_left
    (λ highest row,
       match match_suffix base_id row with
       | Some num => Nat.max highest num
       | None => highest
       end)
    rows 0%nat.

(** [SELECT id FROM characters WHERE id LIKE ?] with [f"{base_id}-%"]. *)
Definition select_ids_like (base_id : string) (ids : list string)
    : exn + list string :=
  Sql.select_where (Sql.like (base_id +:+ "-%")) ids.

(** The next id for a slug, given the ids the query returned. *)
Definition next_character_id (base_id : string) (rows : list string) : string :=
  let next_num := S (highest_num base_id rows) in
  base_id +:+ "-" +:+ Py.format_03d next_num.

(** The id made of a slug, a hyphen and [f"{n:03d}"]. *)
Definition seq_id (base_id : string) (n : nat) : string :=
  base_id +:+ "-" +:+ Py.format_03d n.

(** Boolean checks over the finitely many three-digit texts; the proofs about
    suffixes evaluate them. *)
Definition digits : list ascii := Py.digit_char <$> seq 0 10.

Definition text3 (a b c : ascii) : string := String a (String b (String c "")).

Definition digits_ok (a b c : ascii) : bool :=
  let n := Py.int_digits (text3 a b c) in
  (n <? 1000)%nat && String.eqb (Py.format_03d n) (text3 a b c).

Definition suffix_ok (n : nat) : bool :=
  bool_decide (match_digits (Py.format_03d n) = Some n) &&
  bool_decide (match_digits (Py.format_03d n +:+ String newline "") = Some n) &&
  (String.length (Py.format_03d n) =? 3)%nat.

(** ** Values and the [json] module *)

(** A Python value as [Any] carries it here; [JNull] is [None]. *)
Inductive json : Type :=
  | JNull
  | JBool (b : bool)
  | JInt (z : Z)
  | JStr (s : string)
  | JList (l : list json)
  | JDict (l : list (string * json)).

(** A [Dict[str, Any]], as its items. *)
Abbreviation dict := (list (string * json)).

(** [==] on values: structural, items of a dict compared in order. *)
Fixpoint json_eqb (a b : json) : bool :=
  match a, b with
  | JNull, JNull => true
  | JBool x, JBool y => Bool.eqb x y
  | JInt x, JInt y => (x =? y)%Z
  | JStr x, JStr y => String.eqb x y
  | JList x, JList y =>
      (fix go (x y : list json) : bool :=
         match x, y with
         | [], [] => true
         | u :: x', v :: y' => json_eqb u v && go x' y'
         | _, _ => false
         end) x y
  | JDict x, JDict y =>
      (fix go (x y : list (string * json)) : bool :=
         match x, y with
         | [], [] => true
         | (k, u) :: x', (k', v) :: y' => String.eqb k k' && json_eqb u v && go x' y'
         | _, _ => false
         end) x y
  | _, _ => false
  end.

(** [d.get(key)]: the value, or [None]. *)
Fixpoint dict_get (key : string) (d : dict) : json :=
  match d with
  | [] => JNull
  | (k, v) :: d' => if String.eqb k key then v else dict_get key d'
  end.

(** What [json.loads] raises: [JSONDecodeError] on a text that is not JSON
    and, on a text that trips a limit of the interpreter, [RecursionError]
    (brackets nested deeper than the recursion limit) or a plain
    [ValueError] (an integer of more digits than [int] converts).  Each
    carries the message of the exception. *)
Inductive loads_error : Type :=
  | DecodeError (message : string)
  | DepthError (message : string)
  | DigitsError (message : string).

Definition loads_exn (e : loads_error) : exn :=
  match e with
  | DecodeError m => JSONDecodeError m
  | DepthError m => RecursionError m
  | DigitsError m => ValueError m
  end.

(** The two functions of Python's [json] module the director calls.
    [json_dumps] is the printer on the values the director hands to it. *)
Class JsonCodec : Type := {
  json_dumps : json → string;
  json_loads : string → loads_error + json
}.

(** Validation of a decoded value against [List[str]]. *)
Fixpoint as_str_list (l : list json) : option (list string) :=
  match l with
  | [] => Some []
  | JStr s :: l' => cons s <$> as_str_list l'
  | _ :: _ => None
  end.

(** Validation of a decoded value against [List[Dict[str, Any]]]. *)
Fixpoint as_dict_list (l : list json) : option (list dict) :=
  match l with
  | [] => Some []
  | JDict d :: l' => cons d <$> as_dict_list l'
  | _ :: _ => None
  end.

(** ** Data models *)

Module Character.
Record t : Type := mk {
  id : string; name : string; voice : string; system_prompt : string;
  image_url : string; images : list string; is_active : bool;
  last_message : string; created_at : option string; updated_at : option string
}.
End Character.

Module CharacterCreate.
Record t : Type := mk {
  name : string; voice : string; system_prompt : string; image_url : string;
  images : list string; is_active : bool
}.
End CharacterCreate.

Module CharacterUpdate.
Record t : Type := mk {
  name : option string; voice : option string; system_prompt : option string;
  image_url : option string; images : option (list string);
  is_active : option bool; last_message : option string
}.
End CharacterUpdate.

Module Voice.
Record t : Type := mk {
  voice : string; method : string; audio_path : string; text_path : string;
  speaker_desc : string; scene_prompt : string; audio_tokens : json;
  id : option string; created_at : option string; updated_at : option string
}.
End Voice.

Module VoiceCreate.
Record t : Type := mk {
  voice : string; method : string; audio_path : string; text_path : string;
  speaker_desc : string; scene_prompt : string
}.
End VoiceCreate.

Module VoiceUpdate.
Record t : Type := mk {
  new_voice : option string; method : option string; audio_path : option string;
  text_path : option string; speaker_desc : option string;
  scene_prompt : option string; audio_tokens : json
}.
End VoiceUpdate.

Module Conversation.
Record t : Type := mk {
  conversation_id : string; title : option string;
  active_characters : list dict;
  created_at : option string; updated_at : option string
}.
End Conversation.

Module ConversationCreate.
Record t : Type := mk { title : option string; active_characters : list dict }.
End ConversationCreate.

Module ConversationUpdate.
Record t : Type := mk {
  title : option string; active_characters : option (list dict)
}.
End ConversationUpdate.

Module Message.
Record t : Type := mk {
  message_id : string; conversation_id : string; role : string;
  name : option string; content : string; character_id : option string;
  created_at : option string; updated_at : option string
}.
End Message.

Module MessageCreate.
Record t : Type := mk {
  conversation_id : string; role : string; content : string;
  name : option string; character_id : option string
}.
End MessageCreate.

(** ** The durable store *)

(** Rows of the four tables of [SCHEMA_SQL].  The primary key of
    [characters], [voices] and [conversations] is the key of the table. *)

Module CharacterRow.
Record t : Type := mk {
  name : string; voice : option string; system_prompt : option string;
  image_url : option string; images : option string; is_active : option Z;
  last_message : option string;
  created_at : option string; updated_at : option string
}.
End CharacterRow.

Module VoiceRow.
Record t : Type := mk {
  method : option string; audio_path : option string; text_path : option string;
  speaker_desc : option string; scene_prompt : option string;
  audio_tokens : option string; id : option string;
  created_at : option string; updated_at : option string
}.
End VoiceRow.

Module ConversationRow.
Record t : Type := mk {
  title : option string; active_characters : option string;
  created_at : option string; updated_at : option string
}.
End ConversationRow.

Module MessageRow.
Record t : Type := mk {
  message_id : string; conversation_id : string; role : string;
  name : option string; content : string; character_id : option string;
  created_at : option string; updated_at : option string
}.
End MessageRow.

(** [online] tells whether [aiosqlite.connect(DB_PATH)] succeeds. *)
Record Store : Type := mkStore {
  characters : gmap string CharacterRow.t;
  voices : gmap string VoiceRow.t;
  conversations : gmap string ConversationRow.t;
  messages : list MessageRow.t;
  online : bool
}.

Definition with_characters (t : gmap string CharacterRow.t) (s : Store) : Store :=
  mkStore t (voices s) (conversations s) (messages s) (online s).
Definition with_voices (t : gmap string VoiceRow.t) (s : Store) : Store :=
  mkStore (characters s) t (conversations s) (messages s) (online s).
Definition with_conversations (t : gmap string ConversationRow.t) (s : Store) : Store :=
  mkStore (characters s) (voices s) t (messages s) (online s).
Definition with_messages (t : list MessageRow.t) (s : Store) : Store :=
  mkStore (characters s) (voices s) (conversations s) t (online s).

Definition empty_store : Store := mkStore ∅ ∅ ∅ [] true.

(** One [col = ?] of an UPDATE on [characters], with its parameter. *)
Inductive character_set : Type :=
  | CSetName (v : string)
  | CSetVoice (v : string)
  | CSetSystemPrompt (v : string)
  | CSetImageUrl (v : string)
  | CSetImages (v : string)
  | CSetIsActive (v : Z)
  | CSetLastMessage (v : string)
  | CSetUpdatedAt (v : string).

Definition character_assign (r : CharacterRow.t) (a : character_set) : CharacterRow.t :=
  let '(CharacterRow.mk n v sp iu im ia lm ca ua) := r in
  match a with
  | CSetName x => CharacterRow.mk x v sp iu im ia lm ca ua
  | CSetVoice x => CharacterRow.mk n (Some x) sp iu im ia lm ca ua
  | CSetSystemPrompt x => CharacterRow.mk n v (Some x) iu im ia lm ca ua
  | CSetImageUrl x => CharacterRow.mk n v sp (Some x) im ia lm ca ua
  | CSetImages x => CharacterRow.mk n v sp iu (Some x) ia lm ca ua
  | CSetIsActive x => CharacterRow.mk n v sp iu im (Some x) lm ca ua
  | CSetLastMessage x => CharacterRow.mk n v sp iu im ia (Some x) ca ua
  | CSetUpdatedAt x => CharacterRow.mk n v sp iu im ia lm ca (Some x)
  end.

(** One [col = ?] of an UPDATE on [voices]; [VSetVoice] assigns the key. *)
Inductive voice_set : Type :=
  | VSetVoice (v : string)
  | VSetMethod (v : string)
  | VSetAudioPath (v : string)
  | VSetTextPath (v : string)
  | VSetSpeakerDesc (v : string)
  | VSetScenePrompt (v : string)
  | VSetAudioTokens (v : string)
  | VSetUpdatedAt (v : string).

Definition voice_assign (kr : string * VoiceRow.t) (a : voice_set) : string * VoiceRow.t :=
  let '(k, VoiceRow.mk m ap tp sd sc at_ i ca ua) := kr in
  match a with
  | VSetVoice x => (x, VoiceRow.mk m ap tp sd sc at_ i ca ua)
  | VSetMethod x => (k, VoiceRow.mk (Some x) ap tp sd sc at_ i ca ua)
  | VSetAudioPath x => (k, VoiceRow.mk m (Some x) tp sd sc at_ i ca ua)
  | VSetTextPath x => (k, VoiceRow.mk m ap (Some x) sd sc at_ i ca ua)
  | VSetSpeakerDesc x => (k, VoiceRow.mk m ap tp (Some x) sc at_ i ca ua)
  | VSetScenePrompt x => (k, VoiceRow.mk m ap tp sd (Some x) at_ i ca ua)
  | VSetAudioTokens x => (k, VoiceRow.mk m ap tp sd sc (Some x) i ca ua)
  | VSetUpdatedAt x => (k, VoiceRow.mk m ap tp sd sc at_ i ca (Some x))
  end.

(** One [col = ?] of an UPDATE on [conversations]. *)
Inductive conversation_set : Type :=
  | KSetTitle (v : string)
  | KSetActiveCharacters (v : string)
  | KSetUpdatedAt (v : string).

Definition conversation_assign (r : ConversationRow.t) (a : conversation_set)
    : ConversationRow.t :=
  let '(ConversationRow.mk t ac ca ua) := r in
  match a with
  | KSetTitle x => ConversationRow.mk (Some x) ac ca ua
  | KSetActiveCharacters x => ConversationRow.mk t (Some x) ca ua
  | KSetUpdatedAt x => ConversationRow.mk t ac ca (Some x)
  end.

Module Sql_stmt.

Definition integrity (what : string) : exn :=
  DatabaseError ("UNIQUE constraint failed: " +:+ what).

(** [INSERT INTO characters ...]. *)
Definition insert_character (id : string) (r : CharacterRow.t) (s : Store)
    : exn + Store :=
  match characters s !! id with
  | Some _ => inl (integrity "characters.id")
  | None => inr (with_characters (<[id := r]> (characters s)) s)
  end.

(** [UPDATE characters SET ... WHERE id = ?]. *)
Definition update_character (sets : list character_set) (id : string) (s : Store)
    : Store :=
  with_characters (alter (λ r, foldl character_assign r sets) id (characters s)) s.

(** [DELETE FROM characters WHERE id = ?]. *)
Definition delete_character (id : string) (s : Store) : Store :=
  with_characters (delete id (characters s)) s.

(** [UPDATE characters SET voice = ?, updated_at = ? WHERE voice = ?]. *)
Definition retarget_characters (new_voice now old_voice : string) (s : Store)
    : Store :=
  with_characters
    ((λ r, if bool_decide (CharacterRow.voice r = Some old_voice)
           then foldl character_assign r [CSetVoice new_voice; CSetUpdatedAt now]
           else r) <$> characters s) s.

(** [INSERT INTO voices ...]. *)
Definition insert_voice (name : string) (r : VoiceRow.t) (s : Store) : exn + Store :=
  match voices s !! name with
  | Some _ => inl (integrity "voices.voice")
  | None => inr (with_voices (<[name := r]> (voices s)) s)
  end.

(** [UPDATE voices SET ... WHERE voice = ?]. *)
Definition update_voice (sets : list voice_set) (name : string) (s : Store)
    : exn + Store :=
  match voices s !! name with
  | None => inr s
  | Some r =>
      let '(name', r') := foldl voice_assign (name, r) sets in
      if bool_decide (name' ≠ name) && bool_decide (is_Some (voices s !! name'))
      then inl (integrity "voices.voice")
      else inr (with_voices (<[name' := r']> (delete name (voices s))) s)
  end.

(** [DELETE FROM voices WHERE voice = ?]. *)
Definition delete_voice (name : string) (s : Store) : Store :=
  with_voices (delete name (voices s)) s.

(** [INSERT INTO conversations ...]. *)
Definition insert_conversation (id : string) (r : ConversationRow.t) (s : Store)
    : exn + Store :=
  match conversations s !! id with
  | Some _ => inl (integrity "conversations.conversation_id")
  | None => inr (with_conversations (<[id := r]> (conversations s)) s)
  end.

(** [UPDATE conversations SET ... WHERE conversation_id = ?], with
    [cursor.rowcount]. *)
Definition update_conversation (sets : list conversation_set) (id : string)
    (s : Store) : Z * Store :=
  match conversations s !! id with
  | None => (0, s)
  | Some r =>
      (1, with_conversations
            (<[id := foldl conversation_assign r sets]> (conversations s)) s)
  end.

(** [DELETE FROM conversations WHERE conversation_id = ?] under
    [PRAGMA foreign_keys = ON]: the messages of the conversation go with it.
    Gives [cursor.rowcount]. *)
Definition delete_conversation (id : string) (s : Store) : Z * Store :=
  match conversations s !! id with
  | None => (0, s)
  | Some _ =>
      (1, with_messages
            (filter (λ m, MessageRow.conversation_id m ≠ id) (messages s))
            (with_conversations (delete id (conversations s)) s))
  end.

(** [INSERT INTO messages ...]. *)
Definition insert_message (r : MessageRow.t) (s : Store) : exn + Store :=
  if bool_decide (MessageRow.message_id r ∈ MessageRow.message_id <$> messages s)
  then inl (integrity "messages.message_id")
  else inr (with_messages (messages s ++ [r]) s).

(** [DELETE FROM messages WHERE message_id = ?]. *)
Definition delete_message (id : string) (s : Store) : Store :=
  with_messages (filter (λ m, MessageRow.message_id m ≠ id) (messages s)) s.

End Sql_stmt.

(** ** ORDER BY, LIMIT and OFFSET *)

Module Order.

(** Order of a nullable TEXT column under the BINARY collation: NULL
    first, then texts by their bytes. *)
Definition compare (a b : option string) : comparison :=
  match a, b with
  | None, None => Eq
  | None, Some _ => Lt
  | Some _, None => Gt
  | Some x, Some y => String.compare x y
  end.


Definition leb (a b : option string) : bool :=
  match compare a b with Gt => false | _ => true end.


Section Sort.
Context {A : Type} (before : A → A → bool).

Fixpoint insert (x : A) (l : list A) : list A :=
  match l with
  | [] => [x]
  | y :: l' => if before x y then x :: l else y :: insert x l'
  end.

(** A stable sort: rows with equal keys keep their table order. *)
Definition sort (l : list A) : list A := foldr insert [] l.
End Sort.

Definition asc {A} (key : A → option string) : list A → list A :=
  sort (λ x y, leb (key x) (key y)).

Definition desc {A} (key : A → option string) : list A → list A :=
  sort (λ x y, leb (key y) (key x)).

(** [LIMIT n] for a bound integer [n]: a negative [n] is no limit. *)
Definition limit {A} (n : Z) (l : list A) : list A :=
  if (n <? 0)%Z then l else take (Z.to_nat n) l.

(** [OFFSET k] for a bound integer [k]: a negative [k] skips nothing. *)
Definition offset {A} (k : Z) (l : list A) : list A := drop (Z.to_nat k) l.

End Order.



(** ** The director *)

(** A value of [_voice_cache]: [{"config": ..., "audio_tokens": ...}]. *)
Record VoiceEntry : Type := mkVoiceEntry {
  config : Voice.t;
  entry_audio_tokens : json
}.

(** A coroutine handed to [asyncio.create_task], with its arguments. *)
Inductive Task : Type :=
  | PersistAudioTokens (voice_name : string) (audio_tokens : json)
  | CreateConversationAsync (conversation_id : string) (data : ConversationCreate.t)
  | CreateMessageAsync (message_id : string) (data : MessageCreate.t)
  | CreateMessagesBatchAsync (messages : list MessageCreate.t).

(** The [DatabaseDirector] object, the database file it works on and the
    tasks of the event loop that have not run yet. *)
Record Director : Type := mkDirector {
  store : Store;
  _character_cache : gmap string Character.t;
  _voice_cache : gmap string VoiceEntry;
  _cache_loaded : bool;
  tasks : list Task
}.

Definition with_store (s : Store) (d : Director) : Director :=
  mkDirector s (_character_cache d) (_voice_cache d) (_cache_loaded d) (tasks d).
Definition with_character_cache (c : gmap string Character.t) (d : Director) : Director :=
  mkDirector (store d) c (_voice_cache d) (_cache_loaded d) (tasks d).
Definition with_voice_cache (c : gmap string VoiceEntry) (d : Director) : Director :=
  mkDirector (store d) (_character_cache d) c (_cache_loaded d) (tasks d).
Definition with_cache_loaded (b : bool) (d : Director) : Director :=
  mkDirector (store d) (_character_cache d) (_voice_cache d) b (tasks d).
Definition with_tasks (t : list Task) (d : Director) : Director :=
  mkDirector (store d) (_character_cache d) (_voice_cache d) (_cache_loaded d) t.

(** [DatabaseDirector()] over a database file. *)
Definition new_director (s : Store) : Director := mkDirector s ∅ ∅ false [].

(** A method: it returns or raises, and leaves a director behind. *)
Definition M (A : Type) : Type := Director → (exn + A) * Director.

Definition ret {A} (a : A) : M A := λ d, (inr a, d).
Definition raise {A} (e : exn) : M A := λ d, (inl e, d).
Definition bind {A B} (m : M A) (k : A → M B) : M B :=
  λ d, match m d with
       | (inl e, d') => (inl e, d')
       | (inr a, d') => k a d'
       end.
Definition try_except {A} (m : M A) (handler : exn → M A) : M A :=
  λ d, match m d with
       | (inl e, d') => handler e d'
       | (inr a, d') => (inr a, d')
       end.
Definition gets {A} (f : Director → A) : M A := λ d, (inr (f d), d).
Definition modify (f : Director → Director) : M unit := λ d, (inr tt, f d).

(** What a call returned, when it returned. *)
Definition returned {A} (r : (exn + A) * Director) : option A :=
  match fst r with inr a => Some a | inl _ => None end.

(** What a call raised, when it raised. *)
Definition raised {A} (r : (exn + A) * Director) : option exn :=
  match fst r with inl e => Some e | inr _ => None end.

#[export] Instance M_ret : MRet M := @ret.
#[export] Instance M_bind : MBind M := λ A B k m, bind m k.

Definition database_error (e : exn) : exn :=
  HTTPException 500 ("Database error: " +:+ str_exn e).

(** [except HTTPException: raise] followed by
    [except Exception as e: raise HTTPException(500, ...)]. *)
Definition except_http_reraise {A} (m : M A) : M A :=
  try_except m (λ e,
    match e with
    | HTTPException _ _ => raise e
    | _ => raise (database_error e)
    end).

(** [except Exception as e: raise HTTPException(500, ...)] alone.
    [HTTPException] is an [Exception]. *)
Definition except_exception {A} (m : M A) : M A :=
  try_except m (λ e, raise (database_error e)).

(** [async with aiosqlite.connect(DB_PATH) as conn: ...]: the statements of
    the block run on the store and take effect together at the commit; a
    block left by an exception commits nothing. *)
Definition connect {A} (block : Store → exn + A * Store) : M A :=
  λ d,
    if online (store d)
    then match block (store d) with
         | inl e => (inl e, d)
         | inr (a, s) => (inr a, with_store s d)
         end
    else (inl (DatabaseError "unable to open database file"), d).

(** [asyncio.create_task(coro)]. *)
Definition create_task (t : Task) : M unit :=
  modify (λ d, with_tasks (tasks d ++ [t]) d).

(** Unfolds the combinators of [M] down to matches on the results of
    [connect]. *)
Ltac unfold_M :=
  unfold except_http_reraise, except_exception, try_except, mbind, M_bind, bind,
    mret, M_ret, ret, raise, gets, modify, create_task in *.

Definition lift {A} (r : exn + A) : M A :=
  match r with inl e => raise e | inr a => ret a end.

(** A block that only reads. *)
Definition query {A} (f : Store → A) : Store → exn + A * Store :=
  λ s, inr (f s, s).

(** A block that only reads, with a statement that can fail. *)
Definition query_checked {A} (f : Store → exn + A) : Store → exn + A * Store :=
  λ s, match f s with inl e => inl e | inr a => inr (a, s) end.

(** A block of one statement that cannot fail. *)
Definition execute (f : Store → Store) : Store → exn + unit * Store :=
  λ s, inr (tt, f s).

(** A block of one statement that can fail. *)
Definition execute_checked (f : Store → exn + Store) : Store → exn + unit * Store :=
  λ s, match f s with inl e => inl e | inr s' => inr (tt, s') end.

Definition not_found (what : string) : exn :=
  HTTPException 404 (what +:+ " not found").

Section Operations.

Context `{JsonCodec}.

(** *** Row codec *)

Definition decode_images (column : option string) : exn + list string :=
  match column with
  | Some text =>
      if Py.truthy text
      then match json_loads text with
           | inr (JList l) =>
               match as_str_list l with
               | Some images => inr images
               | None => inl (ValueError "validation error for Character")
               end
           | inr _ => inl (ValueError "validation error for Character")
           | inl e => inl (loads_exn e)
           end
      else inr []
  | None => inr []
  end.

(** [bool(row["is_active"])]. *)
Definition decode_bool (column : option Z) : bool :=
  match column with Some z => negb (z =? 0)%Z | None => false end.

Definition _row_to_character (id : string) (row : CharacterRow.t)
    : exn + Character.t :=
  match decode_images (CharacterRow.images row) with
  | inl e => inl e
  | inr images =>
      inr (Character.mk id (CharacterRow.name row)
             (Py.or_empty (CharacterRow.voice row))
             (Py.or_empty (CharacterRow.system_prompt row))
             (Py.or_empty (CharacterRow.image_url row))
             images
             (decode_bool (CharacterRow.is_active row))
             (Py.or_empty (CharacterRow.last_message row))
             (CharacterRow.created_at row) (CharacterRow.updated_at row))
  end.

(** Lines 251-256: a text that is not JSON is passed through, by the
    handler of [JSONDecodeError]; the other errors of [json.loads] are not
    caught. *)
Definition decode_audio_tokens (column : option string) : exn + json :=
  match column with
  | Some text =>
      if Py.truthy text
      then match json_loads text with
           | inr tokens => inr tokens
           | inl (DecodeError _) => inr (JStr text)
           | inl e => inl (loads_exn e)
           end
      else inr JNull
  | None => inr JNull
  end.

Definition _row_to_voice (voice : string) (row : VoiceRow.t) : exn + Voice.t :=
  match decode_audio_tokens (VoiceRow.audio_tokens row) with
  | inl e => inl e
  | inr audio_tokens =>
      inr (Voice.mk voice
             (Py.or_empty (VoiceRow.method row))
             (Py.or_empty (VoiceRow.audio_path row))
             (Py.or_empty (VoiceRow.text_path row))
             (Py.or_empty (VoiceRow.speaker_desc row))
             (Py.or_empty (VoiceRow.scene_prompt row))
             audio_tokens
             (VoiceRow.id row) (VoiceRow.created_at row) (VoiceRow.updated_at row))
  end.

Definition decode_active_characters (column : option string) : exn + list dict :=
  match column with
  | Some text =>
      if Py.truthy text
      then match json_loads text with
           | inr (JList l) =>
               match as_dict_list l with
               | Some cs => inr cs
               | None => inl (ValueError "validation error for Conversation")
               end
           | inr _ => inl (ValueError "validation error for Conversation")
           | inl e => inl (loads_exn e)
           end
      else inr []
  | None => inr []
  end.

Definition _row_to_conversation (id : string) (row : ConversationRow.t)
    : exn + Conversation.t :=
  match decode_active_characters (ConversationRow.active_characters row) with
  | inl e => inl e
  | inr cs =>
      inr (Conversation.mk id (ConversationRow.title row) cs
             (ConversationRow.created_at row) (ConversationRow.updated_at row))
  end.

Definition _row_to_message (row : MessageRow.t) : Message.t :=
  Message.mk (MessageRow.message_id row) (MessageRow.conversation_id row)
    (MessageRow.role row) (MessageRow.name row) (MessageRow.content row)
    (MessageRow.character_id row)
    (MessageRow.created_at row) (MessageRow.updated_at row).

(** The cache entry built from a decoded voice. *)
Definition voice_entry (voice : Voice.t) : VoiceEntry :=
  mkVoiceEntry voice (Voice.audio_tokens voice).

(** *** Cache warm-load *)

Definition cache_character (c : Character.t) : M unit :=
  modify (λ d, with_character_cache (<[Character.id c := c]> (_character_cache d)) d).

Definition cache_voice (v : Voice.t) : M unit :=
  modify (λ d, with_voice_cache (<[Voice.voice v := voice_entry v]> (_voice_cache d)) d).

Fixpoint load_characters (rows : list (string * CharacterRow.t)) : M unit :=
  match rows with
  | [] => ret tt
  | (id, row) :: rest =>
      character ← lift (_row_to_character id row);
      cache_character character;;
      load_characters rest
  end.

Fixpoint load_voices (rows : list (string * VoiceRow.t)) : M unit :=
  match rows with
  | [] => ret tt
  | (name, row) :: rest =>
      voice ← lift (_row_to_voice name row);
      cache_voice voice;;
      load_voices rest
  end.

(** One connection serves both SELECTs; the rows are decoded and cached in
    the order of the two loops, characters first. *)
Definition _load_caches : M unit :=
  '(character_rows, voice_rows) ←
    connect (query (λ s, (map_to_list (characters s), map_to_list (voices s))));
  load_characters character_rows;;
  load_voices voice_rows;;
  modify (with_cache_loaded true).

(** The schema script creates the tables that are missing; the store has
    all four. *)
Definition init_database : M unit :=
  connect (query (λ _, tt));;
  _load_caches.

(** *** Character operations *)

Definition _generate_character_id (name : string) : M string :=
  let base_id := slug name in
  try_except
    (rows ← connect (query_checked (λ s,
               select_ids_like base_id (map_to_list (characters s)).*1));
     mret (next_character_id base_id rows))
    (λ _, mret (base_id +:+ "-001")).

Definition cached_character (character_id : string) (d : Director)
    : option Character.t :=
  if _cache_loaded d then _character_cache d !! character_id else None.

Definition _get_character_from_db (character_id : string) : M Character.t :=
  except_http_reraise
    (row ← connect (query (λ s, characters s !! character_id));
     match row with
     | None => raise (not_found "Character")
     | Some row => lift (_row_to_character character_id row)
     end).

Definition get_character (character_id : string) : M Character.t :=
  hit ← gets (cached_character character_id);
  match hit with
  | Some character => mret character
  | None => _get_character_from_db character_id
  end.

Definition dump_images (images : list string) : string :=
  json_dumps (JList (JStr <$> images)).

Definition create_character (now : string) (character_data : CharacterCreate.t)
    : M Character.t :=
  except_exception
    (character_id ← _generate_character_id (CharacterCreate.name character_data);
     connect (execute_checked (Sql_stmt.insert_character character_id
       (CharacterRow.mk
          (CharacterCreate.name character_data)
          (Some (CharacterCreate.voice character_data))
          (Some (CharacterCreate.system_prompt character_data))
          (Some (CharacterCreate.image_url character_data))
          (Some (dump_images (CharacterCreate.images character_data)))
          (Some (if CharacterCreate.is_active character_data then 1 else 0))
          None (Some now) (Some now))));;
     let character :=
       Character.mk character_id
         (CharacterCreate.name character_data)
         (CharacterCreate.voice character_data)
         (CharacterCreate.system_prompt character_data)
         (CharacterCreate.image_url character_data)
         (CharacterCreate.images character_data)
         (CharacterCreate.is_active character_data)
         "" (Some now) (Some now) in
     modify (λ d, with_character_cache
                    (<[character_id := character]> (_character_cache d)) d);;
     mret character).

Definition character_updates (character_data : CharacterUpdate.t)
    : list character_set :=
  option_list (CSetName <$> CharacterUpdate.name character_data) ++
  option_list (CSetVoice <$> CharacterUpdate.voice character_data) ++
  option_list (CSetSystemPrompt <$> CharacterUpdate.system_prompt character_data) ++
  option_list (CSetImageUrl <$> CharacterUpdate.image_url character_data) ++
  option_list ((λ v, CSetImages (dump_images v)) <$>
                 CharacterUpdate.images character_data) ++
  option_list ((λ b : bool, CSetIsActive (if b then 1 else 0)) <$>
                 CharacterUpdate.is_active character_data) ++
  option_list (CSetLastMessage <$> CharacterUpdate.last_message character_data).

Definition update_character (now : string) (character_id : string)
    (character_data : CharacterUpdate.t) : M Character.t :=
  except_http_reraise
    (get_character character_id;;
     let updates := character_updates character_data in
     match updates with
     | [] => raise (HTTPException 400 "No fields to update")
     | _ =>
         let updates := updates ++ [CSetUpdatedAt now] in
         connect (execute (Sql_stmt.update_character updates character_id));;
         character ← _get_character_from_db character_id;
         modify (λ d, with_character_cache
                        (<[character_id := character]> (_character_cache d)) d);;
         mret character
     end).

Definition set_character_active (now : string) (character_id : string)
    (is_active : bool) : M Character.t :=
  update_character now character_id
    (CharacterUpdate.mk None None None None None (Some is_active) None).

Definition delete_character (character_id : string) : M bool :=
  except_http_reraise
    (get_character character_id;;
     connect (execute (Sql_stmt.delete_character character_id));;
     modify (λ d, with_character_cache
                    (delete character_id (_character_cache d)) d);;
     mret true).

Definition refresh_character_cache : M unit :=
  modify (with_character_cache ∅);;
  rows ← connect (query (λ s, map_to_list (characters s)));
  load_characters rows.


(** *** Voice operations *)

Definition cached_voice (voice_name : string) (d : Director) : option VoiceEntry :=
  if _cache_loaded d then _voice_cache d !! voice_name else None.

Definition get_voice (voice_name : string) : M Voice.t :=
  hit ← gets (cached_voice voice_name);
  match hit with
  | Some entry => mret (config entry)
  | None =>
      except_http_reraise
        (row ← connect (query (λ s, voices s !! voice_name));
         match row with
         | None => raise (not_found "Voice")
         | Some row =>
             voice ← lift (_row_to_voice voice_name row);
             modify (λ d, with_voice_cache
                            (<[voice_name := voice_entry voice]> (_voice_cache d)) d);;
             mret voice
         end)
  end.

Definition create_voice (now uuid4 : string) (voice_data : VoiceCreate.t)
    : M Voice.t :=
  except_exception
    (let voice_name := Py.strip Py.isspace (VoiceCreate.voice voice_data) in
     if negb (Py.truthy voice_name)
     then raise (HTTPException 400 "Voice name required")
     else
       hit ← gets (cached_voice voice_name);
       match hit with
       | Some _ => raise (HTTPException 400 "Voice name already exists")
       | None =>
           let voice_id := uuid4 in
           connect (execute_checked (Sql_stmt.insert_voice voice_name
             (VoiceRow.mk
                (Some (VoiceCreate.method voice_data))
                (Some (VoiceCreate.audio_path voice_data))
                (Some (VoiceCreate.text_path voice_data))
                (Some (VoiceCreate.speaker_desc voice_data))
                (Some (VoiceCreate.scene_prompt voice_data))
                None (Some voice_id) (Some now) (Some now))));;
           let voice :=
             Voice.mk voice_name
               (VoiceCreate.method voice_data)
               (VoiceCreate.audio_path voice_data)
               (VoiceCreate.text_path voice_data)
               (VoiceCreate.speaker_desc voice_data)
               (VoiceCreate.scene_prompt voice_data)
               JNull (Some voice_id) (Some now) (Some now) in
           modify (λ d, with_voice_cache
                          (<[voice_name := mkVoiceEntry voice JNull]> (_voice_cache d)) d);;
           mret voice
       end).

(** Line 693: the stripped new name, or [None]. *)
Definition stripped_new_voice (voice_data : VoiceUpdate.t) : option string :=
  Py.strip Py.isspace <$> VoiceUpdate.new_voice voice_data.

(** [new_voice and new_voice != voice_name]. *)
Definition is_rename (voice_name : string) (new_voice : option string) : bool :=
  match new_voice with
  | Some n => Py.truthy n && bool_decide (n ≠ voice_name)
  | None => false
  end.

Definition is_not_none (v : json) : bool :=
  match v with JNull => false | _ => true end.

Definition voice_updates (voice_name : string) (voice_data : VoiceUpdate.t)
    : list voice_set :=
  (match stripped_new_voice voice_data with
   | Some n => if is_rename voice_name (Some n) then [VSetVoice n] else []
   | None => []
   end) ++
  option_list (VSetMethod <$> VoiceUpdate.method voice_data) ++
  option_list (VSetAudioPath <$> VoiceUpdate.audio_path voice_data) ++
  option_list (VSetTextPath <$> VoiceUpdate.text_path voice_data) ++
  option_list (VSetSpeakerDesc <$> VoiceUpdate.speaker_desc voice_data) ++
  option_list (VSetScenePrompt <$> VoiceUpdate.scene_prompt voice_data) ++
  (if is_not_none (VoiceUpdate.audio_tokens voice_data)
   then [VSetAudioTokens (json_dumps (VoiceUpdate.audio_tokens voice_data))]
   else []).

(** [character.voice = new_voice; character.updated_at = now] on the
    cached characters that name [voice_name]. *)
Definition retarget_cached (new_voice now voice_name : string)
    (cache : gmap string Character.t) : gmap string Character.t :=
  (λ c, if bool_decide (Character.voice c = voice_name)
        then Character.mk (Character.id c) (Character.name c) new_voice
               (Character.system_prompt c) (Character.image_url c)
               (Character.images c) (Character.is_active c)
               (Character.last_message c) (Character.created_at c) (Some now)
        else c) <$> cache.

(** The block of lines 731-760. *)
Definition update_voice_block (now voice_name : string)
    (new_voice : option string) (updates : list voice_set)
    (s : Store) : exn + (string * option VoiceRow.t) * Store :=
  let rename := is_rename voice_name new_voice in
  let target := default voice_name new_voice in
  if rename && bool_decide (is_Some (voices s !! target))
  then inl (HTTPException 400 "Voice name already exists")
  else
    match Sql_stmt.update_voice updates voice_name s with
    | inl e => inl e
    | inr s1 =>
        let s2 := if rename
                  then Sql_stmt.retarget_characters target now voice_name s1
                  else s1 in
        let updated_voice_name := if rename then target else voice_name in
        inr ((updated_voice_name, voices s2 !! updated_voice_name), s2)
    end.

Definition update_voice (now : string) (voice_name : string)
    (voice_data : VoiceUpdate.t) : M Voice.t :=
  except_http_reraise
    (get_voice voice_name;;
     let new_voice := stripped_new_voice voice_data in
     match new_voice with
     | Some EmptyString => raise (HTTPException 400 "New voice name required")
     | _ =>
         let updates := voice_updates voice_name voice_data in
         match updates with
         | [] => raise (HTTPException 400 "No fields to update")
         | _ =>
             let updates := updates ++ [VSetUpdatedAt now] in
             '(updated_voice_name, row) ←
               connect (update_voice_block now voice_name new_voice updates);
             match row with
             | None => raise (not_found "Voice")
             | Some row =>
                 voice ← lift (_row_to_voice updated_voice_name row);
                 let rename := is_rename voice_name new_voice in
                 modify (λ d,
                   if rename
                   then with_voice_cache (delete voice_name (_voice_cache d)) d
                   else d);;
                 modify (λ d, with_voice_cache
                                (<[Voice.voice voice := voice_entry voice]>
                                   (_voice_cache d)) d);;
                 modify (λ d,
                   if rename && _cache_loaded d
                   then with_character_cache
                          (retarget_cached (default voice_name new_voice) now
                             voice_name (_character_cache d)) d
                   else d);;
                 mret voice
             end
         end
     end).

Definition delete_voice (now : string) (voice_name : string) : M bool :=
  except_http_reraise
    (get_voice voice_name;;
     connect (execute (λ s,
       Sql_stmt.retarget_characters "" now voice_name
         (Sql_stmt.delete_voice voice_name s)));;
     modify (λ d, with_voice_cache (delete voice_name (_voice_cache d)) d);;
     modify (λ d,
       if _cache_loaded d
       then with_character_cache
              (retarget_cached "" now voice_name (_character_cache d)) d
       else d);;
     mret true).

Definition get_cached_audio_tokens (voice_name : string) (d : Director) : json :=
  match _voice_cache d !! voice_name with
  | Some entry => entry_audio_tokens entry
  | None => JNull
  end.

Definition update_cached_audio_tokens (voice_name : string) (audio_tokens : json)
    : M unit :=
  entry ← gets (λ d, _voice_cache d !! voice_name);
  match entry with
  | Some entry =>
      modify (λ d, with_voice_cache
                     (<[voice_name := mkVoiceEntry (config entry) audio_tokens]>
                        (_voice_cache d)) d);;
      create_task (PersistAudioTokens voice_name audio_tokens)
  | None => mret tt
  end.

(** A failure of the task is logged and dropped. *)
Definition _persist_audio_tokens (now : string) (voice_name : string)
    (audio_tokens : json) : M unit :=
  try_except
    (connect (execute_checked (Sql_stmt.update_voice
       [VSetAudioTokens (json_dumps audio_tokens); VSetUpdatedAt now] voice_name)))
    (λ _, mret tt).

Definition clear_voice_cache : M unit := modify (with_voice_cache ∅).

Definition refresh_voice_cache : M unit :=
  modify (with_voice_cache ∅);;
  rows ← connect (query (λ s, map_to_list (voices s)));
  load_voices rows.


(** *** Conversation operations *)

(** [stamp] is [datetime.now().strftime('%Y-%m-%d %H:%M')]. *)
Definition _generate_conversation_title (stamp : string)
    (first_message : option string) : string :=
  let stripped := Py.strip Py.isspace (Py.or_empty first_message) in
  if Py.truthy stripped
  then
    let title := String.substring 0 50 stripped in
    if (50 <? String.length stripped)%nat then title +:+ "..." else title
  else "Conversation " +:+ stamp.

Definition dump_active_characters (cs : list dict) : string :=
  json_dumps (JList (JDict <$> cs)).

Definition create_conversation_background (uuid4 : string)
    (conversation_data : ConversationCreate.t) : M string :=
  let conversation_id := uuid4 in
  create_task (CreateConversationAsync conversation_id conversation_data);;
  mret conversation_id.

(** [x or y] on an optional text. *)
Definition or_else (x : option string) (y : string) : string :=
  match x with
  | Some t => if Py.truthy t then t else y
  | None => y
  end.

Definition _create_conversation_async (now stamp : string)
    (conversation_id : string) (conversation_data : ConversationCreate.t) : M unit :=
  try_except
    (let title := or_else (ConversationCreate.title conversation_data)
                    (_generate_conversation_title stamp None) in
     connect (execute_checked (Sql_stmt.insert_conversation conversation_id
       (ConversationRow.mk (Some title)
          (Some (dump_active_characters
                   (ConversationCreate.active_characters conversation_data)))
          (Some now) (Some now)))))
    (λ _, mret tt).

Definition get_conversation (conversation_id : string) : M Conversation.t :=
  except_http_reraise
    (row ← connect (query (λ s, conversations s !! conversation_id));
     match row with
     | None => raise (not_found "Conversation")
     | Some row => lift (_row_to_conversation conversation_id row)
     end).

Definition conversation_updates (conversation_data : ConversationUpdate.t)
    : list conversation_set :=
  option_list (KSetTitle <$> ConversationUpdate.title conversation_data) ++
  option_list ((λ cs, KSetActiveCharacters (dump_active_characters cs)) <$>
                 ConversationUpdate.active_characters conversation_data).

Definition update_conversation (now : string) (conversation_id : string)
    (conversation_data : ConversationUpdate.t) : M Conversation.t :=
  except_http_reraise
    (let updates := conversation_updates conversation_data in
     match updates with
     | [] => raise (HTTPException 400 "No fields to update")
     | _ =>
         let updates := updates ++ [KSetUpdatedAt now] in
         rowcount ← connect (λ s,
           inr (Sql_stmt.update_conversation updates conversation_id s));
         if (rowcount =? 0)%Z
         then raise (not_found "Conversation")
         else get_conversation conversation_id
     end).

Definition update_conversation_active_characters (now : string)
    (conversation_id : string) (active_characters : list dict) : M Conversation.t :=
  update_conversation now conversation_id
    (ConversationUpdate.mk None (Some active_characters)).

Definition add_character_to_conversation (now : string)
    (conversation_id : string) (character_data : dict) : M Conversation.t :=
  except_exception
    (conversation ← get_conversation conversation_id;
     let character_ids :=
       dict_get "id" <$> Conversation.active_characters conversation in
     if negb (existsb (json_eqb (dict_get "id" character_data)) character_ids)
     then update_conversation_active_characters now conversation_id
            (Conversation.active_characters conversation ++ [character_data])
     else mret conversation).

Definition remove_character_from_conversation (now : string)
    (conversation_id : string) (character_id : string) : M Conversation.t :=
  except_exception
    (conversation ← get_conversation conversation_id;
     let active_characters :=
       List.filter (λ c, negb (json_eqb (dict_get "id" c) (JStr character_id)))
         (Conversation.active_characters conversation) in
     update_conversation_active_characters now conversation_id active_characters).

Definition delete_conversation (conversation_id : string) : M bool :=
  except_http_reraise
    (rowcount ← connect (λ s, inr (Sql_stmt.delete_conversation conversation_id s));
     if (rowcount =? 0)%Z
     then raise (not_found "Conversation")
     else mret true).

(** *** Message operations *)

Definition message_row (message_id now : string) (m : MessageCreate.t)
    : MessageRow.t :=
  MessageRow.mk message_id (MessageCreate.conversation_id m)
    (MessageCreate.role m) (MessageCreate.name m) (MessageCreate.content m)
    (MessageCreate.character_id m) (Some now) (Some now).

Definition create_message (now uuid4 : string) (message_data : MessageCreate.t)
    : M Message.t :=
  except_exception
    (let message_id := uuid4 in
     connect (execute_checked
       (Sql_stmt.insert_message (message_row message_id now message_data)));;
     mret (_row_to_message (message_row message_id now message_data))).

Definition create_message_background (uuid4 : string)
    (message_data : MessageCreate.t) : M string :=
  let message_id := uuid4 in
  create_task (CreateMessageAsync message_id message_data);;
  mret message_id.

Definition _create_message_async (now : string) (message_id : string)
    (message_data : MessageCreate.t) : M unit :=
  try_except
    (connect (execute_checked
       (Sql_stmt.insert_message (message_row message_id now message_data))))
    (λ _, mret tt).

(** The [for] loop of a batch insert; the [i]-th call of [uuid.uuid4()]
    in it gives [uuid4 i]. *)
Fixpoint insert_batch (now : string) (uuid4 : nat → string) (i : nat)
    (msgs : list MessageCreate.t) (s : Store) : exn + Store :=
  match msgs with
  | [] => inr s
  | msg :: rest =>
      match Sql_stmt.insert_message (message_row (uuid4 i) now msg) s with
      | inl e => inl e
      | inr s' => insert_batch now uuid4 (S i) rest s'
      end
  end.

(** The method has no [return]: its value is [None]. *)
Definition create_messages_batch_background (msgs : list MessageCreate.t)
    : M unit :=
  create_task (CreateMessagesBatchAsync msgs).

Definition _create_messages_batch_async (now : string) (uuid4 : nat → string)
    (msgs : list MessageCreate.t) : M unit :=
  try_except
    (connect (execute_checked (insert_batch now uuid4 0 msgs)))
    (λ _, mret tt).

Definition conversation_rows (conversation_id : string) (s : Store)
    : list MessageRow.t :=
  filter (λ m, MessageRow.conversation_id m = conversation_id) (messages s).

Definition get_messages (conversation_id : string) (limit : option Z)
    (offset : Z) : M (list Message.t) :=
  except_exception
    (rows ← connect (query_checked (λ s,
       let rows := Order.asc MessageRow.created_at
                     (conversation_rows conversation_id s) in
       match limit with
       | Some n =>
           match Sql.bind_ints [n; offset] with
           | inl e => inl e
           | inr _ => inr (Order.limit n (Order.offset offset rows))
           end
       | None => inr rows
       end));
     mret (_row_to_message <$> rows)).

Definition get_recent_messages (conversation_id : string) (n : Z)
    : M (list Message.t) :=
  except_exception
    (rows ← connect (query_checked (λ s,
       match Sql.bind_ints [n] with
       | inl e => inl e
       | inr _ =>
           inr (Order.limit n (Order.desc MessageRow.created_at
                                 (conversation_rows conversation_id s)))
       end));
     mret (_row_to_message <$> reverse rows)).

Definition delete_message (message_id : string) : M bool :=
  except_exception
    (connect (execute (Sql_stmt.delete_message message_id));;
     mret true).

(** *** The event loop *)

(** One detached task runs to its end.  [now], [stamp] and [uuid4] are what
    the clock and the generator give while it runs. *)
Definition run_task (now stamp : string) (uuid4 : nat → string) (t : Task)
    : M unit :=
  match t with
  | PersistAudioTokens voice_name audio_tokens =>
      _persist_audio_tokens now voice_name audio_tokens
  | CreateConversationAsync conversation_id data =>
      _create_conversation_async now stamp conversation_id data
  | CreateMessageAsync message_id data =>
      _create_message_async now message_id data
  | CreateMessagesBatchAsync msgs =>
      _create_messages_batch_async now uuid4 msgs
  end.

(** The event loop takes the oldest pending task and runs it. *)
Definition run_next (now stamp : string) (uuid4 : nat → string) : M unit :=
  pending ← gets tasks;
  match pending with
  | [] => mret tt
  | t :: rest => modify (with_tasks rest);; run_task now stamp uuid4 t
  end.

(** *** Cache and store side by side *)

(** The cache entry a stored voice row decodes to. *)
Definition row_voice_entry (voice_name : string) (row : VoiceRow.t)
    : exn + VoiceEntry :=
  match _row_to_voice voice_name row with
  | inl e => inl e
  | inr voice => inr (voice_entry voice)
  end.

(** The cached entry of a voice is the decoded row of that voice, or both
    are missing. *)
Definition voice_coherent (voice_name : string) (d : Director) : Prop :=
  (inr <$> _voice_cache d !! voice_name : option (exn + VoiceEntry))
  = row_voice_entry voice_name <$> voices (store d) !! voice_name.

(** The cached character is the decoded row of that id, or both are
    missing. *)
Definition character_coherent (character_id : string) (d : Director) : Prop :=
  (inr <$> _character_cache d !! character_id : option (exn + Character.t))
  = _row_to_character character_id <$> characters (store d) !! character_id.


End Operations.

(** ** A reference codec

    A printer in the format of [json.dumps] (separators [", "] and [": "],
    a backslash before a quote and before a backslash) and the parser of the
    arrays of strings it prints.  It instantiates [JsonCodec] where a
    concrete run of the director is needed.  A text the parser does not read
    gives the [JSONDecodeError] of a text that starts with no value. *)

Module RefJson.

Definition quote : ascii := ascii_of_nat 34.
Definition backslash : ascii := "\"%char.

Fixpoint escape (s : string) : string :=
  match s with
  | EmptyString => EmptyString
  | String c r =>
      if bool_decide (c = quote) || bool_decide (c = backslash)
      then String backslash (String c (escape r))
      else String c (escape r)
  end.

Definition quoted (s : string) : string :=
  String quote (escape s +:+ String quote EmptyString).

Definition dumps_int (z : Z) : string :=
  if (z <? 0)%Z then "-" +:+ Py.str_nat (Z.abs_nat z) else Py.str_nat (Z.abs_nat z).

Section Items.
Context {A : Type} (dump : A → string) (close : string).

(** The items of an array or of an object, separated by [", "], and the
    closing bracket. *)
Fixpoint dumps_items (l : list A) : string :=
  match l with
  | [] => close
  | x :: l' =>
      match l' with
      | [] => dump x +:+ close
      | _ :: _ => dump x +:+ ", " +:+ dumps_items l'
      end
  end.
End Items.

Fixpoint dumps (j : json) : string :=
  match j with
  | JNull => "null"
  | JBool true => "true"
  | JBool false => "false"
  | JInt z => dumps_int z
  | JStr s => quoted s
  | JList l => "[" +:+ dumps_items dumps "]" l
  | JDict d =>
      "{" +:+ dumps_items (λ kv, quoted (fst kv) +:+ ": " +:+ dumps (snd kv)) "}" d
  end.

(** Where the parser stands in an array of strings. *)
Inductive state : Type :=
  | Start
  | First
  | InString (acc : string)
  | Escaped (acc : string)
  | AfterString
  | AfterComma
  | Next
  | Done.

(** [acc] holds the characters of the current string, last first; [out]
    the strings read so far, last first. *)
Fixpoint parse (st : state) (out : list string) (s : string)
    : option (list string) :=
  match s with
  | EmptyString => match st with Done => Some (reverse out) | _ => None end
  | String c r =>
      match st with
      | Start => if bool_decide (c = "["%char) then parse First out r else None
      | First =>
          if bool_decide (c = "]"%char) then parse Done out r
          else if bool_decide (c = quote) then parse (InString EmptyString) out r
          else None
      | InString acc =>
          if bool_decide (c = quote) then parse AfterString (String.rev acc :: out) r
          else if bool_decide (c = backslash) then parse (Escaped acc) out r
          else parse (InString (String c acc)) out r
      | Escaped acc => parse (InString (String c acc)) out r
      | AfterString =>
          if bool_decide (c = ","%char) then parse AfterComma out r
          else if bool_decide (c = "]"%char) then parse Done out r
          else None
      | AfterComma => if bool_decide (c = " "%char) then parse Next out r else None
      | Next =>
          if bool_decide (c = quote) then parse (InString EmptyString) out r else None
      | Done => None
      end
  end.

Definition loads (s : string) : option json :=
  (λ l, JList (JStr <$> l)) <$> parse Start [] s.

Definition not_json : loads_error :=
  DecodeError "Expecting value: line 1 column 1 (char 0)".

Definition codec : JsonCodec :=
  {| json_dumps := dumps;
     json_loads := λ s, match loads s with Some v => inr v | None => inl not_json end |}.

End RefJson.

(** ** Listings, searches and the remaining operations *)

Fixpoint has_prefix (p s : string) : bool :=
  match p, s with
  | EmptyString, _ => true
  | String a p', String b s' => bool_decide (a = b) && has_prefix p' s'
  | String _ _, EmptyString => false
  end.

(** [needle in haystack] on two texts. *)
Fixpoint str_in (needle haystack : string) : bool :=
  has_prefix needle haystack ||
  match haystack with
  | EmptyString => false
  | String _ rest => str_in needle rest
  end.

(** A character of the ASCII range. *)
Definition is_ascii (c : ascii) : bool := (Py.code c <? 128)%N.

(** The exceptions the decoding of a row raises: a [ValueError] (the
    [ValidationError] of a model, or the plain one of [json.loads]), a
    [JSONDecodeError] or a [RecursionError]. *)
Definition is_decoding_error (e : exn) : bool :=
  match e with
  | ValueError _ | JSONDecodeError _ | RecursionError _ => true
  | _ => false
  end.

(** A character other than NUL. *)
Definition not_nul (c : ascii) : bool := negb (bool_decide (c = Ascii.zero)).

(** The ids the LIKE of the id query keeps, for a pattern SQLite accepts. *)
Definition ids_like (base_id : string) (ids : list string) : list string :=
  filter (λ id, Sql.pattern_compare (Sql.c_str (base_id +:+ "-%")) (Sql.c_str id)
                = true) ids.

(** The two characters LIKE reads as wildcards. *)
Definition is_wildcard (c : ascii) : bool :=
  bool_decide (c = "%"%char) || bool_decide (c = "_"%char).

(** The director after the UPDATE of [update_conversation] on a stored
    row. *)
Definition conversation_written (now conversation_id : string)
    (sets : list conversation_set) (row : ConversationRow.t) (d : Director)
    : Director :=
  with_store
    (with_conversations
       (<[conversation_id := foldl conversation_assign row (sets ++ [KSetUpdatedAt now])]>
          (conversations (store d)))
       (store d)) d.

(** [dict.values()] as a list.  A Python dict lists its values in the order
    of insertion and a SELECT without ORDER BY gives its rows in no promised
    order; a table or a cache here lists them in the order of the finite
    map.  What is proved of a listing speaks of its elements and of their
    number, not of their order. *)
Definition values {V} (cache : gmap string V) : list V := (map_to_list cache).*2.

(** [DELETE FROM messages WHERE conversation_id = ?]. *)
Definition sql_delete_messages_of (conversation_id : string) (s : Store) : Store :=
  with_messages
    (filter (λ m, MessageRow.conversation_id m ≠ conversation_id) (messages s)) s.

Section Listings.

Context `{JsonCodec}.

(** [[self._row_to_character(row) for row in rows]]: the first row that
    does not decode ends the comprehension with its exception. *)
Fixpoint rows_to_characters (rows : list (string * CharacterRow.t))
    : exn + list Character.t :=
  match rows with
  | [] => inr []
  | (id, row) :: rest =>
      match _row_to_character id row with
      | inl e => inl e
      | inr character =>
          match rows_to_characters rest with
          | inl e => inl e
          | inr characters => inr (character :: characters)
          end
      end
  end.

Fixpoint rows_to_conversations (rows : list (string * ConversationRow.t))
    : exn + list Conversation.t :=
  match rows with
  | [] => inr []
  | (id, row) :: rest =>
      match _row_to_conversation id row with
      | inl e => inl e
      | inr conversation =>
          match rows_to_conversations rest with
          | inl e => inl e
          | inr conversations => inr (conversation :: conversations)
          end
      end
  end.

Fixpoint rows_to_voices (rows : list (string * VoiceRow.t))
    : exn + list Voice.t :=
  match rows with
  | [] => inr []
  | (name, row) :: rest =>
      match _row_to_voice name row with
      | inl e => inl e
      | inr voice =>
          match rows_to_voices rest with
          | inl e => inl e
          | inr voices => inr (voice :: voices)
          end
      end
  end.

Definition get_all_characters : M (list Character.t) :=
  loaded ← gets _cache_loaded;
  if loaded : bool
  then gets (λ d, values (_character_cache d))
  else
    except_exception
      (rows ← connect (query (λ s, map_to_list (characters s)));
       lift (rows_to_characters rows)).

Definition get_active_characters : M (list Character.t) :=
  loaded ← gets _cache_loaded;
  if loaded : bool
  then gets (λ d, filter (λ c, Character.is_active c = true)
                    (values (_character_cache d)))
  else
    except_exception
      (rows ← connect (query (λ s,
         filter (λ kr, CharacterRow.is_active kr.2 = Some 1)
           (map_to_list (characters s))));
       lift (rows_to_characters rows)).

Definition search_characters (query_text : string) : M (list Character.t) :=
  loaded ← gets _cache_loaded;
  if loaded : bool
  then
    let query_lower := Py.lower query_text in
    gets (λ d, filter (λ c, str_in query_lower (Py.lower (Character.name c)) = true)
                 (values (_character_cache d)))
  else
    except_exception
      (rows ← connect (query_checked (λ s,
         Sql.select_where
           (λ kr, Sql.like ("%" +:+ query_text +:+ "%") (CharacterRow.name kr.2))
           (map_to_list (characters s))));
       lift (rows_to_characters rows)).

Definition get_all_voices : M (list Voice.t) :=
  loaded ← gets _cache_loaded;
  if loaded : bool
  then gets (λ d, config <$> values (_voice_cache d))
  else
    except_exception
      (rows ← connect (query (λ s, map_to_list (voices s)));
       lift (rows_to_voices rows)).

(** [stamp] is what [datetime.now().strftime] gives when the title is
    generated. *)
Definition create_conversation (now stamp uuid4 : string)
    (conversation_data : ConversationCreate.t) (auto_generate_title : bool)
    : M Conversation.t :=
  except_exception
    (let conversation_id := uuid4 in
     let title := ConversationCreate.title conversation_data in
     let title :=
       if auto_generate_title && negb (Py.truthy (Py.or_empty title))
       then Some (_generate_conversation_title stamp None)
       else title in
     connect (execute_checked (Sql_stmt.insert_conversation conversation_id
       (ConversationRow.mk title
          (Some (dump_active_characters
                   (ConversationCreate.active_characters conversation_data)))
          (Some now) (Some now))));;
     mret (Conversation.mk conversation_id title
             (ConversationCreate.active_characters conversation_data)
             (Some now) (Some now))).

Definition get_all_conversations (limit : option Z) (offset : Z)
    : M (list Conversation.t) :=
  except_exception
    (rows ← connect (query_checked (λ s,
       let rows := Order.desc (λ kr, ConversationRow.updated_at kr.2)
                     (map_to_list (conversations s)) in
       match limit with
       | Some n =>
           match Sql.bind_ints [n; offset] with
           | inl e => inl e
           | inr _ => inr (Order.limit n (Order.offset offset rows))
           end
       | None => inr rows
       end));
     lift (rows_to_conversations rows)).

Definition update_conversation_title (now : string) (conversation_id : string)
    (title : string) : M Conversation.t :=
  update_conversation now conversation_id (ConversationUpdate.mk (Some title) None).

(** The handler logs and re-raises what it caught. *)
Definition auto_update_conversation_title (now stamp : string)
    (conversation_id : string) (first_message : string) : M Conversation.t :=
  try_except
    (conversation ← get_conversation conversation_id;
     let title := Py.or_empty (Conversation.title conversation) in
     if negb (Py.truthy title) || str_in "Conversation" title
     then
       let new_title := _generate_conversation_title stamp (Some first_message) in
       update_conversation_title now conversation_id new_title
     else mret conversation)
    (λ e, raise e).

(** The messages a batch returns; the [i]-th one carries [uuid4 i]. *)
Definition batch_messages (now : string) (uuid4 : nat → string)
    (msgs : list MessageCreate.t) : list Message.t :=
  imap (λ i msg, _row_to_message (message_row (uuid4 i) now msg)) msgs.

Definition create_messages_batch (now : string) (uuid4 : nat → string)
    (msgs : list MessageCreate.t) : M (list Message.t) :=
  except_exception
    (connect (execute_checked (insert_batch now uuid4 0 msgs));;
     mret (batch_messages now uuid4 msgs)).


Definition get_message_count (conversation_id : string) : M Z :=
  except_exception
    (count ← connect (query (λ s,
       Z.of_nat (length (conversation_rows conversation_id s))));
     mret count).

Definition delete_messages_for_conversation (conversation_id : string) : M bool :=
  except_exception
    (connect (execute (sql_delete_messages_of conversation_id));;
     mret true).

End Listings.

(** ** A reader for what the reference printer prints

    [RefJson.dumps] with a reader of every value it prints: texts, numbers,
    [null], [true], [false], arrays and objects. *)

Module FullJson.

(** The characters of a string after its opening quote, and the text after
    its closing quote.  [acc] holds the characters read, last first. *)
Fixpoint parse_string (acc : string) (s : string) : option (string * string) :=
  match s with
  | EmptyString => None
  | String c r =>
      if bool_decide (c = RefJson.quote) then Some (String.rev acc, r)
      else if bool_decide (c = RefJson.backslash)
      then match r with
           | EmptyString => None
           | String e r' => parse_string (String e acc) r'
           end
      else parse_string (String c acc) r
  end.

Fixpoint span_digits (s : string) : string * string :=
  match s with
  | EmptyString => (EmptyString, EmptyString)
  | String c r =>
      if Py.isdigit c
      then let '(ds, rest) := span_digits r in (String c ds, rest)
      else (EmptyString, s)
  end.

Definition parse_nat (s : string) : option (Z * string) :=
  let '(ds, rest) := span_digits s in
  if Py.truthy ds then Some (Z.of_nat (Py.int_digits ds), rest) else None.

Definition parse_int (s : string) : option (json * string) :=
  match s with
  | String c r =>
      if bool_decide (c = "-"%char)
      then '(z, rest) ← parse_nat r; Some (JInt (- z), rest)
      else '(z, rest) ← parse_nat s; Some (JInt z, rest)
  | EmptyString => None
  end.

Definition parse_word (s : string) : option (json * string) :=
  match strip_prefix "null" s with
  | Some rest => Some (JNull, rest)
  | None =>
      match strip_prefix "true" s with
      | Some rest => Some (JBool true, rest)
      | None =>
          match strip_prefix "false" s with
          | Some rest => Some (JBool false, rest)
          | None => parse_int s
          end
      end
  end.

(** What follows an item: the closing bracket, or [", "] and more items. *)
Inductive after_item : Type :=
  | Closed (rest : string)
  | More (rest : string).

Definition parse_after (close : ascii) (s : string) : option after_item :=
  match s with
  | String c r =>
      if bool_decide (c = close) then Some (Closed r)
      else if bool_decide (c = ","%char)
      then match r with
           | String c' r' => if bool_decide (c' = " "%char) then Some (More r') else None
           | EmptyString => None
           end
      else None
  | EmptyString => None
  end.

Definition parse_colon (s : string) : option string := strip_prefix ": " s.

Fixpoint parse_value (fuel : nat) (s : string) {struct fuel}
    : option (json * string) :=
  match fuel with
  | O => None
  | S fuel' =>
      match s with
      | EmptyString => None
      | String c r =>
          if bool_decide (c = RefJson.quote)
          then '(text, rest) ← parse_string EmptyString r; Some (JStr text, rest)
          else if bool_decide (c = "["%char)
          then match strip_prefix "]" r with
               | Some rest => Some (JList [], rest)
               | None => '(items, rest) ← parse_elements fuel' r; Some (JList items, rest)
               end
          else if bool_decide (c = "{"%char)
          then match strip_prefix "}" r with
               | Some rest => Some (JDict [], rest)
               | None => '(items, rest) ← parse_members fuel' r; Some (JDict items, rest)
               end
          else parse_word s
      end
  end
with parse_elements (fuel : nat) (s : string) {struct fuel}
    : option (list json * string) :=
  match fuel with
  | O => None
  | S fuel' =>
      '(v, r) ← parse_value fuel' s;
      after ← parse_after "]" r;
      match after with
      | Closed rest => Some ([v], rest)
      | More r' => '(vs, rest) ← parse_elements fuel' r'; Some (v :: vs, rest)
      end
  end
with parse_members (fuel : nat) (s : string) {struct fuel}
    : option (list (string * json) * string) :=
  match fuel with
  | O => None
  | S fuel' =>
      match s with
      | EmptyString => None
      | String c r =>
          if bool_decide (c = RefJson.quote)
          then
            '(key, r1) ← parse_string EmptyString r;
            r2 ← parse_colon r1;
            '(v, r3) ← parse_value fuel' r2;
            after ← parse_after "}" r3;
            match after with
            | Closed rest => Some ([(key, v)], rest)
            | More r4 =>
                '(kvs, rest) ← parse_members fuel' r4; Some ((key, v) :: kvs, rest)
            end
          else None
      end
  end.

Definition loads (s : string) : option json :=
  match parse_value (2 * String.length s + 2)%nat s with
  | Some (v, EmptyString) => Some v
  | _ => None
  end.

(** The deepest nesting of the brackets of a text. *)
Fixpoint nesting (depth deepest : nat) (s : string) : nat :=
  match s with
  | EmptyString => deepest
  | String c r =>
      if bool_decide (c = "["%char) || bool_decide (c = "{"%char)
      then nesting (S depth) (Nat.max deepest (S depth)) r
      else if bool_decide (c = "]"%char) || bool_decide (c = "}"%char)
      then nesting (pred depth) deepest r
      else nesting depth deepest r
  end.

(** [sys.getrecursionlimit()] as the interpreter starts. *)
Definition recursion_limit : nat := 1000.

Definition too_deep : loads_error :=
  DepthError
    "maximum recursion depth exceeded while decoding a JSON array from a unicode string".

(** Brackets nested deeper than the recursion limit give the
    [RecursionError] of the reader of arrays; any other text that is not read
    gives the [JSONDecodeError] of a text that starts with no value. *)
Definition codec : JsonCodec :=
  {| json_dumps := RefJson.dumps;
     json_loads :=
       λ s, if (recursion_limit <? nesting 0 0 s)%nat then inl too_deep
            else match loads s with
                 | Some v => inr v
                 | None => inl RefJson.not_json
                 end |}.

End FullJson.

(** ** Concrete runs

    Stores and directors on which the statements below are evaluated. *)

Module Scenario.

Definition robot_row : CharacterRow.t :=
  CharacterRow.mk "Robot" (Some "") (Some "") (Some "") (Some "[]") (Some 0)
    None (Some "2024-01-01T10:00:00") (Some "2024-01-01T10:00:00").

(** A director over a store that holds the character [robot-001]. *)
Definition one_robot : Director :=
  new_director (with_characters {["robot-001" := robot_row]} empty_store).

(** A director over a store whose highest [robot] id is [robot-999]. *)
Definition last_robot : Director :=
  new_director
    (with_characters (<["robot-999" := robot_row]> {["robot-001" := robot_row]})
       empty_store).

Definition now : string := "2024-01-02T09:30:00".

Definition aria_row : VoiceRow.t :=
  VoiceRow.mk (Some "clone") (Some "aria.wav") (Some "aria.txt") (Some "") (Some "")
    None (Some "v-1") (Some "2024-01-01T10:00:00") (Some "2024-01-01T10:00:00").

Definition nova_row : VoiceRow.t :=
  VoiceRow.mk (Some "profile") (Some "") (Some "") (Some "calm") (Some "")
    None (Some "v-2") (Some "2024-01-01T11:00:00") (Some "2024-01-01T11:00:00").

Definition aria_robot_row : CharacterRow.t :=
  CharacterRow.mk "Robot" (Some "aria") (Some "") (Some "") (Some "[]") (Some 0)
    None (Some "2024-01-01T10:00:00") (Some "2024-01-01T10:00:00").

(** Two voices, and one character that speaks with [aria]. *)
Definition studio_store : Store :=
  mkStore {["robot-001" := aria_robot_row]}
    (<["nova" := nova_row]> {["aria" := aria_row]}) ∅ [] true.

(** The director after [init_database] on that store. *)
Definition studio : Director :=
  snd (@init_database RefJson.codec (new_director studio_store)).

Definition guest_row : CharacterRow.t :=
  CharacterRow.mk "Guest" (Some "nova") (Some "") (Some "") (Some "[]") (Some 1)
    None (Some "2024-01-01T12:00:00") (Some "2024-01-01T12:00:00").

(** The warmed director after a row was added to the store behind its back:
    [guest-001] is stored and not cached. *)
Definition studio_with_guest : Director :=
  with_store
    (with_characters (<["guest-001" := guest_row]> (characters studio_store))
       studio_store)
    studio.

Definition hello : MessageCreate.t :=
  MessageCreate.mk "conv-1" "user" "hello" None None.

Definition said (conversation_id content : string) : MessageCreate.t :=
  MessageCreate.mk conversation_id "user" content None None.

(** Four messages created one after the other, the second one in another
    conversation. *)
Definition chat : Director :=
  let d := new_director empty_store in
  let d := snd (create_message "2024-01-02T09:30:01" "m-1" (said "conv-1" "one") d) in
  let d := snd (create_message "2024-01-02T09:30:02" "m-2" (said "conv-2" "aside") d) in
  let d := snd (create_message "2024-01-02T09:30:03" "m-3" (said "conv-1" "two") d) in
  snd (create_message "2024-01-02T09:30:04.500000" "m-4" (said "conv-1" "three") d).

(** A director that was never warmed, after a character that speaks with
    [aria] and then the voice [aria] were created through it. *)
Definition unwarmed_cast : Director :=
  let d := new_director empty_store in
  let d := snd (@create_character RefJson.codec "2024-01-02T09:00:00"
                  (CharacterCreate.mk "Robot" "aria" "" "" [] false) d) in
  snd (create_voice "2024-01-02T09:10:00" "v-1"
         (VoiceCreate.mk "aria" "clone" "aria.wav" "aria.txt" "" "") d).

(** [new_voice] given with blanks around it. *)
Definition to_luna : VoiceUpdate.t :=
  VoiceUpdate.mk (Some " luna ") None None None None None JNull.

Definition to_nova : VoiceUpdate.t :=
  VoiceUpdate.mk (Some "nova") None None None None None JNull.

(** The studio after [clear_voice_cache]: warmed, both voices stored, none
    cached. *)
Definition studio_cleared : Director := snd (clear_voice_cache studio).

Definition tokens : json := JList [JInt 7; JInt 8; JInt 9].

(** The unwarmed director after new audio tokens were given for [aria] (the
    task that persists them has not run yet) and the voice [nova] was
    created. *)
Definition unwarmed_tokens : Director :=
  let d := snd (update_cached_audio_tokens "aria" tokens unwarmed_cast) in
  snd (create_voice "2024-01-02T09:20:00" "v-2"
         (VoiceCreate.mk "nova" "profile" "" "" "calm" "") d).

Definition second_robot : CharacterCreate.t :=
  CharacterCreate.mk "Robot" "nova" "You are terse." ""
    ["a.png"; "dir\b.png"] true.

End Scenario.

(** ** More concrete runs *)

Module Cases.

Definition robot : dict := [("id", JStr "robot-001"); ("name", JStr "Robot")].

Definition guest : dict := [("id", JStr "guest-001"); ("name", JStr "Guest")].

(** A conversation that still carries its generated title. *)
Definition untitled_row : ConversationRow.t :=
  ConversationRow.mk (Some "Conversation 2024-01-01 10:00") (Some "[]")
    (Some "2024-01-01T10:00:00") (Some "2024-01-01T10:00:00").

(** A conversation with a chosen title, in which [robot] is active. *)
Definition trip_row : ConversationRow.t :=
  ConversationRow.mk (Some "Trip plans")
    (Some (@dump_active_characters FullJson.codec [robot]))
    (Some "2024-01-01T11:00:00") (Some "2024-01-01T12:00:00").

(** A conversation whose list of active characters is not JSON. *)
Definition torn_row : ConversationRow.t :=
  ConversationRow.mk (Some "Torn") (Some "oops") (Some "2024-01-01T09:00:00")
    (Some "2024-01-01T09:00:00").

(** The studio's character and voices, two conversations and the four
    messages of [Scenario.chat]: three in [conv-1], one in [conv-2]. *)
Definition library_store : Store :=
  mkStore (characters Scenario.studio_store) (voices Scenario.studio_store)
    (<["conv-2" := trip_row]> {["conv-1" := untitled_row]})
    (messages (store Scenario.chat)) true.

(** A director over a store whose one conversation does not decode. *)
Definition torn : Director :=
  new_director (with_conversations {["conv-0" := torn_row]} empty_store).

(** A director over the library whose caches were never loaded. *)
Definition library : Director := new_director library_store.

(** The same after [init_database]. *)
Definition library_warmed : Director :=
  snd (@init_database FullJson.codec library).

(** The ids [robot-999] and [robot-1000] are taken. *)
Definition full_robots : Director :=
  new_director
    (with_characters
       (<["robot-1000" := Scenario.robot_row]>
          (<["robot-999" := Scenario.robot_row]> {["robot-001" := Scenario.robot_row]}))
       empty_store).

(** A name of 49999 letters. *)
Definition long_name : string := N.iter 49999 (String "a"%char) "".

(** Brackets opened 1100 times and never closed. *)
Definition deep_text : string := N.iter 1100 (String "["%char) "".

(** A voice whose stored audio tokens are nested too deep to be read. *)
Definition deep_row : VoiceRow.t :=
  VoiceRow.mk (Some "clone") (Some "") (Some "") (Some "") (Some "")
    (Some deep_text) (Some "v-3") (Some "2024-01-01T12:00:00")
    (Some "2024-01-01T12:00:00").

(** The studio's store with that voice added under the name [echo]. *)
Definition deep_store : Store :=
  with_voices (<["echo" := deep_row]> (voices Scenario.studio_store))
    Scenario.studio_store.

Definition ids (i : nat) : string := "batch-" +:+ Py.str_nat i.

Definition welcome : ConversationCreate.t :=
  ConversationCreate.mk None [robot; guest].

Definition shout : VoiceCreate.t :=
  VoiceCreate.mk "  echo " "profile" "" "" "loud" "".

End Cases.

(** ** The shape of a slug *)

Section Strips.
Context (p q : ascii → bool).

Lemma all_chars_lstrip (s : string) :
  all_chars p s = true → all_chars p (Py.lstrip q s) = true.
Proof.
  induction s as [|c s IH]; [done|]. simpl. intros Hall.
  apply andb_true_iff in Hall as [Hc Hs].
  destruct (q c); [by apply IH|]. simpl. by rewrite Hc, Hs.
Qed.

Lemma all_chars_rstrip (s : string) :
  all_chars p s = true → all_chars p (Py.rstrip q s) = true.
Proof.
  induction s as [|c s IH]; [done|]. simpl. intros Hall.
  apply andb_true_iff in Hall as [Hc Hs]. specialize (IH Hs).
  destruct (Py.rstrip q s) as [|c' s'].
  - destruct (q c); [done|]. simpl. by rewrite Hc.
  - simpl in *. rewrite Hc. exact IH.
Qed.

Lemma has_run_tail (c : ascii) (s : string) :
  has_run p (String c s) = false → has_run p s = false.
Proof. simpl. intros Hrun. by apply orb_false_iff in Hrun as [_ ?]. Qed.

Lemma has_run_lstrip (s : string) :
  has_run p s = false → has_run p (Py.lstrip q s) = false.
Proof.
  induction s as [|c s IH]; [done|]. intros Hrun. simpl.
  destruct (q c); [|done]. by apply IH, (has_run_tail c).
Qed.

Lemma starts_with_rstrip (s : string) :
  starts_with p (Py.rstrip q s) = true → starts_with p s = true.
Proof.
  destruct s as [|c s]; [done|]. simpl.
  destruct (Py.rstrip q s); [|done]. by destruct (q c).
Qed.

Lemma has_run_rstrip (s : string) :
  has_run p s = false → has_run p (Py.rstrip q s) = false.
Proof.
  induction s as [|c s IH]; [done|]. intros Hrun.
  pose proof (has_run_tail c s Hrun) as Htail. specialize (IH Htail).
  simpl in Hrun. apply orb_false_iff in Hrun as [Hhead _].
  cbn [Py.rstrip]. destruct (Py.rstrip q s) as [|c' s'] eqn:Hstrip.
  - by destruct (q c); simpl; rewrite ?andb_false_r.
  - change (has_run p (String c (String c' s')))
      with ((p c && p c') || has_run p (String c' s')).
    rewrite IH, orb_false_r.
    destruct (p c) eqn:Hc; [|done]. simpl in *.
    destruct (p c') eqn:Hc'; [|done].
    rewrite (starts_with_rstrip s) in Hhead; [done|]. by rewrite Hstrip.
Qed.

End Strips.

Lemma starts_with_lstrip (q : ascii → bool) (s : string) :
  starts_with q (Py.lstrip q s) = false.
Proof.
  induction s as [|c s IH]; [done|]. simpl.
  destruct (q c) eqn:Hc; [done|]. simpl. exact Hc.
Qed.

Lemma starts_with_rstrip_false (p q : ascii → bool) (s : string) :
  starts_with p s = false → starts_with p (Py.rstrip q s) = false.
Proof.
  intros Hs. destruct (starts_with p (Py.rstrip q s)) eqn:Hr; [|done].
  apply starts_with_rstrip in Hr. congruence.
Qed.

Lemma ends_with_rstrip (q : ascii → bool) (s : string) :
  ends_with q (Py.rstrip q s) = false.
Proof.
  induction s as [|c s IH]; [done|]. cbn [Py.rstrip].
  destruct (Py.rstrip q s) as [|c' s'].
  - destruct (q c) eqn:Hc; [done|]. simpl. exact Hc.
  - exact IH.
Qed.

Lemma all_chars_re_delete (s : string) :
  all_chars slug_char (Py.re_delete (λ c, negb (slug_char c)) s) = true.
Proof.
  induction s as [|c s IH]; [done|]. simpl.
  destruct (slug_char c) eqn:Hc; simpl; [|done]. by rewrite Hc, IH.
Qed.

Lemma all_chars_collapse_spaces (in_run : bool) (s : string) :
  all_chars slug_char s = true →
  all_chars id_char (Py.re_collapse Py.isspace "-" in_run s) = true.
Proof.
  revert in_run. induction s as [|c s IH]; intros in_run Hall; [done|].
  simpl in Hall. apply andb_true_iff in Hall as [Hc Hs]. simpl.
  destruct (Py.isspace c) eqn:Hspace.
  - destruct in_run; [by apply IH|]. simpl. by apply IH.
  - simpl. rewrite IH by done. rewrite andb_true_r.
    unfold slug_char in Hc. unfold id_char. rewrite Hspace in Hc.
    by rewrite orb_false_r in Hc.
Qed.

Lemma all_chars_collapse_hyphens (in_run : bool) (s : string) :
  all_chars id_char s = true →
  all_chars id_char (Py.re_collapse is_hyphen "-" in_run s) = true.
Proof.
  revert in_run. induction s as [|c s IH]; intros in_run Hall; [done|].
  simpl in Hall. apply andb_true_iff in Hall as [Hc Hs]. simpl.
  destruct (is_hyphen c).
  - destruct in_run; [by apply IH|]. simpl. by apply IH.
  - simpl. by rewrite Hc, IH.
Qed.

Lemma collapse_hyphens_no_run (in_run : bool) (s : string) :
  has_run is_hyphen (Py.re_collapse is_hyphen "-" in_run s) = false ∧
  (in_run = true →
   starts_with is_hyphen (Py.re_collapse is_hyphen "-" in_run s) = false).
Proof.
  revert in_run. induction s as [|c s IH]; intros in_run; [done|]. simpl.
  destruct (is_hyphen c) eqn:Hc.
  - destruct (IH true) as [Hrun Hstart]. destruct in_run; [done|].
    split; [|done]. simpl. by rewrite Hrun, Hstart.
  - destruct (IH false) as [Hrun _]. simpl. by rewrite Hc, Hrun.
Qed.

(** The slug of any name has the shape the specification describes. *)
Lemma slug_well_formed (name : string) : well_formed_slug (slug name) = true.
Proof.
  unfold slug.
  set (collapsed :=
         Py.re_collapse is_hyphen "-" false
           (Py.re_collapse Py.isspace "-" false
              (Py.re_delete (λ c, negb (slug_char c))
                 (Py.strip Py.isspace (Py.lower name))))).
  assert (all_chars id_char collapsed = true) as Hall.
  { apply all_chars_collapse_hyphens, all_chars_collapse_spaces,
      all_chars_re_delete. }
  assert (has_run is_hyphen collapsed = false) as Hrun.
  { apply collapse_hyphens_no_run. }
  cbv zeta. destruct (Py.truthy (Py.strip is_hyphen collapsed)) eqn:Htruthy; [|done].
  unfold well_formed_slug, Py.strip in *. rewrite Htruthy.
  rewrite all_chars_rstrip by by apply all_chars_lstrip.
  rewrite starts_with_rstrip_false by apply starts_with_lstrip.
  rewrite ends_with_rstrip.
  by rewrite has_run_rstrip by by apply has_run_lstrip.
Qed.

(** * Properties *)

(** ** Texts *)

Lemma app_cons (c : ascii) (s t : string) : String c s +:+ t = String c (s +:+ t).
Proof. reflexivity. Qed.

Lemma app_nil_l (t : string) : "" +:+ t = t.
Proof. reflexivity. Qed.

Lemma app_assoc_s (s t u : string) : (s +:+ t) +:+ u = s +:+ t +:+ u.
Proof. induction s as [|c s IH]; [done|]. rewrite !app_cons. by f_equal. Qed.

Lemma strip_prefix_app (p rest : string) : strip_prefix p (p +:+ rest) = Some rest.
Proof.
  induction p as [|c p IH]; [done|].
  rewrite app_cons. simpl. by rewrite bool_decide_eq_true_2.
Qed.

Lemma strip_prefix_Some (p s rest : string) :
  strip_prefix p s = Some rest → s = p +:+ rest.
Proof.
  revert s. induction p as [|c p IH]; intros s Hs.
  - simpl in Hs. destruct s; by simplify_eq.
  - destruct s as [|b s]; [done|]. simpl in Hs.
    case_bool_decide; [|done]. subst b. rewrite app_cons. f_equal. by apply IH.
Qed.

(** ** The LIKE filter keeps every id the pattern can match *)

Lemma like_percent_any (s : string) : Sql.pattern_compare "%" s = true.
Proof. induction s as [|c s IH]; [done|]. simpl in *. by rewrite IH. Qed.

Lemma like_percent_here (p s : string) :
  Sql.pattern_compare p s = true → Sql.pattern_compare (String "%" p) s = true.
Proof. destruct s; simpl; by intros ->. Qed.

Lemma like_percent_skip (p s : string) (c : ascii) :
  Sql.pattern_compare (String "%" p) s = true →
  Sql.pattern_compare (String "%" p) (String c s) = true.
Proof. simpl. intros ->. apply orb_true_r. Qed.

Lemma like_literal (c d : ascii) (p s : string) :
  c ≠ "%"%char → c ≠ "_"%char →
  Sql.pattern_compare (String c p) (String d s)
  = Sql.eq_nocase c d && Sql.pattern_compare p s.
Proof. by destruct c as [[] [] [] [] [] [] [] []]. Qed.

Lemma like_prefix (p rest : string) :
  Sql.pattern_compare (p +:+ "%") (p +:+ rest) = true.
Proof.
  induction p as [|c p IH]; [apply like_percent_any|].
  rewrite !app_cons.
  destruct (decide (c = "%"%char)) as [->|Hpercent].
  { by apply like_percent_skip, like_percent_here. }
  destruct (decide (c = "_"%char)) as [->|Hunder]; [exact IH|].
  rewrite like_literal by done.
  rewrite IH. unfold Sql.eq_nocase. by rewrite bool_decide_eq_true_2.
Qed.

(** ** Three-digit suffixes *)



Lemma isdigit_digits (a : ascii) : Py.isdigit a = true → In a digits.
Proof.
  intros Hd. destruct a as [[] [] [] [] [] [] [] []]; try discriminate Hd;
    vm_compute; tauto.
Qed.


Lemma digits_ok_all (a b c : ascii) :
  In a digits → In b digits → In c digits → digits_ok a b c = true.
Proof.
  intros Ha Hb Hc.
  assert (forallb (λ a, forallb (λ b, forallb (digits_ok a b) digits) digits) digits
          = true) as Hall by (vm_compute; reflexivity).
  rewrite forallb_forall in Hall. specialize (Hall a Ha).
  rewrite forallb_forall in Hall. specialize (Hall b Hb).
  rewrite forallb_forall in Hall. exact (Hall c Hc).
Qed.


Lemma suffix_ok_all (n : nat) : (n < 1000)%nat → suffix_ok n = true.
Proof.
  intros Hn.
  assert (forallb suffix_ok (seq 0 1000) = true) as Hall by (vm_compute; reflexivity).
  rewrite forallb_forall in Hall. apply Hall, in_seq. lia.
Qed.

Lemma match_digits_format (n : nat) :
  (n < 1000)%nat →
  match_digits (Py.format_03d n) = Some n ∧
  match_digits (Py.format_03d n +:+ String newline "") = Some n ∧
  String.length (Py.format_03d n) = 3%nat.
Proof.
  intros Hn. pose proof (suffix_ok_all n Hn) as Hok. unfold suffix_ok in Hok.
  apply andb_true_iff in Hok as [Hok Hlen]. apply andb_true_iff in Hok as [H1 H2].
  apply bool_decide_eq_true in H1, H2. by apply Nat.eqb_eq in Hlen.
Qed.

Lemma match_digits_Some (rest : string) (n : nat) :
  match_digits rest = Some n →
  (n < 1000)%nat ∧
  (rest = Py.format_03d n ∨ rest = Py.format_03d n +:+ String newline "").
Proof.
  destruct rest as [|a [|b [|c tail]]]; try done. unfold match_digits.
  destruct (Py.isdigit a) eqn:Ha; [|done].
  destruct (Py.isdigit b) eqn:Hb; [|done].
  destruct (Py.isdigit c) eqn:Hc; [|done].
  pose proof (digits_ok_all a b c (isdigit_digits a Ha) (isdigit_digits b Hb)
                (isdigit_digits c Hc)) as Hok.
  unfold digits_ok in Hok. apply andb_true_iff in Hok as [Hlt Heq].
  apply Nat.ltb_lt in Hlt. apply String.eqb_eq in Heq. unfold text3 in Hlt, Heq.
  cbn [andb]. destruct (bool_decide (tail = "")) eqn:Ht; cbn [orb].
  - apply bool_decide_eq_true in Ht as ->. intros [= <-]. split; [exact Hlt|].
    by left.
  - destruct (bool_decide (tail = String newline "")) eqn:Hn; [|done].
    apply bool_decide_eq_true in Hn as ->. intros [= <-]. split; [exact Hlt|].
    right. by rewrite Heq.
Qed.


Lemma match_suffix_seq_id (base_id : string) (n : nat) :
  (n < 1000)%nat →
  match_suffix base_id (seq_id base_id n) = Some n ∧
  match_suffix base_id (seq_id base_id n +:+ String newline "") = Some n.
Proof.
  intros Hn. destruct (match_digits_format n Hn) as (H1 & H2 & _).
  unfold match_suffix, seq_id. split.
  - by rewrite <-(app_assoc_s base_id "-"), strip_prefix_app.
  - by rewrite !app_assoc_s, <-(app_assoc_s base_id "-"), strip_prefix_app.
Qed.

Lemma match_suffix_Some (base_id id : string) (n : nat) :
  match_suffix base_id id = Some n →
  (n < 1000)%nat ∧
  (id = seq_id base_id n ∨ id = seq_id base_id n +:+ String newline "").
Proof.
  unfold match_suffix. destruct (strip_prefix _ id) as [rest|] eqn:Hp; [|done].
  simpl. intros Hd. apply strip_prefix_Some in Hp as ->.
  apply match_digits_Some in Hd as [Hn [-> | ->]]; (split; [done|]); unfold seq_id.
  - left. by rewrite app_assoc_s.
  - right. by rewrite !app_assoc_s.
Qed.

(** ** Texts as SQLite reads them *)

Lemma all_chars_impl (p q : ascii → bool) (s : string) :
  (∀ c, p c = true → q c = true) → all_chars p s = true → all_chars q s = true.
Proof.
  intros Hpq. induction s as [|c s IH]; [done|]. simpl.
  intros [Hc Hs]%andb_true_iff. by rewrite (Hpq c Hc), IH.
Qed.

Lemma all_chars_app (p : ascii → bool) (s t : string) :
  all_chars p (s +:+ t) = all_chars p s && all_chars p t.
Proof.
  induction s as [|c s IH]; [done|]. rewrite app_cons. simpl.
  by rewrite IH, andb_assoc.
Qed.

Lemma c_str_app (s t : string) :
  all_chars not_nul s = true → Sql.c_str (s +:+ t) = s +:+ Sql.c_str t.
Proof.
  induction s as [|c s IH]; [done|]. simpl. intros [Hc Hs]%andb_true_iff.
  unfold not_nul in Hc. apply negb_true_iff in Hc. rewrite Hc. by rewrite IH.
Qed.

Lemma c_str_whole (s : string) : all_chars not_nul s = true → Sql.c_str s = s.
Proof.
  induction s as [|c s IH]; [done|]. simpl. intros [Hc Hs]%andb_true_iff.
  unfold not_nul in Hc. apply negb_true_iff in Hc. rewrite Hc. by rewrite IH.
Qed.

Lemma utf8_length_app (s t : string) :
  Sql.utf8_length (s +:+ t) = Sql.utf8_length s + Sql.utf8_length t.
Proof. induction s as [|c s IH]; [done|]. rewrite app_cons. simpl. lia. Qed.

Lemma utf8_length_ascii (s : string) :
  all_chars is_ascii s = true → Sql.utf8_length s = Z.of_nat (String.length s).
Proof.
  induction s as [|c s IH]; [done|]. simpl. intros [Hc Hs]%andb_true_iff.
  unfold is_ascii in Hc. rewrite Hc, IH by done. lia.
Qed.

Lemma utf8_length_bounds (s : string) :
  Z.of_nat (String.length s) ≤ Sql.utf8_length s ≤ 2 * Z.of_nat (String.length s).
Proof.
  induction s as [|c s IH]; [done|]. cbn [Sql.utf8_length String.length].
  destruct (Py.code c <? 128)%N; lia.
Qed.

Lemma id_char_plain (c : ascii) :
  id_char c = true → not_nul c = true ∧ is_ascii c = true.
Proof. by destruct c as [[] [] [] [] [] [] [] []]. Qed.

Lemma slug_plain (name : string) :
  all_chars not_nul (slug name) = true ∧ all_chars is_ascii (slug name) = true.
Proof.
  pose proof (slug_well_formed name) as Hwf. unfold well_formed_slug in Hwf.
  apply andb_true_iff in Hwf as [Hwf _]. apply andb_true_iff in Hwf as [Hwf _].
  apply andb_true_iff in Hwf as [Hwf _]. apply andb_true_iff in Hwf as [_ Hall].
  split; (eapply all_chars_impl; [|exact Hall]); intros c Hc;
    by apply id_char_plain in Hc as [? ?].
Qed.

(** The pattern of the id query takes the slug and two more bytes. *)
Lemma id_pattern_length (name : string) :
  Sql.utf8_length (slug name +:+ "-%") = Z.of_nat (String.length (slug name)) + 2.
Proof.
  rewrite utf8_length_app. destruct (slug_plain name) as [_ Hascii].
  by rewrite utf8_length_ascii.
Qed.

(** ** Rows selected by a condition *)

Lemma select_where_inr {A} (cond : A → exn + bool) (f : A → bool) (rows : list A) :
  (∀ row, row ∈ rows → cond row = inr (f row)) →
  Sql.select_where cond rows = inr (filter (λ row, f row = true) rows).
Proof.
  induction rows as [|row rows IH]; intros Hcond; [done|].
  cbn [Sql.select_where]. rewrite (Hcond row) by left.
  rewrite IH by (intros r Hr; apply Hcond; by right).
  rewrite filter_cons.
  destruct (f row); [by rewrite decide_True|by rewrite decide_False].
Qed.

Lemma select_where_inl {A} (cond : A → exn + bool) (e : exn) (row : A)
    (rows : list A) :
  cond row = inl e → Sql.select_where cond (row :: rows) = inl e.
Proof. intros Hcond. cbn [Sql.select_where]. by rewrite Hcond. Qed.

Lemma like_accepted (pattern text : string) :
  Sql.utf8_length pattern ≤ Sql.max_like_pattern_length →
  Sql.like pattern text
  = inr (Sql.pattern_compare (Sql.c_str pattern) (Sql.c_str text)).
Proof.
  intros Hlen. unfold Sql.like.
  destruct (Sql.max_like_pattern_length <? Sql.utf8_length pattern) eqn:Hlt; [|done].
  apply Z.ltb_lt in Hlt. lia.
Qed.

Lemma like_refused (pattern text : string) :
  Sql.max_like_pattern_length < Sql.utf8_length pattern →
  Sql.like pattern text = inl (DatabaseError "LIKE or GLOB pattern too complex").
Proof.
  intros Hlen. unfold Sql.like.
  destruct (Sql.max_like_pattern_length <? Sql.utf8_length pattern) eqn:Hlt; [done|].
  apply Z.ltb_ge in Hlt. lia.
Qed.

(** The ids the query of [_generate_character_id] gives for a pattern that
    SQLite accepts. *)
Lemma select_ids_like_accepted (base_id : string) (ids : list string) :
  Sql.utf8_length (base_id +:+ "-%") ≤ Sql.max_like_pattern_length →
  select_ids_like base_id ids = inr (ids_like base_id ids).
Proof.
  intros Hlen. unfold select_ids_like, ids_like.
  apply (select_where_inr _ (λ id, Sql.pattern_compare _ (Sql.c_str id))).
  intros id _. by apply like_accepted.
Qed.

Lemma match_suffix_like (base_id id : string) (n : nat) :
  all_chars not_nul base_id = true →
  match_suffix base_id id = Some n →
  Sql.pattern_compare (Sql.c_str (base_id +:+ "-%")) (Sql.c_str id) = true.
Proof.
  intros Hplain. unfold match_suffix.
  destruct (strip_prefix _ id) as [rest|] eqn:Hp; [|done].
  intros _. apply strip_prefix_Some in Hp as ->.
  rewrite c_str_whole by (by rewrite all_chars_app, Hplain).
  rewrite (c_str_app (base_id +:+ "-")) by (by rewrite all_chars_app, Hplain).
  change "-%" with ("-" +:+ "%"). rewrite <-app_assoc_s. apply like_prefix.
Qed.

(** ** The highest suffix *)

Lemma highest_num_fold (base_id : string) (rows : list string) (acc : nat) :
  let step := λ (highest : nat) (row : string),
                match match_suffix base_id row with
                | Some num => Nat.max highest num
                | None => highest
                end in
  let h := fold_left step rows acc in
  (acc ≤ h)%nat ∧
  (∀ id n, id ∈ rows → match_suffix base_id id = Some n → (n ≤ h)%nat) ∧
  (h = acc ∨ ∃ id, id ∈ rows ∧ match_suffix base_id id = Some h).
Proof.
  intros step. revert acc. induction rows as [|row rows IH]; intros acc; simpl.
  - split; [lia|]. split; [|by left]. intros id n Hin. by apply elem_of_nil in Hin.
  - destruct (IH (step acc row)) as (Hle & Hub & Hatt).
    assert (acc ≤ step acc row)%nat as Hstep.
    { unfold step. destruct (match_suffix base_id row); lia. }
    split; [lia|]. split.
    + intros id n Hin Hm. apply elem_of_cons in Hin as [->|Hin]; [|by eapply Hub].
      assert (n ≤ step acc row)%nat; [|lia]. unfold step. rewrite Hm. lia.
    + destruct Hatt as [Heq|(id & Hin & Hm)].
      * rewrite Heq. unfold step.
        destruct (match_suffix base_id row) as [num|] eqn:Hm; [|by left].
        destruct (Nat.max_spec acc num) as [[_ ->]|[_ ->]]; [|by left].
        right. exists row. split; [by left|done].
      * right. exists id. split; [by right|done].
Qed.

Lemma highest_num_upper (base_id : string) (rows : list string) (id : string) (n : nat) :
  id ∈ rows → match_suffix base_id id = Some n → (n ≤ highest_num base_id rows)%nat.
Proof. intros. by eapply (highest_num_fold base_id rows 0). Qed.

Lemma highest_num_attained (base_id : string) (rows : list string) :
  highest_num base_id rows = 0%nat ∨
  ∃ id, id ∈ rows ∧ match_suffix base_id id = Some (highest_num base_id rows).
Proof. apply (highest_num_fold base_id rows 0). Qed.

Lemma highest_num_lt (base_id : string) (rows : list string) :
  (highest_num base_id rows < 1000)%nat.
Proof.
  destruct (highest_num_attained base_id rows) as [->|(id & _ & Hm)]; [lia|].
  by apply match_suffix_Some in Hm as [? _].
Qed.

Lemma elem_of_ids_like (base_id id : string) (ids : list string) (n : nat) :
  all_chars not_nul base_id = true →
  id ∈ ids → match_suffix base_id id = Some n → id ∈ ids_like base_id ids.
Proof.
  intros Hplain Hin Hm. apply list_elem_of_filter. split; [|done].
  by eapply match_suffix_like.
Qed.

Lemma ids_like_subseteq (base_id id : string) (ids : list string) :
  id ∈ ids_like base_id ids → id ∈ ids.
Proof. intros Hin. by apply list_elem_of_filter in Hin as [_ ?]. Qed.

(** ** Reading the state *)

Lemma with_store_same (d : Director) : with_store (store d) d = d.
Proof. by destruct d. Qed.

Lemma connect_query {A} (f : Store → A) (d : Director) :
  online (store d) = true → connect (query f) d = (inr (f (store d)), d).
Proof. intros Hon. unfold connect, query. by rewrite Hon, with_store_same. Qed.

Lemma connect_query_checked {A} (f : Store → exn + A) (d : Director) :
  online (store d) = true →
  connect (query_checked f) d
  = match f (store d) with
    | inl e => (inl e, d)
    | inr a => (inr a, d)
    end.
Proof.
  intros Hon. unfold connect, query_checked. rewrite Hon.
  destruct (f (store d)); [done|]. by rewrite with_store_same.
Qed.

Lemma connect_offline {A} (block : Store → exn + A * Store) (d : Director) :
  online (store d) = false →
  connect block d = (inl (DatabaseError "unable to open database file"), d).
Proof. intros Hoff. unfold connect. by rewrite Hoff. Qed.

Lemma elem_of_table_keys {V} (t : gmap string V) (k : string) :
  k ∈ (map_to_list t).*1 ↔ is_Some (t !! k).
Proof.
  rewrite list_elem_of_fmap. split.
  - intros ([k' v] & -> & Hin). apply elem_of_map_to_list in Hin. by exists v.
  - intros [v Hv]. exists (k, v). split; [done|]. by apply elem_of_map_to_list.
Qed.

(** ** Character ids: the allocator *)

(** On a store that answers, with a slug short enough for the pattern of the
    id query, [_generate_character_id] reads and does not write, and returns
    the slug, a hyphen and [f"{h+1:03d}"], where [h] is the highest
    three-digit suffix among the stored ids made of that slug, a hyphen and
    three digits ([0] when there is none). *)
Lemma generate_character_id_online (name : string) (d : Director) :
  online (store d) = true →
  Sql.utf8_length (slug name +:+ "-%") ≤ Sql.max_like_pattern_length →
  _generate_character_id name d =
    (inr (next_character_id (slug name)
            (ids_like (slug name) (map_to_list (characters (store d))).*1)),
     d).
Proof.
  intros Hon Hlen. unfold _generate_character_id, try_except, mbind, M_bind, bind.
  rewrite connect_query_checked by done. by rewrite select_ids_like_accepted.
Qed.

Lemma generate_character_id_offline (name : string) (d : Director) :
  online (store d) = false →
  _generate_character_id name d = (inr (slug name +:+ "-001"), d).
Proof.
  intros Hoff. unfold _generate_character_id, try_except, mbind, M_bind, bind.
  by rewrite connect_offline.
Qed.

(** A slug too long for the pattern of the id query: on a store that holds
    a character the query raises, and the handler of line 334 gives the
    suffix [001]. *)
Lemma generate_character_id_refused (name : string) (d : Director) :
  online (store d) = true →
  Sql.max_like_pattern_length < Sql.utf8_length (slug name +:+ "-%") →
  characters (store d) ≠ ∅ →
  _generate_character_id name d = (inr (slug name +:+ "-001"), d).
Proof.
  intros Hon Hlen Hrows. unfold _generate_character_id, try_except, mbind, M_bind, bind.
  rewrite connect_query_checked by done. unfold select_ids_like.
  destruct (map_to_list (characters (store d))) as [|[id row] rows] eqn:Hlist.
  { by apply map_to_list_empty_iff in Hlist. }
  rewrite fmap_cons. by erewrite select_where_inl by (by apply like_refused).
Qed.


(** The allocator on a store that answers, for a slug short enough for the
    pattern of the id query (at most 49998 characters): the id is the slug of
    the name (not empty, made of [[a-z0-9-]], with no hyphen at either end
    and no two hyphens in a row), a hyphen, and [h + 1] written in decimal
    and padded with zeros to at least three digits.  Here [h] is the highest
    number among the stored ids made of that slug, a hyphen and exactly three
    digits (also when a newline ends the id, which the [$] of the pattern
    lets through), and [0] when there is none.  The suffix has three digits
    whenever [h] is below 999.  The call writes nothing. *)
Lemma generated_character_id (name : string) (d : Director) :
  online (store d) = true →
  Z.of_nat (String.length (slug name)) + 2 ≤ Sql.max_like_pattern_length →
  let base_id := slug name in
  let stored := λ id, is_Some (characters (store d) !! id) in
  well_formed_slug base_id = true ∧
  ∃ h : nat,
    _generate_character_id name d = (inr (seq_id base_id (S h)), d) ∧
    (h < 1000)%nat ∧
    (∀ n, (n < 1000)%nat →
       stored (seq_id base_id n) ∨ stored (seq_id base_id n +:+ String newline "") →
       (n ≤ h)%nat) ∧
    (h = 0%nat ∨ stored (seq_id base_id h) ∨
     stored (seq_id base_id h +:+ String newline "")) ∧
    ((h < 999)%nat → String.length (Py.format_03d (S h)) = 3%nat).
Proof.
  intros Hon Hlen base_id stored. split; [apply slug_well_formed|].
  rewrite <-id_pattern_length in Hlen.
  destruct (slug_plain name) as [Hplain _].
  set (ids := (map_to_list (characters (store d))).*1).
  set (rows := ids_like base_id ids).
  exists (highest_num base_id rows). split; [|split; [|split; [|split]]].
  - by rewrite generate_character_id_online.
  - apply highest_num_lt.
  - intros n Hn Hst.
    destruct (match_suffix_seq_id base_id n Hn) as [Hm1 Hm2].
    destruct Hst as [Hst|Hst]; apply elem_of_table_keys in Hst.
    + eapply highest_num_upper; [|exact Hm1]. by eapply elem_of_ids_like.
    + eapply highest_num_upper; [|exact Hm2]. by eapply elem_of_ids_like.
  - destruct (highest_num_attained base_id rows) as [?|(id & Hin & Hm)]; [by left|].
    right. apply ids_like_subseteq, elem_of_table_keys in Hin.
    apply match_suffix_Some in Hm as [_ [<-|<-]]; [by left|by right].
  - intros Hh. apply match_digits_format. lia.
Qed.

(** C3 fails on the code once a slug has used 999.  The store holds
    [robot-999]: the id generated for [Robot] is [robot-1000], which is no
    slug, hyphen and three digits.  The pattern of line 318 reads three
    digits and does not count that id: with [robot-999] and [robot-1000]
    stored the id generated is [robot-1000] again, and [create_character]
    fails on it with the storage error. *)
Theorem generated_id_four_digits :
  fst (_generate_character_id "Robot" Scenario.last_robot) = inr "robot-1000" ∧
  (¬ ∃ a b c : ascii,
       fst (_generate_character_id "Robot" Scenario.last_robot)
       = inr (slug "Robot" +:+ "-" +:+ String a (String b (String c "")))) ∧
  fst (_generate_character_id "Robot" Cases.full_robots) = inr "robot-1000" ∧
  is_Some (characters (store Cases.full_robots) !! "robot-1000") ∧
  raised (@create_character RefJson.codec Scenario.now Scenario.second_robot
            Cases.full_robots)
  = Some (HTTPException 500
            "Database error: UNIQUE constraint failed: characters.id").
Proof.
  assert (fst (_generate_character_id "Robot" Scenario.last_robot)
          = inr "robot-1000") as Hrun by (vm_compute; reflexivity).
  split; [exact Hrun|]. split.
  { intros (a & b & c & Habs). rewrite Hrun in Habs.
    vm_compute in Habs. discriminate Habs. }
  split; [vm_compute; reflexivity|]. split; [vm_compute; eauto|].
  vm_compute. reflexivity.
Qed.

(** The examples of the specification. *)
Example robot_after_robot_001 :
  fst (_generate_character_id "Robot" Scenario.one_robot) = inr "robot-002".
Proof. vm_compute. reflexivity. Qed.

Example robot_first :
  fst (_generate_character_id "Robot" (new_director empty_store)) = inr "robot-001".
Proof. vm_compute. reflexivity. Qed.

Example all_punctuation :
  fst (_generate_character_id "?!..." (new_director empty_store))
  = inr "character-001".
Proof. vm_compute. reflexivity. Qed.

(** An id that ends in a newline is counted too. *)
Example robot_after_newline_id :
  fst (_generate_character_id "Robot"
         (new_director
            (mkStore {["robot-005" +:+ String newline "" := Scenario.robot_row]}
               ∅ ∅ [] true)))
  = inr "robot-006".
Proof. vm_compute. reflexivity. Qed.

(** When the query fails the id falls back to the suffix [001]. *)
Example robot_store_offline :
  fst (_generate_character_id "Robot"
         (new_director
            (mkStore {["robot-001" := Scenario.robot_row]} ∅ ∅ [] false)))
  = inr "robot-001".
Proof. vm_compute. reflexivity. Qed.

(** ** Running a method *)

Lemma connect_execute (f : Store → Store) (d : Director) :
  online (store d) = true → connect (execute f) d = (inr tt, with_store (f (store d)) d).
Proof. intros Hon. unfold connect, execute. by rewrite Hon. Qed.

Lemma connect_online {A} (block : Store → exn + A * Store) (d : Director) :
  online (store d) = true →
  connect block d = match block (store d) with
                    | inl e => (inl e, d)
                    | inr (a, s) => (inr a, with_store s d)
                    end.
Proof. intros Hon. unfold connect. by rewrite Hon. Qed.

Section Reads.
Context `{JsonCodec}.

Lemma loads_exn_decoding (e : loads_error) : is_decoding_error (loads_exn e) = true.
Proof. by destruct e. Qed.

(** Both handlers of a method wrap the error of a decoding as the storage
    failure. *)
Lemma decoding_error_wrapped {A} (e : exn) (d : Director) :
  is_decoding_error e = true →
  match e with
  | HTTPException _ _ => raise e
  | _ => raise (database_error e)
  end d = (@raise A (database_error e)) d.
Proof. by destruct e. Qed.

Lemma decode_images_error (column : option string) (e : exn) :
  decode_images column = inl e → is_decoding_error e = true.
Proof.
  unfold decode_images. intros He.
  repeat case_match; simplify_eq; auto using loads_exn_decoding.
Qed.

Lemma row_to_character_error (id : string) (row : CharacterRow.t) (e : exn) :
  _row_to_character id row = inl e → is_decoding_error e = true.
Proof.
  unfold _row_to_character.
  destruct (decode_images (CharacterRow.images row)) eqn:Hdec; [|done].
  intros [= <-]. by eapply decode_images_error.
Qed.

Lemma decode_audio_tokens_error (column : option string) (e : exn) :
  decode_audio_tokens column = inl e → is_decoding_error e = true.
Proof.
  unfold decode_audio_tokens. intros He.
  repeat case_match; simplify_eq; auto using loads_exn_decoding.
Qed.

Lemma row_to_voice_error (name : string) (row : VoiceRow.t) (e : exn) :
  _row_to_voice name row = inl e → is_decoding_error e = true.
Proof.
  unfold _row_to_voice.
  destruct (decode_audio_tokens (VoiceRow.audio_tokens row)) eqn:Hdec; [|done].
  intros [= <-]. by eapply decode_audio_tokens_error.
Qed.

Lemma row_to_voice_name (name : string) (row : VoiceRow.t) (voice : Voice.t) :
  _row_to_voice name row = inr voice → Voice.voice voice = name.
Proof.
  unfold _row_to_voice. destruct (decode_audio_tokens _); [done|]. by intros [= <-].
Qed.

Lemma get_character_from_db_found (character_id : string) (row : CharacterRow.t)
    (d : Director) :
  online (store d) = true →
  characters (store d) !! character_id = Some row →
  _get_character_from_db character_id d
  = match _row_to_character character_id row with
    | inl e => (inl (database_error e), d)
    | inr c => (inr c, d)
    end.
Proof.
  intros Hon Hrow. unfold _get_character_from_db. unfold_M.
  rewrite connect_query by done. rewrite Hrow.
  destruct (_row_to_character character_id row) as [e|c] eqn:Hdec; [|done].
  apply row_to_character_error in Hdec. by destruct e.
Qed.

Lemma get_character_from_db_missing (character_id : string) (d : Director) :
  online (store d) = true →
  characters (store d) !! character_id = None →
  _get_character_from_db character_id d = (inl (not_found "Character"), d).
Proof.
  intros Hon Hrow. unfold _get_character_from_db. unfold_M.
  rewrite connect_query by done. by rewrite Hrow.
Qed.

Lemma get_character_from_db_offline (character_id : string) (d : Director) :
  online (store d) = false →
  _get_character_from_db character_id d
  = (inl (database_error (DatabaseError "unable to open database file")), d).
Proof.
  intros Hoff. unfold _get_character_from_db. unfold_M.
  by rewrite connect_offline.
Qed.

Lemma get_character_hit (character_id : string) (c : Character.t) (d : Director) :
  cached_character character_id d = Some c →
  get_character character_id d = (inr c, d).
Proof. intros Hhit. unfold get_character. unfold_M. by rewrite Hhit. Qed.

Lemma get_character_miss (character_id : string) (d : Director) :
  cached_character character_id d = None →
  get_character character_id d = _get_character_from_db character_id d.
Proof. intros Hmiss. unfold get_character. unfold_M. by rewrite Hmiss. Qed.

Lemma get_voice_hit (voice_name : string) (entry : VoiceEntry) (d : Director) :
  cached_voice voice_name d = Some entry →
  get_voice voice_name d = (inr (config entry), d).
Proof. intros Hhit. unfold get_voice. unfold_M. by rewrite Hhit. Qed.

Lemma get_voice_found (voice_name : string) (row : VoiceRow.t) (d : Director) :
  cached_voice voice_name d = None →
  online (store d) = true →
  voices (store d) !! voice_name = Some row →
  get_voice voice_name d
  = match _row_to_voice voice_name row with
    | inl e => (inl (database_error e), d)
    | inr voice =>
        (inr voice,
         with_voice_cache (<[voice_name := voice_entry voice]> (_voice_cache d)) d)
    end.
Proof.
  intros Hmiss Hon Hrow. unfold get_voice. unfold_M. rewrite Hmiss.
  rewrite connect_query by done. rewrite Hrow. unfold lift.
  destruct (_row_to_voice voice_name row) as [e|voice] eqn:Hdec; [|done].
  apply row_to_voice_error in Hdec. by destruct e.
Qed.

Lemma get_voice_missing (voice_name : string) (d : Director) :
  cached_voice voice_name d = None →
  online (store d) = true →
  voices (store d) !! voice_name = None →
  get_voice voice_name d = (inl (not_found "Voice"), d).
Proof.
  intros Hmiss Hon Hrow. unfold get_voice. unfold_M. rewrite Hmiss.
  rewrite connect_query by done. by rewrite Hrow.
Qed.

Lemma get_voice_offline (voice_name : string) (d : Director) :
  cached_voice voice_name d = None →
  online (store d) = false →
  get_voice voice_name d
  = (inl (database_error (DatabaseError "unable to open database file")), d).
Proof.
  intros Hmiss Hoff. unfold get_voice. unfold_M. rewrite Hmiss.
  by rewrite connect_offline.
Qed.

End Reads.

(** ** Audio tokens of a voice that is not cached *)

(** C9.  For a voice name that is not a key of the voice cache,
    [update_cached_audio_tokens] returns without raising and leaves the
    director as it was: the caches, the store and the queue of pending tasks
    are unchanged, so the tokens given are kept nowhere. *)
Theorem update_cached_audio_tokens_absent (voice_name : string)
    (audio_tokens : json) (d : Director) :
  _voice_cache d !! voice_name = None →
  update_cached_audio_tokens voice_name audio_tokens d = (inr tt, d) ∧
  get_cached_audio_tokens voice_name
    (snd (update_cached_audio_tokens voice_name audio_tokens d)) = JNull.
Proof.
  intros Hmiss.
  assert (update_cached_audio_tokens voice_name audio_tokens d = (inr tt, d)) as Hrun.
  { unfold update_cached_audio_tokens. unfold_M. by rewrite Hmiss. }
  split; [exact Hrun|]. rewrite Hrun. unfold get_cached_audio_tokens. simpl.
  by rewrite Hmiss.
Qed.

(** [ghost] is no voice of the studio: the update changes nothing there. *)
Lemma update_cached_audio_tokens_absent_witness :
  _voice_cache Scenario.studio !! "ghost" = None ∧
  update_cached_audio_tokens "ghost" (JList [JInt 1; JInt 2]) Scenario.studio
  = (inr tt, Scenario.studio).
Proof.
  split; [vm_compute; reflexivity|].
  apply (update_cached_audio_tokens_absent "ghost" (JList [JInt 1; JInt 2])
           Scenario.studio).
  vm_compute. reflexivity.
Defined.

(** For a cached voice the same call writes the cache and queues the task
    that persists the tokens. *)
Lemma update_cached_audio_tokens_present (voice_name : string)
    (audio_tokens : json) (entry : VoiceEntry) (d : Director) :
  _voice_cache d !! voice_name = Some entry →
  update_cached_audio_tokens voice_name audio_tokens d
  = (inr tt,
     with_tasks (tasks d ++ [PersistAudioTokens voice_name audio_tokens])
       (with_voice_cache
          (<[voice_name := mkVoiceEntry (config entry) audio_tokens]> (_voice_cache d))
          d)).
Proof.
  intros Hhit. unfold update_cached_audio_tokens. unfold_M. by rewrite Hhit.
Qed.

(** ** Deleting a message *)

Lemma delete_message_online (message_id : string) (d : Director) :
  online (store d) = true →
  delete_message message_id d
  = (inr true, with_store (Sql_stmt.delete_message message_id (store d)) d).
Proof.
  intros Hon. unfold delete_message. unfold_M. by rewrite connect_execute.
Qed.

Lemma delete_message_offline (message_id : string) (d : Director) :
  online (store d) = false →
  delete_message message_id d
  = (inl (database_error (DatabaseError "unable to open database file")), d).
Proof.
  intros Hoff. unfold delete_message. unfold_M. by rewrite connect_offline.
Qed.

Lemma delete_message_absent (message_id : string) (s : Store) :
  message_id ∉ MessageRow.message_id <$> messages s →
  Sql_stmt.delete_message message_id s = s.
Proof.
  intros Hnot. unfold Sql_stmt.delete_message.
  assert (filter (λ m, MessageRow.message_id m ≠ message_id) (messages s)
          = messages s) as ->; [|by destruct s].
  induction (messages s) as [|m ms IH]; [done|].
  rewrite fmap_cons, not_elem_of_cons in Hnot. destruct Hnot as [Hne Hnot].
  rewrite filter_cons_True by done. f_equal. by apply IH.
Qed.

Lemma delete_conversation_missing (conversation_id : string) (d : Director) :
  online (store d) = true →
  conversations (store d) !! conversation_id = None →
  delete_conversation conversation_id d = (inl (not_found "Conversation"), d).
Proof.
  intros Hon Hrow. unfold delete_conversation. unfold_M.
  rewrite connect_online by done. unfold Sql_stmt.delete_conversation.
  rewrite Hrow. simpl. by rewrite with_store_same.
Qed.

Section Deletes.
Context `{JsonCodec}.

Lemma delete_character_missing (character_id : string) (d : Director) :
  online (store d) = true →
  cached_character character_id d = None →
  characters (store d) !! character_id = None →
  delete_character character_id d = (inl (not_found "Character"), d).
Proof.
  intros Hon Hmiss Hrow. unfold delete_character.
  unfold except_http_reraise at 1. unfold try_except, mbind, M_bind, bind.
  rewrite get_character_miss, get_character_from_db_missing by done. done.
Qed.

Lemma delete_voice_missing (now voice_name : string) (d : Director) :
  online (store d) = true →
  cached_voice voice_name d = None →
  voices (store d) !! voice_name = None →
  delete_voice now voice_name d = (inl (not_found "Voice"), d).
Proof.
  intros Hon Hmiss Hrow. unfold delete_voice.
  unfold except_http_reraise at 1. unfold try_except, mbind, M_bind, bind.
  rewrite get_voice_missing by done. done.
Qed.

(** C10.  Whenever the store answers, [delete_message] returns [True], for
    an id that names no stored message too, and then the store is left as it
    was.  Whatever the director, it raises no NotFound: its only error is the
    storage failure.  Deleting a conversation, a character or a voice that
    does not exist raises NotFound. *)
Theorem delete_message_returns_true (now message_id key : string) (d : Director) :
  online (store d) = true →
  delete_message message_id d
  = (inr true, with_store (Sql_stmt.delete_message message_id (store d)) d) ∧
  (message_id ∉ MessageRow.message_id <$> messages (store d) →
   delete_message message_id d = (inr true, d)) ∧
  (∀ d' e, fst (delete_message message_id d') = inl e → status_of e = Some 500) ∧
  (conversations (store d) !! key = None →
   fst (delete_conversation key d) = inl (not_found "Conversation")) ∧
  (cached_character key d = None →
   characters (store d) !! key = None →
   fst (delete_character key d) = inl (not_found "Character")) ∧
  (cached_voice key d = None →
   voices (store d) !! key = None →
   fst (delete_voice now key d) = inl (not_found "Voice")).
Proof.
  intros Hon. repeat split.
  - by apply delete_message_online.
  - intros Hnot. rewrite delete_message_online by done.
    by rewrite delete_message_absent, with_store_same.
  - intros d' e. destruct (online (store d')) eqn:Hon'.
    + by rewrite delete_message_online.
    + rewrite delete_message_offline by done. by intros [= <-].
  - intros Hrow. by rewrite delete_conversation_missing.
  - intros Hmiss Hrow. by rewrite delete_character_missing.
  - intros Hmiss Hrow. by rewrite delete_voice_missing.
Qed.

End Deletes.

(** No message is stored in the studio: deleting [m-404] there returns
    [True]. *)
Lemma delete_message_returns_true_witness :
  online (store Scenario.studio) = true ∧
  delete_message "m-404" Scenario.studio = (inr true, Scenario.studio).
Proof.
  split; [vm_compute; reflexivity|].
  destruct (@delete_message_returns_true RefJson.codec Scenario.now "m-404"
              "ghost" Scenario.studio) as (_ & Habsent & _).
  - vm_compute. reflexivity.
  - apply Habsent. vm_compute. intros Hin. by apply elem_of_nil in Hin.
Defined.

(** ** Errors that cross a blanket handler *)

Section Rewrap.
Context `{JsonCodec}.

(** A handler that catches [Exception] turns every error of the body into a
    storage failure, the HTTP errors too. *)
Lemma except_exception_status {A} (m : M A) (d : Director) (e : exn) :
  fst (except_exception m d) = inl e → status_of e = Some 500.
Proof.
  unfold except_exception, try_except, raise.
  destruct (m d) as [[e'|a] d']; simpl; [|done]. by intros [= <-].
Qed.

(** A handler that lets [HTTPException] through keeps its status. *)
Lemma except_http_reraise_keeps {A} (m : M A) (d d' : Director)
    (status : Z) (detail : string) :
  m d = (inl (HTTPException status detail), d') →
  except_http_reraise m d = (inl (HTTPException status detail), d').
Proof. intros Hm. unfold except_http_reraise, try_except, raise. by rewrite Hm. Qed.

Lemma create_voice_status (now uuid4 : string) (voice_data : VoiceCreate.t)
    (d : Director) (e : exn) :
  fst (create_voice now uuid4 voice_data d) = inl e → status_of e = Some 500.
Proof. apply except_exception_status. Qed.

Lemma add_character_to_conversation_status (now conversation_id : string)
    (character_data : dict) (d : Director) (e : exn) :
  fst (add_character_to_conversation now conversation_id character_data d) = inl e →
  status_of e = Some 500.
Proof. apply except_exception_status. Qed.

Lemma remove_character_from_conversation_status (now conversation_id : string)
    (character_id : string) (d : Director) (e : exn) :
  fst (remove_character_from_conversation now conversation_id character_id d) = inl e →
  status_of e = Some 500.
Proof. apply except_exception_status. Qed.

Lemma get_conversation_missing (conversation_id : string) (d : Director) :
  online (store d) = true →
  conversations (store d) !! conversation_id = None →
  get_conversation conversation_id d = (inl (not_found "Conversation"), d).
Proof.
  intros Hon Hrow. unfold get_conversation. unfold_M.
  rewrite connect_query by done. by rewrite Hrow.
Qed.

(** The Validation error of an empty name is raised and then caught. *)
Lemma create_voice_empty_name (now uuid4 : string) (voice_data : VoiceCreate.t)
    (d : Director) :
  Py.strip Py.isspace (VoiceCreate.voice voice_data) = "" →
  create_voice now uuid4 voice_data d
  = (inl (database_error (HTTPException 400 "Voice name required")), d).
Proof. intros Hname. unfold create_voice. unfold_M. by rewrite Hname. Qed.

(** The Validation error of a name that is cached is raised and then caught. *)
Lemma create_voice_duplicate (now uuid4 : string) (voice_data : VoiceCreate.t)
    (entry : VoiceEntry) (d : Director) :
  Py.truthy (Py.strip Py.isspace (VoiceCreate.voice voice_data)) = true →
  cached_voice (Py.strip Py.isspace (VoiceCreate.voice voice_data)) d = Some entry →
  create_voice now uuid4 voice_data d
  = (inl (database_error (HTTPException 400 "Voice name already exists")), d).
Proof.
  intros Hname Hhit. unfold create_voice. unfold_M. cbv zeta.
  rewrite Hname. cbn [negb]. by rewrite Hhit.
Qed.

Lemma add_character_to_missing_conversation (now conversation_id : string)
    (character_data : dict) (d : Director) :
  online (store d) = true →
  conversations (store d) !! conversation_id = None →
  add_character_to_conversation now conversation_id character_data d
  = (inl (database_error (not_found "Conversation")), d).
Proof.
  intros Hon Hrow. unfold add_character_to_conversation.
  unfold except_exception, try_except, mbind, M_bind, bind.
  by rewrite get_conversation_missing.
Qed.

Lemma remove_character_from_missing_conversation (now conversation_id : string)
    (character_id : string) (d : Director) :
  online (store d) = true →
  conversations (store d) !! conversation_id = None →
  remove_character_from_conversation now conversation_id character_id d
  = (inl (database_error (not_found "Conversation")), d).
Proof.
  intros Hon Hrow. unfold remove_character_from_conversation.
  unfold except_exception, try_except, mbind, M_bind, bind.
  by rewrite get_conversation_missing.
Qed.

End Rewrap.

(** C2 fails on the code.  [create_voice] raises the Validation error (400)
    for an empty name and for a name that is cached, and
    [add_character_to_conversation] and [remove_character_from_conversation]
    get the NotFound error (404) of [get_conversation]; the only handler of
    the three methods catches [Exception], so each of these errors reaches
    the caller as a storage failure (500).  The sibling [update_voice], whose
    handler lets [HTTPException] through, answers a taken name with 400. *)
Theorem validation_and_not_found_rewrapped :
  fst (create_voice Scenario.now "v-3"
         (VoiceCreate.mk "   " "clone" "" "" "" "") Scenario.studio)
  = inl (HTTPException 500 "Database error: 400: Voice name required") ∧
  fst (create_voice Scenario.now "v-3"
         (VoiceCreate.mk "aria" "clone" "" "" "" "") Scenario.studio)
  = inl (HTTPException 500 "Database error: 400: Voice name already exists") ∧
  fst (@add_character_to_conversation RefJson.codec Scenario.now "conv-404"
         [("id", JStr "robot-001")] Scenario.studio)
  = inl (HTTPException 500 "Database error: 404: Conversation not found") ∧
  fst (@remove_character_from_conversation RefJson.codec Scenario.now "conv-404"
         "robot-001" Scenario.studio)
  = inl (HTTPException 500 "Database error: 404: Conversation not found") ∧
  fst (@update_voice RefJson.codec Scenario.now "aria"
         (VoiceUpdate.mk (Some "nova") None None None None None JNull)
         Scenario.studio)
  = inl (HTTPException 400 "Voice name already exists").
Proof. repeat split; vm_compute; reflexivity. Qed.

(** ** Lookups that miss the cache *)

Section Lookups.
Context `{JsonCodec}.

(** With the caches warmed and the store answering, a voice lookup whose
    name is not cached reads the store, puts the row it finds into the voice
    cache and returns it; a character lookup whose id is not cached reads the
    store and returns the row it finds, and leaves the character cache as it
    was.  A row that does not decode gives the storage failure with the
    error of the decoding, and nothing is cached.  Either lookup raises
    NotFound exactly when the store has no such row. *)
Lemma lookup_on_cache_miss (key : string) (d : Director) :
  _cache_loaded d = true →
  online (store d) = true →
  (_voice_cache d !! key = None →
   match voices (store d) !! key with
   | Some row =>
       get_voice key d
       = match _row_to_voice key row with
         | inr voice =>
             (inr voice,
              with_voice_cache (<[key := voice_entry voice]> (_voice_cache d)) d)
         | inl e => (inl (database_error e), d)
         end
   | None => get_voice key d = (inl (not_found "Voice"), d)
   end) ∧
  (_character_cache d !! key = None →
   match characters (store d) !! key with
   | Some row =>
       get_character key d
       = match _row_to_character key row with
         | inr character => (inr character, d)
         | inl e => (inl (database_error e), d)
         end
   | None => get_character key d = (inl (not_found "Character"), d)
   end).
Proof.
  intros Hloaded Hon. split; intros Hmiss.
  - assert (cached_voice key d = None) as Hc.
    { unfold cached_voice. by rewrite Hloaded. }
    destruct (voices (store d) !! key) as [row|] eqn:Hrow.
    + rewrite (get_voice_found key row) by done.
      by destruct (_row_to_voice key row).
    + by apply get_voice_missing.
  - assert (cached_character key d = None) as Hc.
    { unfold cached_character. by rewrite Hloaded. }
    rewrite get_character_miss by done.
    destruct (characters (store d) !! key) as [row|] eqn:Hrow.
    + rewrite (get_character_from_db_found key row) by done.
      by destruct (_row_to_character key row).
    + by apply get_character_from_db_missing.
Qed.

End Lookups.

(** C7 fails on the code for characters.  The caches are warmed,
    [guest-001] is stored and not cached: [get_character] returns it, and it
    is still not cached afterwards.  The same miss on a voice fills the
    cache: with the caches warmed and [aria] stored and not cached,
    [get_voice] returns it and it is cached afterwards. *)
Theorem get_character_does_not_populate :
  (_cache_loaded Scenario.studio_with_guest = true ∧
   _character_cache Scenario.studio_with_guest !! "guest-001" = None ∧
   is_Some (characters (store Scenario.studio_with_guest) !! "guest-001") ∧
   (∃ character,
      fst (@get_character RefJson.codec "guest-001" Scenario.studio_with_guest)
      = inr character ∧ Character.name character = "Guest") ∧
   ¬ is_Some
       (_character_cache
          (snd (@get_character RefJson.codec "guest-001"
                  Scenario.studio_with_guest)) !! "guest-001")) ∧
  (_cache_loaded Scenario.studio_cleared = true ∧
   _voice_cache Scenario.studio_cleared !! "aria" = None ∧
   is_Some (voices (store Scenario.studio_cleared) !! "aria") ∧
   (∃ voice,
      fst (@get_voice RefJson.codec "aria" Scenario.studio_cleared) = inr voice ∧
      config <$>
        _voice_cache (snd (@get_voice RefJson.codec "aria" Scenario.studio_cleared))
          !! "aria"
      = Some voice)).
Proof.
  split.
  - split; [vm_compute; reflexivity|]. split; [vm_compute; reflexivity|].
    split; [vm_compute; eauto|]. split.
    + eexists. split; vm_compute; reflexivity.
    + vm_compute. by intros [? ?].
  - split; [vm_compute; reflexivity|]. split; [vm_compute; reflexivity|].
    split; [vm_compute; eauto|].
    eexists. split; vm_compute; reflexivity.
Qed.

(** ** The background write path *)

Lemma insert_message_fresh (r : MessageRow.t) (s : Store) :
  MessageRow.message_id r ∉ MessageRow.message_id <$> messages s →
  Sql_stmt.insert_message r s = inr (with_messages (messages s ++ [r]) s).
Proof. intros Hfresh. unfold Sql_stmt.insert_message. by rewrite bool_decide_eq_false_2. Qed.

Lemma insert_batch_fresh (now : string) (uuid4 : nat → string)
    (msgs : list MessageCreate.t) (i : nat) (s : Store) :
  NoDup (uuid4 <$> seq i (length msgs)) →
  (∀ k, (i ≤ k < i + length msgs)%nat →
        uuid4 k ∉ MessageRow.message_id <$> messages s) →
  insert_batch now uuid4 i msgs s
  = inr (with_messages
           (messages s ++ imap (λ k m, message_row (uuid4 (i + k)%nat) now m) msgs) s).
Proof.
  revert i s. induction msgs as [|msg msgs IH]; intros i s Hnodup Hfresh.
  - simpl. rewrite app_nil_r. by destruct s.
  - simpl in Hnodup. apply NoDup_cons in Hnodup as [Hhead Hnodup].
    cbn [insert_batch]. rewrite insert_message_fresh.
    2:{ apply Hfresh. simpl. lia. }
    rewrite IH.
    + cbn [messages with_messages]. rewrite <-app_assoc. f_equal.
      unfold with_messages. cbn. f_equal. f_equal. rewrite Nat.add_0_r. f_equal.
      apply imap_ext. intros k m _. simpl. by rewrite Nat.add_succ_r.
    + exact Hnodup.
    + intros k Hk. cbn [messages with_messages]. rewrite fmap_app. simpl.
      intros Hin. apply elem_of_app in Hin as [Hin|Hin].
      * revert Hin. apply Hfresh. simpl. lia.
      * apply list_elem_of_singleton in Hin. apply Hhead. rewrite <-Hin.
        apply list_elem_of_fmap. exists k. split; [done|].
        apply elem_of_seq. lia.
Qed.

Section Background.
Context `{JsonCodec}.

(** C6, amended.  [create_message_background] and
    [create_conversation_background] return the identifier drawn during the
    call, and at that point the store is as before and one task that carries
    this identifier is pending; when the task runs on a store that answers
    and where the identifier is free, it inserts one row under that
    identifier.  [create_messages_batch_background] returns [None] and
    draws no identifier: its task draws one per message while it runs. *)
Theorem background_identifiers (uuid4 : string) (message_data : MessageCreate.t)
    (conversation_data : ConversationCreate.t) (msgs : list MessageCreate.t)
    (d : Director) :
  create_message_background uuid4 message_data d
  = (inr uuid4, with_tasks (tasks d ++ [CreateMessageAsync uuid4 message_data]) d) ∧
  create_conversation_background uuid4 conversation_data d
  = (inr uuid4,
     with_tasks (tasks d ++ [CreateConversationAsync uuid4 conversation_data]) d) ∧
  create_messages_batch_background msgs d
  = (inr tt, with_tasks (tasks d ++ [CreateMessagesBatchAsync msgs]) d) ∧
  (∀ now stamp later d',
     online (store d') = true →
     uuid4 ∉ MessageRow.message_id <$> messages (store d') →
     run_task now stamp later (CreateMessageAsync uuid4 message_data) d'
     = (inr tt,
        with_store
          (with_messages
             (messages (store d') ++ [message_row uuid4 now message_data])
             (store d')) d')) ∧
  (∀ now stamp later d',
     online (store d') = true →
     conversations (store d') !! uuid4 = None →
     ∃ row,
       run_task now stamp later (CreateConversationAsync uuid4 conversation_data) d'
       = (inr tt,
          with_store
            (with_conversations (<[uuid4 := row]> (conversations (store d')))
               (store d')) d')) ∧
  (∀ now stamp later d',
     online (store d') = true →
     NoDup (later <$> seq 0 (length msgs)) →
     (∀ k, (k < length msgs)%nat →
           later k ∉ MessageRow.message_id <$> messages (store d')) →
     run_task now stamp later (CreateMessagesBatchAsync msgs) d'
     = (inr tt,
        with_store
          (with_messages
             (messages (store d') ++ imap (λ k m, message_row (later k) now m) msgs)
             (store d')) d')).
Proof.
  split; [done|]. split; [done|]. split; [done|]. split; [|split].
  - intros now stamp later d' Hon Hfresh.
    unfold run_task, _create_message_async. unfold_M.
    rewrite connect_online by done. unfold execute_checked.
    by rewrite insert_message_fresh.
  - intros now stamp later d' Hon Hfree. eexists.
    unfold run_task, _create_conversation_async. unfold_M.
    rewrite connect_online by done. unfold execute_checked.
    unfold Sql_stmt.insert_conversation. rewrite Hfree. reflexivity.
  - intros now stamp later d' Hon Hnodup Hfresh.
    unfold run_task, _create_messages_batch_async. unfold_M.
    rewrite connect_online by done. unfold execute_checked.
    rewrite insert_batch_fresh; [done|done|].
    intros k Hk. apply Hfresh. lia.
Qed.

End Background.

(** C6 as stated fails for the batch: the call returns [None], and no
    identifier fixed when it returns is the one its task stores, since that
    one is drawn while the task runs. *)
Lemma batch_background_returns_no_id :
  fst (create_messages_batch_background [Scenario.hello] (new_director empty_store))
  = inr tt ∧
  ¬ ∃ returned : string,
      ∀ later : nat → string,
        MessageRow.message_id <$>
          messages (store (snd (@run_next RefJson.codec Scenario.now "2024-01-02 09:30"
            later
            (snd (create_messages_batch_background [Scenario.hello]
                    (new_director empty_store))))))
        = [returned].
Proof.
  split; [reflexivity|]. intros [returned Hsame].
  pose proof (Hsame (λ _, "id-a")) as Ha. pose proof (Hsame (λ _, "id-b")) as Hb.
  vm_compute in Ha, Hb. congruence.
Qed.

(** ** Message order *)




Section Sorting.
Context {A : Type} (key : A → option string).




End Sorting.


Lemma bind_ints_bound (params : list Z) :
  Forall (λ n, - 2 ^ 63 ≤ n < 2 ^ 63) params → Sql.bind_ints params = inr tt.
Proof.
  intros Hall. unfold Sql.bind_ints.
  assert (forallb Sql.int64 params = true) as ->; [|done].
  apply forallb_forall. intros n Hn. rewrite List.Forall_forall in Hall.
  specialize (Hall n Hn). unfold Sql.int64. apply andb_true_iff. split; lia.
Qed.




(** A negative count is no limit for SQLite: every message comes back. *)
Example recent_messages_negative_count :
  returned (get_recent_messages "conv-1" (-1) Scenario.chat)
  = Some (_row_to_message <$>
            [message_row "m-1" "2024-01-02T09:30:01" (Scenario.said "conv-1" "one");
             message_row "m-3" "2024-01-02T09:30:03" (Scenario.said "conv-1" "two");
             message_row "m-4" "2024-01-02T09:30:04.500000"
               (Scenario.said "conv-1" "three")]).
Proof. vm_compute. reflexivity. Qed.

(** A count of [2^63] is not bound: the call raises the storage failure. *)
Example recent_messages_count_overflow :
  raised (get_recent_messages "conv-1" (2 ^ 63) Scenario.chat)
  = Some (HTTPException 500
            "Database error: Python int too large to convert to SQLite INTEGER").
Proof. vm_compute. reflexivity. Qed.

(** ** Reading a successful run backwards *)

Lemma bind_inr {A B} (m : M A) (k : A → M B) (d d' : Director) (b : B) :
  (m ≫= k) d = (inr b, d') →
  ∃ a d1, m d = (inr a, d1) ∧ k a d1 = (inr b, d').
Proof.
  unfold mbind, M_bind, bind. destruct (m d) as [[e|a] d1]; [done|]. eauto.
Qed.

Lemma except_http_reraise_inr {A} (m : M A) (d d' : Director) (a : A) :
  except_http_reraise m d = (inr a, d') → m d = (inr a, d').
Proof.
  unfold except_http_reraise, try_except, raise.
  destruct (m d) as [[e|a'] d1]; [by destruct e|done].
Qed.

Lemma except_exception_inr {A} (m : M A) (d d' : Director) (a : A) :
  except_exception m d = (inr a, d') → m d = (inr a, d').
Proof.
  unfold except_exception, try_except, raise. by destruct (m d) as [[e|a'] d1].
Qed.

Lemma connect_inr {A} (block : Store → exn + A * Store) (d d' : Director) (a : A) :
  connect block d = (inr a, d') →
  online (store d) = true ∧
  ∃ s, block (store d) = inr (a, s) ∧ d' = with_store s d.
Proof.
  unfold connect. destruct (online (store d)); [|done].
  destruct (block (store d)) as [e|[a' s]]; [done|]. intros [= -> <-]. eauto.
Qed.

Lemma modify_inr (f : Director → Director) (d d' : Director) (u : unit) :
  modify f d = (inr u, d') → d' = f d.
Proof. by intros [= _ <-]. Qed.

Lemma mret_inr {A} (a b : A) (d d' : Director) :
  (mret a : M A) d = (inr b, d') → b = a ∧ d' = d.
Proof. by intros [= <- <-]. Qed.

Lemma raise_inr {A} (e : exn) (d d' : Director) (a : A) :
  raise e d = (inr a, d') → False.
Proof. done. Qed.

Section Steps.
Context `{JsonCodec}.

(** A lookup that returns leaves the store and the character cache alone,
    and the voice cache too unless it loads the voice into it. *)
Lemma get_voice_inr (voice_name : string) (d d1 : Director) (voice : Voice.t) :
  get_voice voice_name d = (inr voice, d1) →
  store d1 = store d ∧
  _character_cache d1 = _character_cache d ∧
  _cache_loaded d1 = _cache_loaded d ∧
  tasks d1 = tasks d ∧
  ((d1 = d ∧ ∃ entry, cached_voice voice_name d = Some entry ∧ config entry = voice) ∨
   ∃ row, cached_voice voice_name d = None ∧
          voices (store d) !! voice_name = Some row ∧
          _row_to_voice voice_name row = inr voice ∧
          _voice_cache d1 = <[voice_name := voice_entry voice]> (_voice_cache d)).
Proof.
  destruct (cached_voice voice_name d) as [entry|] eqn:Hhit.
  { rewrite (get_voice_hit _ entry) by done. intros [= <- <-]. eauto 10. }
  destruct (online (store d)) eqn:Hon.
  2:{ by rewrite get_voice_offline. }
  destruct (voices (store d) !! voice_name) as [row|] eqn:Hrow.
  2:{ by rewrite get_voice_missing. }
  rewrite (get_voice_found _ row) by done.
  destruct (_row_to_voice voice_name row) as [e|v] eqn:Hdec; [done|].
  intros [= <- <-]. repeat split; try done. right. by exists row.
Qed.

Lemma get_character_inr (character_id : string) (d d1 : Director)
    (character : Character.t) :
  get_character character_id d = (inr character, d1) → d1 = d.
Proof.
  destruct (cached_character character_id d) as [c|] eqn:Hhit.
  { rewrite (get_character_hit _ c) by done. by intros [= _ <-]. }
  rewrite get_character_miss by done.
  destruct (online (store d)) eqn:Hon.
  2:{ by rewrite get_character_from_db_offline. }
  destruct (characters (store d) !! character_id) as [row|] eqn:Hrow.
  2:{ by rewrite get_character_from_db_missing. }
  rewrite (get_character_from_db_found _ row) by done.
  destruct (_row_to_character character_id row); [done|]. by intros [= _ <-].
Qed.

Lemma get_character_from_db_inr (character_id : string) (d d1 : Director)
    (character : Character.t) :
  _get_character_from_db character_id d = (inr character, d1) →
  d1 = d ∧
  ∃ row, characters (store d) !! character_id = Some row ∧
         _row_to_character character_id row = inr character.
Proof.
  destruct (online (store d)) eqn:Hon.
  2:{ by rewrite get_character_from_db_offline. }
  destruct (characters (store d) !! character_id) as [row|] eqn:Hrow.
  2:{ by rewrite get_character_from_db_missing. }
  rewrite (get_character_from_db_found _ row) by done.
  destruct (_row_to_character character_id row) eqn:Hdec; [done|].
  intros [= <- <-]. eauto.
Qed.

End Steps.

(** ** Updating and renaming a voice *)

Lemma sql_update_voice_inr (sets : list voice_set) (name : string) (s s1 : Store) :
  Sql_stmt.update_voice sets name s = inr s1 →
  characters s1 = characters s ∧
  conversations s1 = conversations s ∧
  messages s1 = messages s ∧
  online s1 = online s ∧
  ((voices s !! name = None ∧ s1 = s) ∨
   ∃ r name' r',
     voices s !! name = Some r ∧
     foldl voice_assign (name, r) sets = (name', r') ∧
     ¬ (name' ≠ name ∧ is_Some (voices s !! name')) ∧
     voices s1 = <[name' := r']> (delete name (voices s))).
Proof.
  unfold Sql_stmt.update_voice.
  destruct (voices s !! name) as [r|] eqn:Hrow.
  2:{ intros [= <-]. eauto 10. }
  destruct (foldl voice_assign (name, r) sets) as [name' r'] eqn:Hfold.
  destruct (bool_decide (name' ≠ name) && bool_decide (is_Some (voices s !! name')))
    eqn:Hclash; [done|].
  intros [= <-]. repeat split; try done. right. exists r, name', r'.
  repeat split; try done. intros [Hne Hsome].
  apply andb_false_iff in Hclash as [Hc|Hc]; apply bool_decide_eq_false in Hc; tauto.
Qed.

Lemma retarget_characters_voices (new_voice now old_voice : string) (s : Store) :
  voices (Sql_stmt.retarget_characters new_voice now old_voice s) = voices s ∧
  online (Sql_stmt.retarget_characters new_voice now old_voice s) = online s ∧
  conversations (Sql_stmt.retarget_characters new_voice now old_voice s)
  = conversations s ∧
  messages (Sql_stmt.retarget_characters new_voice now old_voice s) = messages s.
Proof. done. Qed.

(** UPDATE ... WHERE voice = old: the rows that named the old voice name the
    new one, the others are untouched. *)
Lemma retarget_characters_lookup (new_voice now old_voice id : string) (s : Store) :
  characters (Sql_stmt.retarget_characters new_voice now old_voice s) !! id
  = (λ r, if bool_decide (CharacterRow.voice r = Some old_voice)
          then foldl character_assign r [CSetVoice new_voice; CSetUpdatedAt now]
          else r) <$> characters s !! id.
Proof. unfold Sql_stmt.retarget_characters. simpl. by rewrite lookup_fmap. Qed.

Lemma character_assign_voice (r : CharacterRow.t) (new_voice now : string) :
  CharacterRow.voice (foldl character_assign r [CSetVoice new_voice; CSetUpdatedAt now])
  = Some new_voice.
Proof. by destruct r. Qed.

Section VoiceUpdate.
Context `{JsonCodec}.

(** What the block of [update_voice] did when it ended without an error. *)
Lemma update_voice_block_inr (now voice_name : string) (new_voice : option string)
    (updates : list voice_set) (s s2 : Store) (key : string)
    (row : option VoiceRow.t) :
  update_voice_block now voice_name new_voice updates s = inr ((key, row), s2) →
  key = (if is_rename voice_name new_voice then default voice_name new_voice
         else voice_name) ∧
  row = voices s2 !! key ∧
  (is_rename voice_name new_voice = true → voices s !! key = None) ∧
  ∃ s1, Sql_stmt.update_voice updates voice_name s = inr s1 ∧
        s2 = if is_rename voice_name new_voice
             then Sql_stmt.retarget_characters key now voice_name s1
             else s1.
Proof.
  unfold update_voice_block.
  destruct (is_rename voice_name new_voice) eqn:Hrename; cbn [andb].
  - case_bool_decide as Htaken; [done|].
    destruct (Sql_stmt.update_voice updates voice_name s) as [e|s1] eqn:Hsql; [done|].
    intros [= <- <- <-]. repeat split; try done.
    + intros _. by apply eq_None_not_Some.
    + eauto.
  - destruct (Sql_stmt.update_voice updates voice_name s) as [e|s1] eqn:Hsql; [done|].
    intros [= <- <- <-]. repeat split; try done. eauto.
Qed.

(** A rename that the block carried out moved the row to the new name. *)
Lemma update_voice_block_rename (now voice_name new_name : string)
    (updates : list voice_set) (s s2 : Store) (key : string) (row : VoiceRow.t) :
  is_rename voice_name (Some new_name) = true →
  update_voice_block now voice_name (Some new_name) updates s
  = inr ((key, Some row), s2) →
  key = new_name ∧
  voices s2 = <[new_name := row]> (delete voice_name (voices s)) ∧
  characters s2
  = characters (Sql_stmt.retarget_characters new_name now voice_name s).
Proof.
  intros Hrename Hblock.
  apply update_voice_block_inr in Hblock as (-> & Hrow & Hfree & s1 & Hsql & ->).
  rewrite Hrename in *. simpl in *. specialize (Hfree eq_refl).
  apply sql_update_voice_inr in Hsql as (Hchars & _ & _ & _ & Hvoices).
  unfold is_rename in Hrename. apply andb_true_iff in Hrename as [_ Hne].
  apply bool_decide_eq_true in Hne.
  destruct Hvoices as [[Hnone ->]|(r & name' & r' & Hold & Hfold & Hclash & Hvoices)].
  { rewrite Hfree in Hrow. discriminate Hrow. }
  rewrite Hvoices in Hrow.
  destruct (decide (name' = new_name)) as [->|Hother].
  - rewrite lookup_insert_eq in Hrow. injection Hrow as ->.
    split; [done|]. split; [done|].
    unfold Sql_stmt.retarget_characters. simpl. by rewrite Hchars.
  - rewrite lookup_insert_ne, lookup_delete_ne, Hfree in Hrow by done.
    discriminate Hrow.
Qed.

(** What a call of [update_voice] that returned has done. *)
Lemma update_voice_inr (now voice_name : string) (voice_data : VoiceUpdate.t)
    (d d' : Director) (voice : Voice.t) :
  update_voice now voice_name voice_data d = (inr voice, d') →
  let new_voice := stripped_new_voice voice_data in
  let rename := is_rename voice_name new_voice in
  ∃ d1 v0 key row updates,
    new_voice ≠ Some "" ∧
    get_voice voice_name d = (inr v0, d1) ∧
    update_voice_block now voice_name new_voice updates (store d1)
    = inr ((key, Some row), store d') ∧
    _row_to_voice key row = inr voice ∧
    _voice_cache d'
    = <[key := voice_entry voice]>
        (if rename then delete voice_name (_voice_cache d1) else _voice_cache d1) ∧
    _character_cache d'
    = (if rename && _cache_loaded d1
       then retarget_cached (default voice_name new_voice) now voice_name
              (_character_cache d1)
       else _character_cache d1) ∧
    _cache_loaded d' = _cache_loaded d1 ∧
    tasks d' = tasks d1.
Proof.
  intros Hrun new_voice rename. unfold update_voice in Hrun.
  apply except_http_reraise_inr, bind_inr in Hrun as (v0 & d1 & Hget & Hrun).
  exists d1, v0. fold new_voice in Hrun.
  assert (new_voice ≠ Some "" ∧ ∃ updates,
            (connect (update_voice_block now voice_name new_voice updates) ≫=
               (λ '(updated_voice_name, row),
                  match row with
                  | None => raise (not_found "Voice")
                  | Some row =>
                      voice ← lift (_row_to_voice updated_voice_name row);
                      let rename := is_rename voice_name new_voice in
                      modify (λ d,
                        if rename
                        then with_voice_cache (delete voice_name (_voice_cache d)) d
                        else d);;
                      modify (λ d, with_voice_cache
                                     (<[Voice.voice voice := voice_entry voice]>
                                        (_voice_cache d)) d);;
                      modify (λ d,
                        if rename && _cache_loaded d
                        then with_character_cache
                               (retarget_cached (default voice_name new_voice) now
                                  voice_name (_character_cache d)) d
                        else d);;
                      mret voice
                  end)) d1 = (inr voice, d')) as [Hnonempty [updates Hrest]].
  { destruct new_voice as [[|c n]|]; [done|..];
      (destruct (voice_updates voice_name voice_data) as [|u us]; [done|]);
      (split; [done|eauto]). }
  clear Hrun.
  apply bind_inr in Hrest as ([key row] & d2 & Hconn & Hrest).
  apply connect_inr in Hconn as (Hon & s2 & Hblock & ->).
  destruct row as [row|]; [|done].
  apply bind_inr in Hrest as (v & d2 & Hdec & Hrest). unfold lift in Hdec.
  destruct (_row_to_voice key row) as [e|v'] eqn:Hrow; [done|].
  injection Hdec as -> <-. cbv zeta in Hrest.
  apply bind_inr in Hrest as (u1 & d3 & Hm1 & Hrest). apply modify_inr in Hm1 as ->.
  apply bind_inr in Hrest as (u2 & d4 & Hm2 & Hrest). apply modify_inr in Hm2 as ->.
  apply bind_inr in Hrest as (u3 & d5 & Hm3 & Hrest). apply modify_inr in Hm3 as ->.
  apply mret_inr in Hrest as [-> ->].
  exists key, row, updates. fold rename.
  rewrite (row_to_voice_name _ _ _ Hrow).
  destruct rename, (_cache_loaded d1) eqn:Hloaded; simpl; rewrite ?Hloaded; simpl;
    by rewrite ?Hloaded.
Qed.

End VoiceUpdate.

(** ** The cascade of a rename *)

Lemma retarget_cached_lookup (new_voice now voice_name id : string)
    (cache : gmap string Character.t) (c : Character.t) :
  cache !! id = Some c →
  Character.voice c = voice_name →
  ∃ c', retarget_cached new_voice now voice_name cache !! id = Some c' ∧
        Character.voice c' = new_voice.
Proof.
  intros Hc Hvoice. unfold retarget_cached. rewrite lookup_fmap, Hc. simpl.
  rewrite bool_decide_eq_true_2 by done. eauto.
Qed.

Section Rename.
Context `{JsonCodec}.

(** C4, amended.  After a successful rename of a voice, the voice cache has
    no entry under the old name and holds the renamed voice under the new
    name, every stored character row whose voice was the old name has the new
    name as its voice, and, when the caches had been warmed, so has every
    cached character whose voice was the old name.  On a director that was
    never warmed the character cache is left as it was. *)
Theorem rename_voice_cascade (now voice_name new_name : string)
    (voice_data : VoiceUpdate.t) (d d' : Director) (voice : Voice.t) :
  update_voice now voice_name voice_data d = (inr voice, d') →
  stripped_new_voice voice_data = Some new_name →
  new_name ≠ voice_name →
  Voice.voice voice = new_name ∧
  _voice_cache d' !! voice_name = None ∧
  _voice_cache d' !! new_name = Some (voice_entry voice) ∧
  voices (store d') !! voice_name = None ∧
  is_Some (voices (store d') !! new_name) ∧
  (∀ id row,
     characters (store d) !! id = Some row →
     CharacterRow.voice row = Some voice_name →
     ∃ row', characters (store d') !! id = Some row' ∧
             CharacterRow.voice row' = Some new_name) ∧
  (_cache_loaded d = true →
   ∀ id c,
     _character_cache d !! id = Some c →
     Character.voice c = voice_name →
     ∃ c', _character_cache d' !! id = Some c' ∧ Character.voice c' = new_name) ∧
  (_cache_loaded d = false → _character_cache d' = _character_cache d).
Proof.
  intros Hrun Hnew Hne.
  apply update_voice_inr in Hrun
    as (d1 & v0 & key & row & updates & Hnonempty & Hget & Hblock & Hdec & Hvc & Hcc & _).
  rewrite Hnew in *. 
  assert (is_rename voice_name (Some new_name) = true) as Hrename.
  { unfold is_rename. apply andb_true_iff. split; [|by apply bool_decide_eq_true].
    destruct new_name; [done|done]. }
  rewrite Hrename in *.
  apply get_voice_inr in Hget as (Hstore & Hchars & Hloaded & _ & _).
  apply update_voice_block_rename in Hblock as (-> & Hvoices & Hrows); [|done].
  rewrite Hstore in *. split; [by eapply row_to_voice_name|]. split.
  { rewrite Hvc. by rewrite lookup_insert_ne, lookup_delete_eq. }
  split. { by rewrite Hvc, lookup_insert_eq. }
  split. { by rewrite Hvoices, lookup_insert_ne, lookup_delete_eq. }
  split. { rewrite Hvoices, lookup_insert_eq. eauto. }
  split; [|split].
  - intros id r Hr Hvoice. rewrite Hrows, retarget_characters_lookup, Hr. simpl.
    rewrite bool_decide_eq_true_2 by done. eexists. split; [done|].
    apply character_assign_voice.
  - intros Hwarm id c Hc Hvoice. rewrite Hcc, Hloaded, Hwarm, Hchars. simpl.
    by eapply retarget_cached_lookup.
  - intros Hcold. by rewrite Hcc, Hloaded, Hcold, Hchars.
Qed.

End Rename.

(** In the studio [aria] becomes [luna]: the stored robot then speaks with
    [luna]. *)
Lemma rename_voice_cascade_witness :
  stripped_new_voice Scenario.to_luna = Some "luna" ∧
  "luna" ≠ "aria" ∧
  ∃ row',
    characters
      (store (snd (@update_voice RefJson.codec Scenario.now "aria" Scenario.to_luna
                     Scenario.studio))) !! "robot-001" = Some row' ∧
    CharacterRow.voice row' = Some "luna".
Proof.
  split; [vm_compute; reflexivity|]. split; [done|].
  assert (∃ voice,
            @update_voice RefJson.codec Scenario.now "aria" Scenario.to_luna
              Scenario.studio
            = (inr voice,
               snd (@update_voice RefJson.codec Scenario.now "aria" Scenario.to_luna
                      Scenario.studio))) as [voice Hrun].
  { eexists. vm_compute. reflexivity. }
  destruct (@rename_voice_cascade RefJson.codec Scenario.now "aria" "luna"
              Scenario.to_luna Scenario.studio _ voice Hrun)
    as (_ & _ & _ & _ & _ & Hstored & _ & _).
  - vm_compute. reflexivity.
  - done.
  - apply (Hstored "robot-001" Scenario.aria_robot_row); vm_compute; reflexivity.
Defined.

(** C4 as stated fails on a director that was never warmed: the rename of
    [aria] to [nova] succeeds and the stored robot speaks with [nova], while
    the cached robot, which spoke with [aria], still does. *)
Lemma rename_skips_unwarmed_cache :
  (∃ voice,
     fst (@update_voice RefJson.codec Scenario.now "aria" Scenario.to_nova
            Scenario.unwarmed_cast) = inr voice ∧
     Voice.voice voice = "nova") ∧
  (∃ c, _character_cache Scenario.unwarmed_cast !! "robot-001" = Some c ∧
        Character.voice c = "aria") ∧
  (∃ row,
     characters
       (store (snd (@update_voice RefJson.codec Scenario.now "aria" Scenario.to_nova
                      Scenario.unwarmed_cast))) !! "robot-001" = Some row ∧
     CharacterRow.voice row = Some "nova") ∧
  ¬ ∃ c,
      _character_cache
        (snd (@update_voice RefJson.codec Scenario.now "aria" Scenario.to_nova
                Scenario.unwarmed_cast)) !! "robot-001" = Some c ∧
      Character.voice c = "nova".
Proof.
  split; [eexists; split; vm_compute; reflexivity|].
  split; [eexists; split; vm_compute; reflexivity|].
  split; [eexists; split; vm_compute; reflexivity|].
  intros (c & Hc & Hvoice). vm_compute in Hc. injection Hc as <-.
  vm_compute in Hvoice. discriminate Hvoice.
Qed.

(** ** A rename onto a taken name *)

Section Collision.
Context `{JsonCodec}.

Lemma voice_updates_rename (voice_name new_name : string) (voice_data : VoiceUpdate.t) :
  stripped_new_voice voice_data = Some new_name →
  is_rename voice_name (Some new_name) = true →
  ∃ rest, voice_updates voice_name voice_data = VSetVoice new_name :: rest.
Proof.
  intros Hnew Hrename. unfold voice_updates. rewrite Hnew, Hrename. simpl. eauto.
Qed.

(** Once the lookup at its start has returned, [update_voice] with a new
    name that is stored answers 400 and touches nothing more. *)
Lemma update_voice_taken_after_lookup (now voice_name new_name : string)
    (voice_data : VoiceUpdate.t) (d d1 : Director) (v0 : Voice.t) :
  get_voice voice_name d = (inr v0, d1) →
  stripped_new_voice voice_data = Some new_name →
  is_rename voice_name (Some new_name) = true →
  online (store d1) = true →
  is_Some (voices (store d1) !! new_name) →
  update_voice now voice_name voice_data d
  = (inl (HTTPException 400 "Voice name already exists"), d1).
Proof.
  intros Hget Hnew Hrename Hon Htaken.
  destruct (voice_updates_rename voice_name new_name voice_data Hnew Hrename)
    as [rest Hupdates].
  unfold update_voice, except_http_reraise, try_except, mbind, M_bind, bind.
  rewrite Hget, Hnew, Hupdates.
  destruct new_name as [|c n]; [done|].
  rewrite connect_online by done. unfold update_voice_block.
  rewrite Hrename. simpl. by rewrite bool_decide_eq_true_2.
Qed.

(** C5, amended.  A rename of a known voice to a different name that is
    already stored fails with the Validation error, leaves the store as it
    was, and leaves the character cache and every voice-cache entry under
    another name as they were.  The voice is known when the warmed cache
    holds it, or when the store holds it in a row that decodes.  The entry of
    the voice itself is untouched when the lookup at the start of
    [update_voice] is served by the warmed cache; otherwise that lookup has
    loaded it from its stored row. *)
Theorem rename_to_taken_name (now voice_name new_name : string)
    (voice_data : VoiceUpdate.t) (d : Director) :
  stripped_new_voice voice_data = Some new_name →
  Py.truthy new_name = true →
  new_name ≠ voice_name →
  online (store d) = true →
  is_Some (voices (store d) !! new_name) →
  is_Some (cached_voice voice_name d) ∨
  (∃ row voice, voices (store d) !! voice_name = Some row ∧
                _row_to_voice voice_name row = inr voice) →
  ∃ d',
    update_voice now voice_name voice_data d
    = (inl (HTTPException 400 "Voice name already exists"), d') ∧
    store d' = store d ∧
    _character_cache d' = _character_cache d ∧
    _cache_loaded d' = _cache_loaded d ∧
    tasks d' = tasks d ∧
    (∀ name, name ≠ voice_name → _voice_cache d' !! name = _voice_cache d !! name) ∧
    match cached_voice voice_name d with
    | Some _ => d' = d
    | None =>
        ∃ row voice, voices (store d) !! voice_name = Some row ∧
                     _row_to_voice voice_name row = inr voice ∧
                     _voice_cache d' !! voice_name = Some (voice_entry voice)
    end.
Proof.
  intros Hnew Htruthy Hne Hon Htaken Hknown.
  assert (is_rename voice_name (Some new_name) = true) as Hrename.
  { unfold is_rename. rewrite Htruthy. by apply bool_decide_eq_true. }
  destruct (cached_voice voice_name d) as [entry|] eqn:Hhit.
  - exists d. split; [|by repeat split].
    eapply update_voice_taken_after_lookup; eauto using get_voice_hit.
  - destruct Hknown as [[? [=]]|(row & voice & Hrow & Hdec)].
    pose proof (get_voice_found voice_name row d Hhit Hon Hrow) as Hget.
    rewrite Hdec in Hget.
    eexists. split.
    { eapply update_voice_taken_after_lookup; eauto. }
    simpl. repeat split; try done.
    + intros name Hname. by rewrite lookup_insert_ne.
    + exists row, voice. split; [done|]. split; [done|]. by rewrite lookup_insert_eq.
Qed.

(** Where the stored row of the voice does not decode and the warmed cache
    does not hold it, the lookup at the start of [update_voice] raises the
    storage failure with the error of the decoding, and nothing is
    touched. *)
Lemma update_voice_undecodable (now voice_name : string)
    (voice_data : VoiceUpdate.t) (d : Director) (row : VoiceRow.t) (e : exn) :
  cached_voice voice_name d = None →
  online (store d) = true →
  voices (store d) !! voice_name = Some row →
  _row_to_voice voice_name row = inl e →
  update_voice now voice_name voice_data d = (inl (database_error e), d).
Proof.
  intros Hmiss Hon Hrow Hdec.
  pose proof (get_voice_found voice_name row d Hmiss Hon Hrow) as Hget.
  rewrite Hdec in Hget.
  unfold update_voice, except_http_reraise, try_except, mbind, M_bind, bind.
  by rewrite Hget.
Qed.

End Collision.

(** In the studio both voices are cached: renaming [aria] to [nova] fails
    with 400 and the director is as before. *)
Lemma rename_to_taken_name_witness :
  stripped_new_voice Scenario.to_nova = Some "nova" ∧
  Py.truthy "nova" = true ∧
  "nova" ≠ "aria" ∧
  online (store Scenario.studio) = true ∧
  is_Some (voices (store Scenario.studio) !! "nova") ∧
  @update_voice RefJson.codec Scenario.now "aria" Scenario.to_nova Scenario.studio
  = (inl (HTTPException 400 "Voice name already exists"), Scenario.studio).
Proof.
  split; [vm_compute; reflexivity|]. split; [reflexivity|]. split; [done|].
  split; [vm_compute; reflexivity|]. split; [vm_compute; eauto|].
  destruct (@rename_to_taken_name RefJson.codec Scenario.now "aria" "nova"
              Scenario.to_nova Scenario.studio)
    as (d' & Hrun & _ & _ & _ & _ & _ & Hentry).
  - vm_compute. reflexivity.
  - reflexivity.
  - done.
  - vm_compute. reflexivity.
  - vm_compute. eauto.
  - left. vm_compute. eauto.
  - assert (is_Some (cached_voice "aria" Scenario.studio)) as [entry Hhit]
      by (vm_compute; eauto).
    rewrite Hhit in Hentry. by rewrite Hrun, Hentry.
Defined.

(** C5 as stated fails on the cache.  After [clear_voice_cache] the rename
    of [aria] to the stored name [nova] fails with 400 and has put [aria]
    into the voice cache, which was empty.  On the director that was never
    warmed, the same failed rename has replaced the cached entry of [aria],
    which carried new audio tokens, by the stored row, which carries none.
    The store is unchanged in both runs. *)
Lemma failed_rename_touches_cache :
  (raised (@update_voice RefJson.codec Scenario.now "aria" Scenario.to_nova
             Scenario.studio_cleared)
   = Some (HTTPException 400 "Voice name already exists") ∧
   store (snd (@update_voice RefJson.codec Scenario.now "aria" Scenario.to_nova
                 Scenario.studio_cleared))
   = store Scenario.studio_cleared ∧
   _voice_cache Scenario.studio_cleared !! "aria" = None ∧
   _voice_cache
     (snd (@update_voice RefJson.codec Scenario.now "aria" Scenario.to_nova
             Scenario.studio_cleared)) !! "aria" ≠ None) ∧
  (raised (@update_voice RefJson.codec Scenario.now "aria" Scenario.to_nova
             Scenario.unwarmed_tokens)
   = Some (HTTPException 400 "Voice name already exists") ∧
   get_cached_audio_tokens "aria" Scenario.unwarmed_tokens = Scenario.tokens ∧
   get_cached_audio_tokens "aria"
     (snd (@update_voice RefJson.codec Scenario.now "aria" Scenario.to_nova
             Scenario.unwarmed_tokens))
   = JNull).
Proof.
  split.
  - split; [vm_compute; reflexivity|]. split; [vm_compute; reflexivity|].
    split; [vm_compute; reflexivity|]. vm_compute. discriminate.
  - split; [vm_compute; reflexivity|]. split; vm_compute; reflexivity.
Qed.

(** ** The reference codec round-trips lists of texts *)







(** ** Cache and store after a synchronous mutation *)


Lemma insert_voice_inr (name : string) (row : VoiceRow.t) (s s' : Store) :
  Sql_stmt.insert_voice name row s = inr s' →
  s' = with_voices (<[name := row]> (voices s)) s.
Proof.
  unfold Sql_stmt.insert_voice. destruct (voices s !! name); [done|].
  by intros [= <-].
Qed.

Lemma execute_checked_inr (f : Store → exn + Store) (s s' : Store) (u : unit) :
  execute_checked f s = inr (u, s') → f s = inr s'.
Proof. unfold execute_checked. destruct (f s); [done|]. intros ?. by simplify_eq. Qed.

Lemma execute_inr (f : Store → Store) (s s' : Store) (u : unit) :
  execute f s = inr (u, s') → s' = f s.
Proof. unfold execute. intros ?. by simplify_eq. Qed.


Section Convergence.
Context `{JsonCodec}.















End Convergence.



(** A second robot is created in the studio: the images of the new row are
    the JSON text of the list, and decode to the list. *)
Example second_robot_row :
  CharacterRow.images <$>
    characters
      (store (snd (@create_character RefJson.codec Scenario.now
                     Scenario.second_robot Scenario.studio))) !! "robot-002"
  = Some (Some (String "[" (String RefJson.quote
       ("a.png" +:+ String RefJson.quote (", " +:+ String RefJson.quote
          ("dir\\b.png" +:+ String RefJson.quote "]")))))).
Proof. vm_compute. reflexivity. Qed.

Example second_robot_coherent :
  @character_coherent RefJson.codec "robot-002"
    (snd (@create_character RefJson.codec Scenario.now Scenario.second_robot
            Scenario.studio)).
Proof. unfold character_coherent. vm_compute. reflexivity. Qed.

(** * Further properties of the director *)

(** ** Conversation titles *)

Lemma substring_whole (n : nat) (s : string) :
  (String.length s ≤ n)%nat → String.substring 0 n s = s.
Proof.
  revert s. induction n as [|n IH]; intros [|c s] Hlen; simpl in *; try done; [lia|].
  f_equal. apply IH. lia.
Qed.

Lemma substring_length (n : nat) (s : string) :
  (n ≤ String.length s)%nat → String.length (String.substring 0 n s) = n.
Proof.
  revert s. induction n as [|n IH]; intros [|c s] Hlen; simpl in *; try done; [lia|].
  f_equal. apply IH. lia.
Qed.

Lemma length_app_s (s t : string) :
  String.length (s +:+ t) = (String.length s + String.length t)%nat.
Proof. induction s as [|c s IH]; [done|]. rewrite app_cons. simpl. by rewrite IH. Qed.

Lemma truthy_length (s : string) : Py.truthy s = true ↔ (0 < String.length s)%nat.
Proof. destruct s; simpl; split; (done || lia). Qed.

(** X1.  The title generated for a conversation is never empty.  When the
    first message is missing or blank it is [Conversation] and the time
    stamp; otherwise it is the message without the blanks around it when that
    has at most 50 characters, and its first 50 characters followed by three
    dots, 53 characters in all, when it has more. *)
Theorem generated_title_shape (stamp : string) (first_message : option string) :
  let stripped := Py.strip Py.isspace (Py.or_empty first_message) in
  let title := _generate_conversation_title stamp first_message in
  Py.truthy title = true ∧
  (first_message = None → title = "Conversation " +:+ stamp) ∧
  (stripped = "" → title = "Conversation " +:+ stamp) ∧
  (stripped ≠ "" ∧ (String.length stripped ≤ 50)%nat → title = stripped) ∧
  ((50 < String.length stripped)%nat →
   title = String.substring 0 50 stripped +:+ "..." ∧
   String.length title = 53%nat).
Proof.
  intros stripped title. unfold title, _generate_conversation_title.
  fold stripped. split; [|split; [|split; [|split]]].
  - destruct (Py.truthy stripped) eqn:Htruthy; [|done].
    apply truthy_length in Htruthy.
    destruct (50 <? String.length stripped)%nat eqn:Hlong.
    + apply Nat.ltb_lt in Hlong. apply truthy_length.
      rewrite length_app_s, substring_length by lia. simpl. lia.
    + apply Nat.ltb_ge in Hlong. rewrite substring_whole by done.
      by apply truthy_length.
  - intros ->. done.
  - intros ->. done.
  - intros [Hne Hlen]. destruct stripped as [|c s] eqn:Hs; [done|].
    cbn [Py.truthy]. rewrite (proj2 (Nat.ltb_ge _ _)) by done.
    by apply substring_whole.
  - intros Hlong. destruct stripped as [|c s] eqn:Hs; [simpl in Hlong; lia|].
    cbn [Py.truthy]. rewrite (proj2 (Nat.ltb_lt _ _)) by done.
    split; [done|]. rewrite length_app_s, substring_length by lia. done.
Qed.

(** ** Searching characters *)

Lemma like_percent_unfold (p s : string) :
  Sql.pattern_compare (String "%" p) s
  = Sql.pattern_compare p s ||
    match s with
    | EmptyString => false
    | String _ s' => Sql.pattern_compare (String "%" p) s'
    end.
Proof. by destruct s. Qed.

Lemma like_literal_empty (c : ascii) (p : string) :
  is_wildcard c = false → Sql.pattern_compare (String c p) "" = false.
Proof. by destruct c as [[] [] [] [] [] [] [] []]. Qed.

Lemma eq_nocase_lower (c d : ascii) :
  is_ascii c = true → is_ascii d = true →
  Sql.eq_nocase c d = bool_decide (Py.lower_char c = Py.lower_char d).
Proof.
  intros Hc Hd.
  assert (∀ a, is_ascii a = true → Py.lower_char a = Sql.fold_case a) as Hfold.
  { intros a Ha. by destruct a as [[] [] [] [] [] [] [] []]. }
  unfold Sql.eq_nocase. by rewrite !Hfold.
Qed.

Lemma is_wildcard_false (c : ascii) :
  is_wildcard c = false → c ≠ "%"%char ∧ c ≠ "_"%char.
Proof.
  unfold is_wildcard. intros Hw. apply orb_false_elim in Hw as [H1 H2].
  split; by eapply bool_decide_eq_false_1.
Qed.

(** With no wildcard in it, a pattern followed by [%] matches the texts that
    start with the pattern, up to case. *)
Lemma like_has_prefix (q s : string) :
  all_chars is_ascii q = true →
  all_chars (λ c, negb (is_wildcard c)) q = true →
  all_chars is_ascii s = true →
  Sql.pattern_compare (q +:+ "%") s = has_prefix (Py.lower q) (Py.lower s).
Proof.
  revert s. induction q as [|c q IH]; intros s Hq Hw Hs.
  { rewrite app_nil_l. apply like_percent_any. }
  simpl in Hq, Hw. apply andb_true_iff in Hq as [Hc Hq].
  apply andb_true_iff in Hw as [Hwc Hw]. apply negb_true_iff in Hwc.
  rewrite app_cons. destruct s as [|d s].
  { by rewrite like_literal_empty. }
  simpl in Hs. apply andb_true_iff in Hs as [Hd Hs].
  destruct (is_wildcard_false c Hwc) as [H1 H2].
  rewrite like_literal by done. cbn [Py.lower has_prefix].
  by rewrite eq_nocase_lower, IH.
Qed.

(** On ASCII texts and for a query without [%] and [_], the LIKE of the
    fallback and the [in] of the cached search select the same names. *)
Lemma like_str_in (q s : string) :
  all_chars is_ascii q = true →
  all_chars (λ c, negb (is_wildcard c)) q = true →
  all_chars is_ascii s = true →
  Sql.pattern_compare ("%" +:+ q +:+ "%") s = str_in (Py.lower q) (Py.lower s).
Proof.
  intros Hq Hw. induction s as [|d s IH]; intros Hs.
  - rewrite app_cons, app_nil_l, like_percent_unfold, like_has_prefix by done.
    by cbn [Py.lower str_in].
  - pose proof Hs as Hs'. simpl in Hs'. apply andb_true_iff in Hs' as [_ Hs'].
    rewrite app_cons, app_nil_l, like_percent_unfold, like_has_prefix by done.
    rewrite app_cons, app_nil_l in IH. rewrite IH by done.
    by cbn [Py.lower str_in].
Qed.

Lemma filter_same {A} (P Q : A → Prop) `{∀ x, Decision (P x)} `{∀ x, Decision (Q x)}
    (l : list A) :
  (∀ x, x ∈ l → P x ↔ Q x) → filter P l = filter Q l.
Proof.
  induction l as [|x l IH]; intros Hall; [done|].
  rewrite !filter_cons. rewrite IH by (intros y Hy; apply Hall; by right).
  destruct (decide (P x)) as [HP|HP], (decide (Q x)) as [HQ|HQ]; try done;
    exfalso; apply (Hall x) in HP || apply (Hall x) in HQ; (done || by left).
Qed.

(** The pattern of the search takes the query and two more bytes. *)
Lemma search_pattern_length (q : string) :
  all_chars is_ascii q = true →
  Sql.utf8_length ("%" +:+ q +:+ "%") = Z.of_nat (String.length q) + 2.
Proof.
  intros Hq.
  change (Sql.utf8_length ("%" +:+ q +:+ "%"))
    with (1 + Sql.utf8_length (q +:+ "%")).
  rewrite utf8_length_app, utf8_length_ascii by done.
  change (Sql.utf8_length "%") with 1. lia.
Qed.

Section Search.
Context `{JsonCodec}.

(** X2.  On a director whose caches were never loaded, the search goes to
    the store with LIKE.  For an ASCII query without NUL and without the
    wildcards [%] and [_], short enough for its pattern to be one SQLite
    accepts (the query and two more bytes, 50000 at most), over stored names
    that are ASCII without NUL, it selects the rows by the test of the cached
    search: the lowercased query occurs in the lowercased name. *)
Theorem search_paths_agree (query_text : string) (d : Director) :
  all_chars is_ascii query_text = true →
  all_chars not_nul query_text = true →
  all_chars (λ c, negb (is_wildcard c)) query_text = true →
  Z.of_nat (String.length query_text) + 2 ≤ Sql.max_like_pattern_length →
  (∀ id row, characters (store d) !! id = Some row →
             all_chars is_ascii (CharacterRow.name row) = true ∧
             all_chars not_nul (CharacterRow.name row) = true) →
  _cache_loaded d = false →
  online (store d) = true →
  search_characters query_text d
  = match rows_to_characters
            (filter (λ kr, str_in (Py.lower query_text)
                             (Py.lower (CharacterRow.name kr.2)) = true)
               (map_to_list (characters (store d)))) with
    | inl e => (inl (database_error e), d)
    | inr found => (inr found, d)
    end.
Proof.
  intros Hq Hnul Hw Hlen Hnames Hcold Hon. unfold search_characters. unfold_M.
  rewrite Hcold, connect_query_checked by done.
  assert (all_chars not_nul ("%" +:+ query_text +:+ "%") = true) as Hpattern.
  { rewrite app_cons, app_nil_l. cbn [all_chars]. rewrite all_chars_app.
    by rewrite Hnul. }
  rewrite (select_where_inr _
             (λ kr, str_in (Py.lower query_text) (Py.lower (CharacterRow.name kr.2)))).
  - by destruct (rows_to_characters _).
  - intros [id row] Hin. apply elem_of_map_to_list in Hin. cbn [snd].
    destruct (Hnames id row Hin) as [Hascii Hplain].
    rewrite like_accepted.
    + rewrite !c_str_whole by done. by rewrite like_str_in.
    + by rewrite search_pattern_length.
Qed.

End Search.

(** On the director that holds [Robot] and was never warmed, the search for
    [OB] finds it. *)
Lemma search_paths_agree_witness :
  all_chars is_ascii "OB" = true ∧
  all_chars not_nul "OB" = true ∧
  all_chars (λ c, negb (is_wildcard c)) "OB" = true ∧
  Z.of_nat (String.length "OB") + 2 ≤ Sql.max_like_pattern_length ∧
  _cache_loaded Scenario.one_robot = false ∧
  online (store Scenario.one_robot) = true ∧
  ∃ found,
    @search_characters RefJson.codec "OB" Scenario.one_robot
    = (inr found, Scenario.one_robot) ∧
    Character.name <$> found = ["Robot"].
Proof.
  split; [reflexivity|]. split; [reflexivity|]. split; [reflexivity|].
  split; [vm_compute; discriminate|]. split; [reflexivity|]. split; [reflexivity|].
  rewrite (@search_paths_agree RefJson.codec "OB" Scenario.one_robot);
    try reflexivity.
  - vm_compute. eexists. split; reflexivity.
  - vm_compute. discriminate.
  - intros id row Hrow.
    change (characters (store Scenario.one_robot))
      with ({["robot-001" := Scenario.robot_row]} : gmap string CharacterRow.t) in Hrow.
    apply lookup_singleton_Some in Hrow as [_ <-]. split; reflexivity.
Defined.

(** A wildcard in the query tells the two searches apart: [_] matches every
    name in the store, and no name in the loaded cache contains it. *)
Example search_wildcard_differs :
  Character.name <$>
    default [] (returned (@search_characters RefJson.codec "_" Scenario.one_robot))
  = ["Robot"] ∧
  returned (@search_characters RefJson.codec "_"
              (snd (@init_database RefJson.codec Scenario.one_robot)))
  = Some [].
Proof. split; vm_compute; reflexivity. Qed.

(** So does a NUL: LIKE reads the query up to it, and what is left here is
    the pattern that matches every name. *)
Example search_nul_differs :
  Character.name <$>
    default []
      (returned (@search_characters RefJson.codec (String Ascii.zero "zzz")
                   Scenario.one_robot))
  = ["Robot"] ∧
  returned (@search_characters RefJson.codec (String Ascii.zero "zzz")
              (snd (@init_database RefJson.codec Scenario.one_robot)))
  = Some [].
Proof. split; vm_compute; reflexivity. Qed.

(** A query of 49999 characters makes a pattern SQLite refuses: the search
    in the store raises the storage failure. *)
Example search_long_query :
  raised (@search_characters RefJson.codec Cases.long_name Scenario.one_robot)
  = Some (HTTPException 500 "Database error: LIKE or GLOB pattern too complex").
Proof. vm_compute. reflexivity. Qed.

(** ** Sorted reads *)

Section SortFacts.
Context {A : Type} (before : A → A → bool).

Lemma insert_perm (x : A) (l : list A) : Order.insert before x l ≡ₚ x :: l.
Proof.
  induction l as [|y l IH]; [done|]. simpl. destruct (before x y); [done|].
  rewrite IH. apply Permutation_swap.
Qed.

Lemma sort_perm (l : list A) : Order.sort before l ≡ₚ l.
Proof.
  induction l as [|x l IH]; [done|]. unfold Order.sort in *. simpl.
  by rewrite insert_perm, IH.
Qed.

Hypothesis total : ∀ x y, before x y = false → before y x = true.

Lemma insert_sorted (x : A) (l : list A) :
  Sorted (λ a b, before a b = true) l →
  Sorted (λ a b, before a b = true) (Order.insert before x l).
Proof.
  induction 1 as [|y l Hsorted IH Hhd]; simpl.
  { by repeat constructor. }
  destruct (before x y) eqn:Hxy.
  { constructor; [by constructor|by constructor]. }
  constructor; [exact IH|].
  destruct Hhd as [|z l' Hyz]; simpl.
  - constructor. by apply total.
  - destruct (before x z); constructor; [by apply total|done].
Qed.

Lemma sort_sorted (l : list A) :
  Sorted (λ a b, before a b = true) (Order.sort before l).
Proof.
  induction l as [|x l IH]; [constructor|].
  unfold Order.sort in *. simpl. by apply insert_sorted.
Qed.

Hypothesis trans :
  ∀ x y z, before x y = true → before y z = true → before x z = true.


End SortFacts.

Section StronglySortedFacts.
Context {A : Type} (R : A → A → Prop).




End StronglySortedFacts.


Lemma leb_total (a b : option string) :
  Order.leb a b = false → Order.leb b a = true.
Proof.
  unfold Order.leb. destruct a as [x|], b as [y|]; simpl; try done.
  rewrite (String.compare_antisym x y). by destruct (String.compare y x).
Qed.



Lemma fmap_sorted {A B} (f : A → B) (R : B → B → Prop) (l : list A) :
  Sorted (λ x y, R (f x) (f y)) l → Sorted R (f <$> l).
Proof.
  induction 1 as [|x l Hsorted IH Hhd]; [constructor|].
  rewrite fmap_cons. constructor; [done|]. destruct Hhd; by constructor.
Qed.

(** X3.  Without a limit, [get_messages] returns the messages of the
    conversation and only them, each once, sorted by [created_at] from the
    oldest on; the offset has no effect then.  [get_message_count] gives
    their number. *)
Theorem get_messages_sorted (conversation_id : string) (offset : Z) (d : Director) :
  online (store d) = true →
  ∃ msgs,
    get_messages conversation_id None offset d = (inr msgs, d) ∧
    msgs ≡ₚ _row_to_message <$> conversation_rows conversation_id (store d) ∧
    Sorted (λ a b, Order.leb (Message.created_at a) (Message.created_at b) = true)
      msgs ∧
    get_message_count conversation_id d = (inr (Z.of_nat (length msgs)), d).
Proof.
  intros Hon. eexists. split; [|split; [|split]].
  - unfold get_messages. unfold_M. by rewrite connect_query_checked by done.
  - unfold Order.asc. by rewrite sort_perm.
  - apply fmap_sorted. unfold Order.asc.
    apply (sort_sorted (λ x y, Order.leb (MessageRow.created_at x)
                                  (MessageRow.created_at y))).
    intros x y. apply leb_total.
  - unfold get_message_count. unfold_M. rewrite connect_query by done.
    unfold Order.asc. by rewrite length_fmap, sort_perm.
Qed.

(** X4.  With a limit [n] and an offset [k], neither negative and both
    integers SQLite binds (below [2^63], and so are the sums the pages use),
    [get_messages] returns the [n] messages that follow the first [k] of the
    whole listing, or as many as there are.  Two pages that follow one
    another make up the page of their joint size. *)
Theorem get_messages_pages (conversation_id : string) (n m k : Z) (d : Director) :
  online (store d) = true →
  0 ≤ n → 0 ≤ m → 0 ≤ k →
  n + m < 2 ^ 63 → k + n < 2 ^ 63 →
  ∃ all first second both,
    get_messages conversation_id None 0 d = (inr all, d) ∧
    get_messages conversation_id (Some n) k d = (inr first, d) ∧
    get_messages conversation_id (Some m) (k + n) d = (inr second, d) ∧
    get_messages conversation_id (Some (n + m)) k d = (inr both, d) ∧
    first = take (Z.to_nat n) (drop (Z.to_nat k) all) ∧
    first ++ second = both ∧
    ((Z.of_nat (length all) ≤ k + n + m) → both = drop (Z.to_nat k) all).
Proof.
  intros Hon Hn Hm Hk Hnm Hkn.
  set (rows := Order.asc MessageRow.created_at
                 (conversation_rows conversation_id (store d))).
  exists (_row_to_message <$> rows),
    (_row_to_message <$> take (Z.to_nat n) (drop (Z.to_nat k) rows)),
    (_row_to_message <$> take (Z.to_nat m) (drop (Z.to_nat (k + n)) rows)),
    (_row_to_message <$> take (Z.to_nat (n + m)) (drop (Z.to_nat k) rows)).
  assert (∀ limit offset, 0 ≤ limit < 2 ^ 63 → 0 ≤ offset < 2 ^ 63 →
            get_messages conversation_id (Some limit) offset d
            = (inr (_row_to_message <$>
                      take (Z.to_nat limit) (drop (Z.to_nat offset) rows)), d))
    as Hpage.
  { intros limit offset Hlimit Hoffset. unfold get_messages. unfold_M.
    rewrite connect_query_checked by done.
    rewrite bind_ints_bound by (repeat constructor; lia).
    unfold Order.limit, Order.offset.
    by rewrite (proj2 (Z.ltb_ge _ _)) by lia. }
  split; [|split; [|split; [|split; [|split; [|split]]]]].
  - unfold get_messages. unfold_M. by rewrite connect_query_checked by done.
  - apply Hpage; lia.
  - apply Hpage; lia.
  - apply Hpage; lia.
  - by rewrite fmap_take, fmap_drop.
  - rewrite <-fmap_app. f_equal.
    rewrite !Z2Nat.inj_add by done. rewrite <-drop_drop. apply take_take_drop.
  - intros Hlen. rewrite length_fmap in Hlen.
    rewrite take_ge by (rewrite length_drop; lia). by rewrite fmap_drop.
Qed.



Lemma get_messages_sorted_witness :
  online (store Cases.library) = true ∧
  ∃ msgs,
    get_messages "conv-1" None 7 Cases.library = (inr msgs, Cases.library) ∧
    Message.content <$> msgs = ["one"; "two"; "three"] ∧
    get_message_count "conv-1" Cases.library = (inr 3, Cases.library).
Proof.
  split; [reflexivity|].
  destruct (get_messages_sorted "conv-1" 7 Cases.library eq_refl)
    as (msgs & Hrun & _ & _ & Hcount).
  exists msgs. split; [exact Hrun|].
  assert (fst (get_messages "conv-1" None 7 Cases.library)
          = inr (_row_to_message <$>
                   [message_row "m-1" "2024-01-02T09:30:01" (Scenario.said "conv-1" "one");
                    message_row "m-3" "2024-01-02T09:30:03" (Scenario.said "conv-1" "two");
                    message_row "m-4" "2024-01-02T09:30:04.500000"
                      (Scenario.said "conv-1" "three")])) as Hval
    by (vm_compute; reflexivity).
  rewrite Hrun in Hval. simpl in Hval. injection Hval as ->.
  split; [reflexivity|exact Hcount].
Defined.

Lemma get_messages_pages_witness :
  online (store Cases.library) = true ∧
  ∃ first second both,
    get_messages "conv-1" (Some 1) 1 Cases.library = (inr first, Cases.library) ∧
    get_messages "conv-1" (Some 1) 2 Cases.library = (inr second, Cases.library) ∧
    get_messages "conv-1" (Some 2) 1 Cases.library = (inr both, Cases.library) ∧
    first ++ second = both.
Proof.
  split; [reflexivity|].
  destruct (get_messages_pages "conv-1" 1 1 1 Cases.library eq_refl)
    as (all & first & second & both & _ & H1 & H2 & H3 & _ & Hjoin & _);
    [lia..|].
  exists first, second, both. repeat split; assumption.
Defined.



(** ** Writing and deleting messages *)

Lemma insert_message_inr (r : MessageRow.t) (s s' : Store) :
  Sql_stmt.insert_message r s = inr s' →
  s' = with_messages (messages s ++ [r]) s.
Proof.
  unfold Sql_stmt.insert_message. case_bool_decide; [done|]. by intros [= <-].
Qed.

Lemma insert_batch_inr (now : string) (uuid4 : nat → string)
    (msgs : list MessageCreate.t) (i : nat) (s s' : Store) :
  insert_batch now uuid4 i msgs s = inr s' →
  s' = with_messages
         (messages s ++ imap (λ k m, message_row (uuid4 (i + k)%nat) now m) msgs) s.
Proof.
  revert i s. induction msgs as [|msg msgs IH]; intros i s Hrun.
  - simpl in Hrun. injection Hrun as <-. simpl. rewrite app_nil_r. by destruct s.
  - cbn [insert_batch] in Hrun.
    destruct (Sql_stmt.insert_message _ s) as [e|s1] eqn:Hfirst; [done|].
    apply insert_message_inr in Hfirst as ->. apply IH in Hrun as ->.
    cbn [messages with_messages]. rewrite <-app_assoc.
    unfold with_messages. cbn. f_equal. f_equal. rewrite Nat.add_0_r. f_equal.
    apply imap_ext. intros k m _. simpl. by rewrite Nat.add_succ_r.
Qed.

(** The rows of one conversation after the rows of a conversation were
    removed. *)
Lemma rows_after_delete (deleted kept : string) (rows : list MessageRow.t) :
  filter (λ m, MessageRow.conversation_id m = kept)
    (filter (λ m, MessageRow.conversation_id m ≠ deleted) rows)
  = if decide (kept = deleted) then []
    else filter (λ m, MessageRow.conversation_id m = kept) rows.
Proof.
  induction rows as [|m rows IH]; [by destruct (decide _)|].
  rewrite (filter_cons (λ m, MessageRow.conversation_id m ≠ deleted)).
  rewrite (filter_cons (λ m, MessageRow.conversation_id m = kept) m rows).
  destruct (decide (MessageRow.conversation_id m ≠ deleted)) as [Hne|Heq].
  - rewrite filter_cons, IH.
    destruct (decide (MessageRow.conversation_id m = kept)) as [Hk|Hk];
      destruct (decide (kept = deleted)) as [Hd|Hd]; try done.
    congruence.
  - rewrite IH. apply dec_stable in Heq.
    destruct (decide (MessageRow.conversation_id m = kept)) as [Hk|Hk];
      destruct (decide (kept = deleted)) as [Hd|Hd]; try done.
    congruence.
Qed.

Section Messages.
Context `{JsonCodec}.

(** X6.  A batch is written whole or not at all.  When
    [create_messages_batch] returns, it returns one message for each one
    given, in their order, the [i]-th with the [i]-th identifier drawn and
    all with the one time stamp, and the store holds their rows after the
    rows it held.  When it raises, the error is the 500 and the director is
    as before: no message of the batch is stored. *)
Theorem create_messages_batch_atomic (now : string) (uuid4 : nat → string)
    (msgs : list MessageCreate.t) (d : Director) :
  match create_messages_batch now uuid4 msgs d with
  | (inr created, d') =>
      length created = length msgs ∧
      (∀ i message, created !! i = Some message →
         ∃ msg, msgs !! i = Some msg ∧
                message = _row_to_message (message_row (uuid4 i) now msg)) ∧
      _row_to_message <$> messages (store d')
      = (_row_to_message <$> messages (store d)) ++ created ∧
      d' = with_store (with_messages (messages (store d')) (store d)) d
  | (inl e, d') => d' = d ∧ status_of e = Some 500
  end.
Proof.
  unfold create_messages_batch. unfold_M. unfold connect.
  destruct (online (store d)); [|done]. unfold execute_checked.
  destruct (insert_batch now uuid4 0 msgs (store d)) as [e|s'] eqn:Hbatch; [done|].
  apply insert_batch_inr in Hbatch as ->. cbn [messages with_messages store with_store].
  split; [|split; [|split]].
  - unfold batch_messages. by rewrite length_imap.
  - intros i message Hi. unfold batch_messages in Hi.
    rewrite list_lookup_imap in Hi.
    destruct (msgs !! i) as [msg|] eqn:Hmsg; [|done]. injection Hi as <-. eauto.
  - rewrite fmap_app. f_equal. unfold batch_messages.
    rewrite fmap_imap. by apply imap_ext.
  - done.
Qed.

(** X7.  When the store answers, [delete_messages_for_conversation]
    returns [True] whether or not the conversation or any message of it
    exists.  Afterwards the conversation has no message and
    [get_message_count] gives 0 for it; the messages of every other
    conversation and the table of conversations are as before. *)
Theorem delete_messages_for_conversation_clears (conversation_id : string)
    (d : Director) :
  online (store d) = true →
  ∃ d',
    delete_messages_for_conversation conversation_id d = (inr true, d') ∧
    conversation_rows conversation_id (store d') = [] ∧
    (∀ other, other ≠ conversation_id →
       conversation_rows other (store d') = conversation_rows other (store d)) ∧
    conversations (store d') = conversations (store d) ∧
    get_message_count conversation_id d' = (inr 0, d').
Proof.
  intros Hon. eexists. split.
  { unfold delete_messages_for_conversation. unfold_M.
    by rewrite connect_execute by done. }
  unfold conversation_rows, sql_delete_messages_of.
  cbn [store with_store messages with_messages conversations].
  split; [|split; [|split]].
  - rewrite rows_after_delete. by rewrite decide_True.
  - intros other Hother. rewrite rows_after_delete. by rewrite decide_False.
  - done.
  - unfold get_message_count. unfold_M. rewrite connect_query by done.
    unfold conversation_rows. cbn [store with_store messages with_messages].
    rewrite rows_after_delete. by rewrite decide_True.
Qed.

(** X8.  Deleting a stored conversation deletes its messages with it:
    afterwards the conversation is not stored, looking it up raises the 404,
    and no message of it is left.  The other conversations and their
    messages, the characters, the voices and the caches are as before. *)
Theorem delete_conversation_cascades (conversation_id : string) (d : Director) :
  online (store d) = true →
  is_Some (conversations (store d) !! conversation_id) →
  ∃ d',
    delete_conversation conversation_id d = (inr true, d') ∧
    conversations (store d') = delete conversation_id (conversations (store d)) ∧
    conversation_rows conversation_id (store d') = [] ∧
    (∀ other, other ≠ conversation_id →
       conversation_rows other (store d') = conversation_rows other (store d)) ∧
    get_conversation conversation_id d' = (inl (not_found "Conversation"), d') ∧
    characters (store d') = characters (store d) ∧
    voices (store d') = voices (store d) ∧
    _character_cache d' = _character_cache d ∧
    _voice_cache d' = _voice_cache d.
Proof.
  intros Hon [row Hrow]. eexists. split.
  { unfold delete_conversation. unfold_M. rewrite connect_online by done.
    unfold Sql_stmt.delete_conversation. rewrite Hrow. done. }
  unfold conversation_rows.
  cbn [store with_store messages with_messages conversations with_conversations].
  split; [done|]. split; [|split; [|split]].
  - rewrite rows_after_delete. by rewrite decide_True.
  - intros other Hother. rewrite rows_after_delete. by rewrite decide_False.
  - apply get_conversation_missing; [done|]. apply lookup_delete_eq.
  - done.
Qed.

(** X9.  [create_message] stores the message whether or not a conversation
    with its [conversation_id] is stored: when the store answers and the
    identifier drawn is free, the call returns the message, the
    conversation it names has one message more, the new one, and
    [get_message_count] gives one more for it.  The table of conversations
    is as before. *)
Theorem create_message_counts (now uuid4 : string) (message_data : MessageCreate.t)
    (d : Director) :
  online (store d) = true →
  uuid4 ∉ MessageRow.message_id <$> messages (store d) →
  let conversation_id := MessageCreate.conversation_id message_data in
  ∃ message d' count,
    create_message now uuid4 message_data d = (inr message, d') ∧
    Message.message_id message = uuid4 ∧
    conversations (store d') = conversations (store d) ∧
    get_message_count conversation_id d = (inr count, d) ∧
    get_message_count conversation_id d' = (inr (count + 1), d') ∧
    conversation_rows conversation_id (store d')
    = conversation_rows conversation_id (store d)
      ++ [message_row uuid4 now message_data].
Proof.
  intros Hon Hfresh conversation_id. eexists _, _, _. split.
  { unfold create_message. unfold_M. rewrite connect_online by done.
    unfold execute_checked. rewrite insert_message_fresh by done. done. }
  split; [done|]. split; [done|].
  assert (conversation_rows conversation_id
            (with_messages (messages (store d) ++ [message_row uuid4 now message_data])
               (store d))
          = conversation_rows conversation_id (store d)
            ++ [message_row uuid4 now message_data]) as Hrows.
  { unfold conversation_rows. cbn [messages with_messages].
    rewrite filter_app. f_equal. by rewrite filter_cons_True by done. }
  split; [|split].
  - unfold get_message_count. unfold_M. by rewrite connect_query by done.
  - unfold get_message_count. unfold_M. rewrite connect_query by done.
    cbn [store with_store]. rewrite Hrows, length_app. simpl.
    do 2 f_equal. lia.
  - exact Hrows.
Qed.

End Messages.

Lemma delete_messages_for_conversation_clears_witness :
  online (store Cases.library) = true ∧
  ∃ d',
    delete_messages_for_conversation "conv-1" Cases.library = (inr true, d') ∧
    get_message_count "conv-1" d' = (inr 0, d') ∧
    conversation_rows "conv-2" (store d')
    = conversation_rows "conv-2" (store Cases.library).
Proof.
  split; [reflexivity|].
  destruct (delete_messages_for_conversation_clears "conv-1" Cases.library eq_refl)
    as (d' & Hrun & _ & Hothers & _ & Hcount).
  exists d'. split; [exact Hrun|]. split; [exact Hcount|].
  apply Hothers. discriminate.
Defined.

Lemma delete_conversation_cascades_witness :
  online (store Cases.library) = true ∧
  is_Some (conversations (store Cases.library) !! "conv-1") ∧
  ∃ d',
    @delete_conversation "conv-1" Cases.library = (inr true, d') ∧
    conversation_rows "conv-1" (store d') = [] ∧
    length (messages (store d')) = 1%nat.
Proof.
  split; [reflexivity|].
  assert (is_Some (conversations (store Cases.library) !! "conv-1")) as Hstored
    by (vm_compute; eauto).
  split; [exact Hstored|].
  destruct (@delete_conversation_cascades FullJson.codec "conv-1" Cases.library
              eq_refl Hstored) as (d' & Hrun & _ & Hrows & _).
  exists d'. split; [exact Hrun|]. split; [exact Hrows|].
  assert (snd (delete_conversation "conv-1" Cases.library) = d') as <-
    by (by rewrite Hrun).
  vm_compute. reflexivity.
Defined.

(** A message for a conversation that is not stored. *)
Lemma create_message_counts_witness :
  online (store Cases.library) = true ∧
  ("m-9" ∉ MessageRow.message_id <$> messages (store Cases.library)) ∧
  conversations (store Cases.library) !! "conv-9" = None ∧
  ∃ message d',
    create_message Scenario.now "m-9" (Scenario.said "conv-9" "anyone?") Cases.library
    = (inr message, d') ∧
    get_message_count "conv-9" d' = (inr 1, d').
Proof.
  split; [reflexivity|].
  assert ("m-9" ∉ MessageRow.message_id <$> messages (store Cases.library)) as Hfresh.
  { apply (bool_decide_unpack _). vm_compute. reflexivity. }
  split; [exact Hfresh|]. split; [vm_compute; reflexivity|].
  destruct (create_message_counts Scenario.now "m-9"
              (Scenario.said "conv-9" "anyone?") Cases.library eq_refl Hfresh)
    as (message & d' & count & Hrun & _ & _ & Hbefore & Hafter & _).
  cbn [MessageCreate.conversation_id Scenario.said] in Hbefore, Hafter.
  exists message, d'. split; [exact Hrun|].
  assert (count = 0) as ->.
  { assert (fst (get_message_count "conv-9" Cases.library) = inr 0) as Hzero
      by (vm_compute; reflexivity).
    rewrite Hbefore in Hzero. simpl in Hzero. by injection Hzero. }
  exact Hafter.
Defined.

(** ** Conversations *)

Lemma json_eqb_str (v : json) (s : string) : json_eqb v (JStr s) = true ↔ v = JStr s.
Proof.
  destruct v; simpl; try (split; (done || by intros [=])).
  rewrite String.eqb_eq. split; [by intros ->|by intros [= ->]].
Qed.

Lemma json_eqb_str_refl (s : string) : json_eqb (JStr s) (JStr s) = true.
Proof. by apply json_eqb_str. Qed.

Section Conversations.
Context `{JsonCodec}.

Lemma decode_active_characters_error (column : option string) (e : exn) :
  decode_active_characters column = inl e → is_decoding_error e = true.
Proof.
  unfold decode_active_characters. intros He.
  repeat case_match; simplify_eq; auto using loads_exn_decoding.
Qed.

Lemma row_to_conversation_error (id : string) (row : ConversationRow.t) (e : exn) :
  _row_to_conversation id row = inl e → is_decoding_error e = true.
Proof.
  unfold _row_to_conversation.
  destruct (decode_active_characters _) eqn:Hdec; [|done].
  intros [= <-]. by eapply decode_active_characters_error.
Qed.

Lemma get_conversation_found (conversation_id : string) (row : ConversationRow.t)
    (d : Director) :
  online (store d) = true →
  conversations (store d) !! conversation_id = Some row →
  get_conversation conversation_id d
  = match _row_to_conversation conversation_id row with
    | inl e => (inl (database_error e), d)
    | inr c => (inr c, d)
    end.
Proof.
  intros Hon Hrow. unfold get_conversation. unfold_M.
  rewrite connect_query by done. rewrite Hrow.
  destruct (_row_to_conversation conversation_id row) as [e|c] eqn:Hdec; [|done].
  apply row_to_conversation_error in Hdec. by destruct e.
Qed.

Lemma update_conversation_stored (now conversation_id : string)
    (conversation_data : ConversationUpdate.t) (row : ConversationRow.t)
    (d : Director) :
  online (store d) = true →
  conversations (store d) !! conversation_id = Some row →
  conversation_updates conversation_data ≠ [] →
  let sets := conversation_updates conversation_data in
  let d1 := conversation_written now conversation_id sets row d in
  update_conversation now conversation_id conversation_data d
  = match _row_to_conversation conversation_id
            (foldl conversation_assign row (sets ++ [KSetUpdatedAt now])) with
    | inl e => (inl (database_error e), d1)
    | inr c => (inr c, d1)
    end.
Proof.
  intros Hon Hrow Hsets sets d1. unfold update_conversation. fold sets.
  destruct sets as [|set sets'] eqn:Hs; [done|].
  unfold except_http_reraise at 1. unfold try_except, mbind, M_bind, bind.
  rewrite connect_online by done. unfold Sql_stmt.update_conversation.
  rewrite Hrow. cbn [Z.eqb].
  rewrite (get_conversation_found conversation_id
             (foldl conversation_assign row ((set :: sets') ++ [KSetUpdatedAt now]))).
  - fold d1. unfold conversation_written in d1. fold d1.
    by destruct (_row_to_conversation _ _).
  - done.
  - cbn. apply lookup_insert_eq.
Qed.

Lemma update_conversation_missing (now conversation_id : string)
    (conversation_data : ConversationUpdate.t) (d : Director) :
  online (store d) = true →
  conversations (store d) !! conversation_id = None →
  conversation_updates conversation_data ≠ [] →
  update_conversation now conversation_id conversation_data d
  = (inl (not_found "Conversation"), d).
Proof.
  intros Hon Hrow Hsets. unfold update_conversation.
  destruct (conversation_updates conversation_data) as [|set sets'] eqn:Hs; [done|].
  unfold except_http_reraise at 1. unfold try_except, mbind, M_bind, bind.
  rewrite connect_online by done. unfold Sql_stmt.update_conversation.
  rewrite Hrow. cbn. by rewrite with_store_same.
Qed.

(** X10.  A conversation that [create_conversation] returns is the one
    [get_conversation] finds under its identifier afterwards, when the list
    of active characters reads back from its stored text.  Its title is the
    one given; when none or an empty one is given and a title is asked for,
    it is [Conversation] and the time stamp, and when none is asked for the
    title stays as given, empty or missing. *)
Theorem create_then_get_conversation (now stamp uuid4 : string)
    (conversation_data : ConversationCreate.t) (auto_generate_title : bool)
    (d : Director) :
  online (store d) = true →
  conversations (store d) !! uuid4 = None →
  decode_active_characters
    (Some (dump_active_characters
             (ConversationCreate.active_characters conversation_data)))
  = inr (ConversationCreate.active_characters conversation_data) →
  ∃ conversation d',
    create_conversation now stamp uuid4 conversation_data auto_generate_title d
    = (inr conversation, d') ∧
    get_conversation uuid4 d' = (inr conversation, d') ∧
    Conversation.conversation_id conversation = uuid4 ∧
    Conversation.active_characters conversation
    = ConversationCreate.active_characters conversation_data ∧
    Conversation.title conversation
    = (if auto_generate_title &&
          negb (Py.truthy (Py.or_empty (ConversationCreate.title conversation_data)))
       then Some ("Conversation " +:+ stamp)
       else ConversationCreate.title conversation_data).
Proof.
  intros Hon Hfree Hjson. eexists _, _. split.
  { unfold create_conversation. unfold_M. rewrite connect_online by done.
    unfold execute_checked, Sql_stmt.insert_conversation. rewrite Hfree. done. }
  split; [|done].
  erewrite get_conversation_found; [|done|cbn; apply lookup_insert_eq].
  unfold _row_to_conversation. cbn [ConversationRow.active_characters].
  by rewrite Hjson.
Qed.

(** X11.  [update_conversation_title] on an unknown conversation raises the
    404 and changes nothing.  On a stored one it writes the title and the
    time of the update and keeps the other columns, then reads the row back:
    it returns the conversation with the new title, or, when the stored list
    of active characters does not decode, it raises the 500 after the new
    title was committed. *)
Theorem update_conversation_title_commits (now conversation_id title : string)
    (d : Director) :
  online (store d) = true →
  match conversations (store d) !! conversation_id with
  | None =>
      update_conversation_title now conversation_id title d
      = (inl (not_found "Conversation"), d)
  | Some row =>
      let row' :=
        ConversationRow.mk (Some title) (ConversationRow.active_characters row)
          (ConversationRow.created_at row) (Some now) in
      let d' :=
        with_store
          (with_conversations (<[conversation_id := row']> (conversations (store d)))
             (store d)) d in
      update_conversation_title now conversation_id title d
      = match decode_active_characters (ConversationRow.active_characters row) with
        | inr active_characters =>
            (inr (Conversation.mk conversation_id (Some title) active_characters
                    (ConversationRow.created_at row) (Some now)), d')
        | inl e => (inl (database_error e), d')
        end
  end.
Proof.
  intros Hon. unfold update_conversation_title.
  destruct (conversations (store d) !! conversation_id) as [row|] eqn:Hrow.
  - rewrite (update_conversation_stored _ _ _ row) by done.
    destruct row as [t ac ca ua]. cbn. unfold _row_to_conversation. cbn.
    by destruct (decode_active_characters ac).
  - by apply update_conversation_missing.
Qed.

Lemma update_active_characters_stored (now conversation_id : string)
    (active_characters : list dict) (row : ConversationRow.t) (d : Director) :
  online (store d) = true →
  conversations (store d) !! conversation_id = Some row →
  let row' :=
    ConversationRow.mk (ConversationRow.title row)
      (Some (dump_active_characters active_characters))
      (ConversationRow.created_at row) (Some now) in
  let d' :=
    with_store
      (with_conversations (<[conversation_id := row']> (conversations (store d)))
         (store d)) d in
  update_conversation_active_characters now conversation_id active_characters d
  = match decode_active_characters (Some (dump_active_characters active_characters)) with
    | inr cs =>
        (inr (Conversation.mk conversation_id (ConversationRow.title row) cs
                (ConversationRow.created_at row) (Some now)), d')
    | inl e => (inl (database_error e), d')
    end.
Proof.
  intros Hon Hrow row' d'. unfold update_conversation_active_characters.
  rewrite (update_conversation_stored _ _ _ row) by done.
  unfold conversation_written, _row_to_conversation. subst row' d'.
  destruct row as [t ac ca ua]. cbn -[decode_active_characters].
  by destruct (decode_active_characters _).
Qed.

Lemma add_character_present (now conversation_id : string) (character_data : dict)
    (row : ConversationRow.t) (conversation : Conversation.t) (d : Director) :
  online (store d) = true →
  conversations (store d) !! conversation_id = Some row →
  _row_to_conversation conversation_id row = inr conversation →
  existsb (json_eqb (dict_get "id" character_data))
    (dict_get "id" <$> Conversation.active_characters conversation) = true →
  add_character_to_conversation now conversation_id character_data d
  = (inr conversation, d).
Proof.
  intros Hon Hrow Hdec Hpresent. unfold add_character_to_conversation.
  unfold except_exception, try_except, mbind, M_bind, bind.
  rewrite (get_conversation_found _ row), Hdec by done.
  by rewrite Hpresent.
Qed.

(** X12.  Adding a character whose [id] is a text to a stored conversation
    is idempotent.  When an active character already carries this id, the
    conversation is returned as it is and nothing is written; otherwise the
    character is appended to the list.  Either way, adding the same
    character again returns the same conversation and writes nothing. *)
Theorem add_character_idempotent (now conversation_id character_id : string)
    (character_data : dict) (row : ConversationRow.t)
    (conversation : Conversation.t) (d : Director) :
  online (store d) = true →
  conversations (store d) !! conversation_id = Some row →
  _row_to_conversation conversation_id row = inr conversation →
  dict_get "id" character_data = JStr character_id →
  let active := Conversation.active_characters conversation in
  let present := existsb (json_eqb (JStr character_id)) (dict_get "id" <$> active) in
  (present = false →
   decode_active_characters
     (Some (dump_active_characters (active ++ [character_data])))
   = inr (active ++ [character_data])) →
  ∃ conversation' d',
    add_character_to_conversation now conversation_id character_data d
    = (inr conversation', d') ∧
    Conversation.active_characters conversation'
    = (if present then active else active ++ [character_data]) ∧
    (present = true → conversation' = conversation ∧ d' = d) ∧
    ∀ later,
      add_character_to_conversation later conversation_id character_data d'
      = (inr conversation', d').
Proof.
  intros Hon Hrow Hdec Hid active present Hjson.
  destruct present eqn:Hpresent.
  - assert (add_character_to_conversation now conversation_id character_data d
            = (inr conversation, d)) as Hrun.
    { eapply add_character_present; try done. by rewrite Hid. }
    exists conversation, d. split; [done|]. split; [done|]. split; [done|].
    intros later. eapply add_character_present; try done. by rewrite Hid.
  - specialize (Hjson eq_refl). eexists _, _. split.
    { unfold add_character_to_conversation.
      unfold except_exception, try_except, mbind, M_bind, bind.
      rewrite (get_conversation_found _ row), Hdec by done.
      rewrite Hid. fold active. fold present. rewrite Hpresent. cbn [negb].
      rewrite (update_active_characters_stored _ _ _ row) by done.
      rewrite Hjson. done. }
    split; [done|]. split; [done|]. intros later.
    eapply add_character_present.
    + done.
    + cbn. apply lookup_insert_eq.
    + unfold _row_to_conversation. cbn [ConversationRow.active_characters].
      rewrite Hjson. done.
    + cbn [Conversation.active_characters]. rewrite fmap_app, existsb_app.
      cbn. rewrite Hid, json_eqb_str_refl. by rewrite orb_true_r.
Qed.

(** X13.  Removing a character from a stored conversation leaves the active
    characters that do not carry the id, in their order, and none that
    carries it.  The call writes the list and the time of the update also
    when no active character carried the id. *)
Theorem remove_character_leaves_others (now conversation_id character_id : string)
    (row : ConversationRow.t) (conversation : Conversation.t) (d : Director) :
  online (store d) = true →
  conversations (store d) !! conversation_id = Some row →
  _row_to_conversation conversation_id row = inr conversation →
  let kept :=
    List.filter (λ c, negb (json_eqb (dict_get "id" c) (JStr character_id)))
      (Conversation.active_characters conversation) in
  decode_active_characters (Some (dump_active_characters kept)) = inr kept →
  ∃ conversation' d',
    remove_character_from_conversation now conversation_id character_id d
    = (inr conversation', d') ∧
    Conversation.active_characters conversation' = kept ∧
    (∀ c, c ∈ kept ↔
          c ∈ Conversation.active_characters conversation ∧
          dict_get "id" c ≠ JStr character_id) ∧
    Conversation.updated_at conversation' = Some now ∧
    ConversationRow.updated_at <$> conversations (store d') !! conversation_id
    = Some (Some now) ∧
    get_conversation conversation_id d' = (inr conversation', d').
Proof.
  intros Hon Hrow Hdec kept Hjson. eexists _, _. split.
  { unfold remove_character_from_conversation.
    unfold except_exception, try_except, mbind, M_bind, bind.
    rewrite (get_conversation_found _ row), Hdec by done. fold kept.
    rewrite (update_active_characters_stored _ _ _ row) by done.
    rewrite Hjson. done. }
  split; [done|]. split; [|split; [done|split]].
  - intros c. unfold kept. rewrite !list_elem_of_In, filter_In.
    rewrite negb_true_iff, <-not_true_iff_false, json_eqb_str. done.
  - cbn. by rewrite lookup_insert_eq.
  - erewrite get_conversation_found; [|done|cbn; apply lookup_insert_eq].
    unfold _row_to_conversation. cbn [ConversationRow.active_characters].
    by rewrite Hjson.
Qed.

Lemma try_reraise {A} (m : M A) (d : Director) :
  try_except m (λ e, raise e) d = m d.
Proof. unfold try_except, raise. by destruct (m d) as [[e|a] d']. Qed.

(** X14.  [auto_update_conversation_title] leaves a stored conversation as
    it is when its title is not empty and does not contain the word
    [Conversation].  Otherwise, also for a title the user chose that contains
    this word, it replaces the title by the one generated from the first
    message and writes the time of the update. *)
Theorem auto_title_replaces_default (now stamp conversation_id first_message : string)
    (row : ConversationRow.t) (conversation : Conversation.t) (d : Director) :
  online (store d) = true →
  conversations (store d) !! conversation_id = Some row →
  _row_to_conversation conversation_id row = inr conversation →
  let title := Py.or_empty (ConversationRow.title row) in
  let new_title := _generate_conversation_title stamp (Some first_message) in
  let row' :=
    ConversationRow.mk (Some new_title) (ConversationRow.active_characters row)
      (ConversationRow.created_at row) (Some now) in
  auto_update_conversation_title now stamp conversation_id first_message d
  = if negb (Py.truthy title) || str_in "Conversation" title
    then
      (inr (Conversation.mk conversation_id (Some new_title)
              (Conversation.active_characters conversation)
              (ConversationRow.created_at row) (Some now)),
       with_store
         (with_conversations (<[conversation_id := row']> (conversations (store d)))
            (store d)) d)
    else (inr conversation, d).
Proof.
  intros Hon Hrow Hdec title new_title row'.
  unfold auto_update_conversation_title. rewrite try_reraise.
  unfold mbind, M_bind, bind.
  rewrite (get_conversation_found _ row), Hdec by done.
  assert (Conversation.title conversation = ConversationRow.title row
          ∧ decode_active_characters (ConversationRow.active_characters row)
            = inr (Conversation.active_characters conversation)) as [-> Hactive].
  { unfold _row_to_conversation in Hdec.
    destruct (decode_active_characters _); [done|]. by injection Hdec as <-. }
  fold title. destruct (negb (Py.truthy title) || str_in "Conversation" title); [|done].
  unfold update_conversation_title.
  rewrite (update_conversation_stored _ _ _ row) by done.
  destruct row as [t ac ca ua]. cbn. unfold _row_to_conversation. cbn.
  cbn in Hactive. by rewrite Hactive.
Qed.

Lemma rows_to_conversations_inr (rows : list (string * ConversationRow.t))
    (found : list Conversation.t) :
  rows_to_conversations rows = inr found →
  Forall2 (λ kr c, _row_to_conversation kr.1 kr.2 = inr c) rows found.
Proof.
  revert found. induction rows as [|[id row] rows IH]; intros found Hrun; simpl in Hrun.
  { injection Hrun as <-. constructor. }
  destruct (_row_to_conversation id row) as [e|c] eqn:Hdec; [done|].
  destruct (rows_to_conversations rows) as [e|cs]; [done|].
  injection Hrun as <-. constructor; [done|by apply IH].
Qed.

Lemma rows_to_conversations_inl (rows : list (string * ConversationRow.t)) (e : exn) :
  rows_to_conversations rows = inl e →
  ∃ id row, (id, row) ∈ rows ∧ _row_to_conversation id row = inl e.
Proof.
  induction rows as [|[id row] rows IH]; intros Hrun; simpl in Hrun; [done|].
  destruct (_row_to_conversation id row) as [e'|c] eqn:Hdec.
  { injection Hrun as ->. exists id, row. split; [left|done]. }
  destruct (rows_to_conversations rows) as [e'|cs]; [|done].
  injection Hrun as ->. destruct IH as (id' & row' & Hin & Hbad); [done|].
  exists id', row'. split; [by right|done].
Qed.

(** X15.  Without a limit, [get_all_conversations] returns every stored
    conversation and nothing else, sorted by [updated_at] from the latest
    on, when every stored row decodes; the offset has no effect then.  One
    stored row whose list of active characters does not decode makes the
    whole listing fail with the 500. *)
Theorem get_all_conversations_sorted (offset : Z) (d : Director) :
  online (store d) = true →
  match get_all_conversations None offset d with
  | (inr found, d') =>
      d' = d ∧
      Sorted (λ a b, Order.leb (Conversation.updated_at b)
                       (Conversation.updated_at a) = true) found ∧
      (∀ c, c ∈ found ↔
            ∃ id row, conversations (store d) !! id = Some row ∧
                      _row_to_conversation id row = inr c) ∧
      (∀ id row, conversations (store d) !! id = Some row →
                 ∃ c, _row_to_conversation id row = inr c)
  | (inl e, d') =>
      d' = d ∧ status_of e = Some 500 ∧
      ∃ id row e', conversations (store d) !! id = Some row ∧
                   _row_to_conversation id row = inl e'
  end.
Proof.
  intros Hon. unfold get_all_conversations. unfold_M.
  rewrite connect_query_checked by done.
  set (before := λ x y : string * ConversationRow.t,
         Order.leb (ConversationRow.updated_at y.2) (ConversationRow.updated_at x.2)).
  unfold Order.desc. fold before.
  assert (∀ kr, kr ∈ Order.sort before (map_to_list (conversations (store d))) ↔
                conversations (store d) !! kr.1 = Some kr.2) as Hrows.
  { intros [id row]. by rewrite sort_perm, elem_of_map_to_list. }
  assert (Sorted (λ x y, before x y = true)
            (Order.sort before (map_to_list (conversations (store d))))) as Hsorted.
  { apply sort_sorted. intros x y. apply leb_total. }
  destruct (rows_to_conversations _) as [e|found] eqn:Hrun; cbn.
  - split; [done|]. split; [done|].
    apply rows_to_conversations_inl in Hrun as (id & row & Hin & Hbad).
    apply Hrows in Hin. eauto.
  - split; [done|]. apply rows_to_conversations_inr in Hrun.
    revert Hrows Hsorted Hrun.
    generalize (Order.sort before (map_to_list (conversations (store d)))).
    intros rows Hrows Hsorted Hall.
    assert (∀ kr c, _row_to_conversation kr.1 kr.2 = inr c →
                    Conversation.updated_at c = ConversationRow.updated_at kr.2)
      as Hkey.
    { intros [id row] c. unfold _row_to_conversation. simpl.
      destruct (decode_active_characters _); [done|]. by intros [= <-]. }
    split; [|split].
    + clear Hrows. induction Hall as [|kr c rows found Hdec Hall IH]; [constructor|].
      apply Sorted_inv in Hsorted as [Hsorted Hhd].
      constructor; [by apply IH|].
      destruct Hall as [|kr' c' rows found Hdec' Hall]; [constructor|].
      apply HdRel_inv in Hhd. constructor.
      rewrite (Hkey _ _ Hdec), (Hkey _ _ Hdec'). exact Hhd.
    + intros c. split.
      * intros Hc. apply list_elem_of_lookup in Hc as [i Hi].
        destruct (Forall2_lookup_r _ _ _ _ _ Hall Hi) as ([id row] & Hkr & Hdec).
        exists id, row. split; [|done].
        apply (Hrows (id, row)). by eapply list_elem_of_lookup_2.
      * intros (id & row & Hstored & Hdec).
        apply (Hrows (id, row)) in Hstored.
        apply list_elem_of_lookup in Hstored as [i Hi].
        destruct (Forall2_lookup_l _ _ _ _ _ Hall Hi) as (c' & Hc' & Hdec').
        simpl in Hdec'. rewrite Hdec in Hdec'. injection Hdec' as <-.
        by eapply list_elem_of_lookup_2.
    + intros id row Hstored. apply (Hrows (id, row)) in Hstored.
      apply list_elem_of_lookup in Hstored as [i Hi].
      destruct (Forall2_lookup_l _ _ _ _ _ Hall Hi) as (c' & Hc' & Hdec').
      eauto.
Qed.

End Conversations.

Lemma create_then_get_conversation_witness :
  online (store Cases.library) = true ∧
  conversations (store Cases.library) !! "conv-3" = None ∧
  ∃ conversation d',
    @create_conversation FullJson.codec Scenario.now "2024-01-02 09:30" "conv-3"
      Cases.welcome true Cases.library
    = (inr conversation, d') ∧
    @get_conversation FullJson.codec "conv-3" d' = (inr conversation, d') ∧
    Conversation.active_characters conversation = [Cases.robot; Cases.guest] ∧
    Conversation.title conversation = Some "Conversation 2024-01-02 09:30".
Proof.
  split; [reflexivity|]. split; [vm_compute; reflexivity|].
  destruct (@create_then_get_conversation FullJson.codec Scenario.now
              "2024-01-02 09:30" "conv-3" Cases.welcome true Cases.library)
    as (conversation & d' & Hrun & Hget & _ & Hactive & Htitle).
  - reflexivity.
  - vm_compute. reflexivity.
  - vm_compute. reflexivity.
  - exists conversation, d'. repeat split; assumption.
Defined.

Lemma update_conversation_title_commits_witness :
  online (store Cases.library) = true ∧
  fst (@update_conversation_title FullJson.codec Scenario.now "conv-2" "Rome"
         Cases.library)
  = inr (Conversation.mk "conv-2" (Some "Rome") [Cases.robot]
           (Some "2024-01-01T11:00:00") (Some Scenario.now)).
Proof.
  split; [reflexivity|].
  pose proof (@update_conversation_title_commits FullJson.codec Scenario.now
                "conv-2" "Rome" Cases.library eq_refl) as Hrun.
  assert (conversations (store Cases.library) !! "conv-2" = Some Cases.trip_row)
    as Hrow by (vm_compute; reflexivity).
  rewrite Hrow in Hrun. rewrite Hrun. vm_compute. reflexivity.
Defined.

(** The title of a conversation that does not decode is replaced although
    the call raises. *)
Example title_committed_before_error :
  raised (@update_conversation_title FullJson.codec Scenario.now "conv-0" "Mended"
            Cases.torn)
  = Some (HTTPException 500 "Database error: Expecting value: line 1 column 1 (char 0)") ∧
  ConversationRow.title <$>
    conversations
      (store (snd (@update_conversation_title FullJson.codec Scenario.now "conv-0"
                     "Mended" Cases.torn))) !! "conv-0"
  = Some (Some "Mended").
Proof. split; vm_compute; reflexivity. Qed.

Lemma add_character_idempotent_witness :
  online (store Cases.library) = true ∧
  conversations (store Cases.library) !! "conv-2" = Some Cases.trip_row ∧
  dict_get "id" Cases.guest = JStr "guest-001" ∧
  ∃ conversation' d',
    @add_character_to_conversation FullJson.codec Scenario.now "conv-2" Cases.guest
      Cases.library
    = (inr conversation', d') ∧
    Conversation.active_characters conversation' = [Cases.robot; Cases.guest] ∧
    @add_character_to_conversation FullJson.codec "2024-01-03T08:00:00" "conv-2"
      Cases.guest d'
    = (inr conversation', d').
Proof.
  split; [reflexivity|]. split; [vm_compute; reflexivity|]. split; [reflexivity|].
  destruct (@add_character_idempotent FullJson.codec Scenario.now "conv-2" "guest-001"
              Cases.guest Cases.trip_row
              (Conversation.mk "conv-2" (Some "Trip plans") [Cases.robot]
                 (Some "2024-01-01T11:00:00") (Some "2024-01-01T12:00:00"))
              Cases.library)
    as (conversation' & d' & Hrun & Hactive & _ & Hagain).
  - reflexivity.
  - vm_compute. reflexivity.
  - vm_compute. reflexivity.
  - reflexivity.
  - intros _. vm_compute. reflexivity.
  - exists conversation', d'. split; [exact Hrun|]. split; [exact Hactive|].
    apply Hagain.
Defined.

Lemma remove_character_leaves_others_witness :
  online (store Cases.library) = true ∧
  conversations (store Cases.library) !! "conv-2" = Some Cases.trip_row ∧
  ∃ conversation' d',
    @remove_character_from_conversation FullJson.codec Scenario.now "conv-2"
      "robot-001" Cases.library
    = (inr conversation', d') ∧
    Conversation.active_characters conversation' = [] ∧
    Conversation.updated_at conversation' = Some Scenario.now.
Proof.
  split; [reflexivity|]. split; [vm_compute; reflexivity|].
  destruct (@remove_character_leaves_others FullJson.codec Scenario.now "conv-2"
              "robot-001" Cases.trip_row
              (Conversation.mk "conv-2" (Some "Trip plans") [Cases.robot]
                 (Some "2024-01-01T11:00:00") (Some "2024-01-01T12:00:00"))
              Cases.library)
    as (conversation' & d' & Hrun & Hactive & _ & Hupdated & _).
  - reflexivity.
  - vm_compute. reflexivity.
  - vm_compute. reflexivity.
  - vm_compute. reflexivity.
  - exists conversation', d'. split; [exact Hrun|]. split; [exact Hactive|].
    exact Hupdated.
Defined.

(** The generated title of [conv-1] gives way to the first message. *)
Lemma auto_title_replaces_default_witness :
  online (store Cases.library) = true ∧
  conversations (store Cases.library) !! "conv-1" = Some Cases.untitled_row ∧
  fst (@auto_update_conversation_title FullJson.codec Scenario.now
         "2024-01-02 09:30" "conv-1" "  Hello there  " Cases.library)
  = inr (Conversation.mk "conv-1" (Some "Hello there") []
           (Some "2024-01-01T10:00:00") (Some Scenario.now)).
Proof.
  split; [reflexivity|]. split; [vm_compute; reflexivity|].
  rewrite (@auto_title_replaces_default FullJson.codec Scenario.now
             "2024-01-02 09:30" "conv-1" "  Hello there  " Cases.untitled_row
             (Conversation.mk "conv-1" (Some "Conversation 2024-01-01 10:00") []
                (Some "2024-01-01T10:00:00") (Some "2024-01-01T10:00:00"))
             Cases.library).
  - vm_compute. reflexivity.
  - reflexivity.
  - vm_compute. reflexivity.
  - vm_compute. reflexivity.
Defined.

(** A chosen title is kept, unless it contains the word [Conversation]. *)
Example auto_title_keeps_chosen :
  @auto_update_conversation_title FullJson.codec Scenario.now "2024-01-02 09:30"
    "conv-2" "Hello" Cases.library
  = (inr (Conversation.mk "conv-2" (Some "Trip plans") [Cases.robot]
            (Some "2024-01-01T11:00:00") (Some "2024-01-01T12:00:00")),
     Cases.library) ∧
  Conversation.title <$>
    returned
      (@auto_update_conversation_title FullJson.codec Scenario.now "2024-01-02 09:30"
         "conv-2" "Hello"
         (snd (@update_conversation_title FullJson.codec Scenario.now "conv-2"
                 "Conversation with Robot" Cases.library)))
  = Some (Some "Hello").
Proof. split; vm_compute; reflexivity. Qed.

Lemma get_all_conversations_sorted_witness :
  online (store Cases.library) = true ∧
  ∃ found,
    @get_all_conversations FullJson.codec None 5 Cases.library
    = (inr found, Cases.library) ∧
    Conversation.conversation_id <$> found = ["conv-2"; "conv-1"].
Proof.
  split; [reflexivity|].
  pose proof (@get_all_conversations_sorted FullJson.codec 5 Cases.library eq_refl)
    as Hthm.
  assert (Conversation.conversation_id <$>
            default [] (returned (@get_all_conversations FullJson.codec None 5
                                    Cases.library))
          = ["conv-2"; "conv-1"]) as Hval by (vm_compute; reflexivity).
  destruct (@get_all_conversations FullJson.codec None 5 Cases.library)
    as [[e|found] d'].
  - discriminate Hval.
  - destruct Hthm as (-> & _). exists found. split; [reflexivity|exact Hval].
Defined.

(** One conversation that does not decode hides all of them. *)
Example torn_conversation_hides_all :
  raised (@get_all_conversations FullJson.codec None 0 Cases.torn)
  = Some (HTTPException 500 "Database error: Expecting value: line 1 column 1 (char 0)").
Proof. vm_compute. reflexivity. Qed.

(** ** Loading and refreshing the caches *)

(** The entries a loop of insertions leaves, for rows with distinct keys. *)
Lemma foldl_insert_lookup {V W} (g : string → V → option W)
    (rows : list (string * V)) (m : gmap string W) (k : string) :
  NoDup rows.*1 →
  foldl (λ m kr, match g kr.1 kr.2 with Some w => <[kr.1 := w]> m | None => m end)
    m rows !! k
  = match (list_to_map rows : gmap string V) !! k ≫= g k with
    | Some w => Some w
    | None => m !! k
    end.
Proof.
  revert m. induction rows as [|[k0 v0] rows IH]; intros m Hnodup.
  { simpl. by rewrite lookup_empty. }
  simpl in Hnodup. apply NoDup_cons in Hnodup as [Hfresh Hnodup].
  cbn [foldl fst snd]. rewrite IH by done. rewrite list_to_map_cons.
  destruct (decide (k = k0)) as [->|Hne].
  - rewrite (not_elem_of_list_to_map_1 _ k0) by done. rewrite lookup_insert_eq.
    cbn. destruct (g k0 v0); [by rewrite lookup_insert_eq|done].
  - rewrite lookup_insert_ne by done.
    destruct (_ ≫= g k); [done|].
    destruct (g k0 v0); [by rewrite lookup_insert_ne|done].
Qed.

Lemma table_rows_lookup {V W} (g : string → V → option W) (t : gmap string V)
    (m : gmap string W) (k : string) :
  foldl (λ m kr, match g kr.1 kr.2 with Some w => <[kr.1 := w]> m | None => m end)
    m (map_to_list t) !! k
  = match t !! k ≫= g k with
    | Some w => Some w
    | None => m !! k
    end.
Proof.
  rewrite foldl_insert_lookup by apply NoDup_fst_map_to_list.
  by rewrite list_to_map_to_list.
Qed.

Section Loading.
Context `{JsonCodec}.

(** The loop over the voice rows: it fills the cache with the rows decoded,
    or stops at the first row that does not decode, with the rows before it
    cached. *)
Lemma load_voices_run (rows : list (string * VoiceRow.t)) (d : Director) :
  match rows_to_voices rows with
  | inr _ =>
      load_voices rows d
      = (inr tt,
         with_voice_cache
           (foldl (λ m kr, match (match _row_to_voice kr.1 kr.2 with
                                  | inr v => Some (voice_entry v)
                                  | inl _ => None
                                  end) with
                           | Some w => <[kr.1 := w]> m
                           | None => m
                           end) (_voice_cache d) rows) d)
  | inl e =>
      ∃ cache,
        load_voices rows d = (inl e, with_voice_cache cache d) ∧
        ∀ name entry,
          cache !! name = Some entry →
          _voice_cache d !! name = Some entry ∨
          ∃ row voice, (name, row) ∈ rows ∧
                       _row_to_voice name row = inr voice ∧
                       entry = voice_entry voice
  end.
Proof.
  revert d. induction rows as [|[name row] rows IH]; intros d.
  { by destruct d. }
  cbn [load_voices rows_to_voices foldl fst snd].
  unfold mbind, M_bind, bind, lift.
  destruct (_row_to_voice name row) as [e|v] eqn:Hdec.
  { exists (_voice_cache d). split; [by destruct d|]. eauto. }
  unfold ret, cache_voice, modify.
  rewrite (row_to_voice_name _ _ _ Hdec).
  specialize (IH (with_voice_cache (<[name := voice_entry v]> (_voice_cache d)) d)).
  destruct (rows_to_voices rows) as [e|vs].
  - destruct IH as (cache & -> & Hcache). exists cache. split; [done|].
    intros name' entry Hentry.
    destruct (Hcache name' entry Hentry) as [Hold|(row' & v' & Hin & Hrow & ->)].
    + cbn in Hold. destruct (decide (name' = name)) as [->|Hne].
      * rewrite lookup_insert_eq in Hold. injection Hold as <-.
        right. exists row, v. split; [left|done].
      * rewrite lookup_insert_ne in Hold by done. by left.
    + right. exists row', v'. split; [by right|done].
  - by rewrite IH.
Qed.

Lemma row_to_character_id (id : string) (row : CharacterRow.t) (c : Character.t) :
  _row_to_character id row = inr c → Character.id c = id.
Proof.
  unfold _row_to_character. destruct (decode_images _); [done|]. by intros [= <-].
Qed.

Lemma load_characters_run (rows : list (string * CharacterRow.t)) (d : Director) :
  match rows_to_characters rows with
  | inr _ =>
      load_characters rows d
      = (inr tt,
         with_character_cache
           (foldl (λ m kr, match (match _row_to_character kr.1 kr.2 with
                                  | inr c => Some c
                                  | inl _ => None
                                  end) with
                           | Some w => <[kr.1 := w]> m
                           | None => m
                           end) (_character_cache d) rows) d)
  | inl e => ∃ cache, load_characters rows d = (inl e, with_character_cache cache d)
  end.
Proof.
  revert d. induction rows as [|[id row] rows IH]; intros d.
  { by destruct d. }
  cbn [load_characters rows_to_characters foldl fst snd].
  unfold mbind, M_bind, bind, lift.
  destruct (_row_to_character id row) as [e|c] eqn:Hdec.
  { exists (_character_cache d). by destruct d. }
  unfold ret, cache_character, modify.
  rewrite (row_to_character_id _ _ _ Hdec).
  specialize (IH (with_character_cache (<[id := c]> (_character_cache d)) d)).
  destruct (rows_to_characters rows) as [e|cs].
  - destruct IH as [cache ->]. by exists cache.
  - by rewrite IH.
Qed.

Lemma rows_to_characters_inr (rows : list (string * CharacterRow.t))
    (found : list Character.t) :
  rows_to_characters rows = inr found →
  Forall2 (λ kr c, _row_to_character kr.1 kr.2 = inr c) rows found.
Proof.
  revert found. induction rows as [|[id row] rows IH]; intros found Hrun; simpl in Hrun.
  { injection Hrun as <-. constructor. }
  destruct (_row_to_character id row) as [e|c] eqn:Hdec; [done|].
  destruct (rows_to_characters rows) as [e|cs]; [done|].
  injection Hrun as <-. constructor; [done|by apply IH].
Qed.

Lemma rows_to_characters_inl (rows : list (string * CharacterRow.t)) (e : exn) :
  rows_to_characters rows = inl e →
  ∃ id row, (id, row) ∈ rows ∧ _row_to_character id row = inl e.
Proof.
  induction rows as [|[id row] rows IH]; intros Hrun; simpl in Hrun; [done|].
  destruct (_row_to_character id row) as [e'|c] eqn:Hdec.
  { injection Hrun as ->. exists id, row. split; [left|done]. }
  destruct (rows_to_characters rows) as [e'|cs]; [|done].
  injection Hrun as ->. destruct IH as (id' & row' & Hin & Hbad); [done|].
  exists id', row'. split; [by right|done].
Qed.

Lemma rows_to_characters_elem (rows : list (string * CharacterRow.t))
    (found : list Character.t) :
  rows_to_characters rows = inr found →
  length found = length rows ∧
  (∀ id row, (id, row) ∈ rows → ∃ c, _row_to_character id row = inr c) ∧
  (∀ c, c ∈ found ↔ ∃ id row, (id, row) ∈ rows ∧ _row_to_character id row = inr c).
Proof.
  intros Hrun. apply rows_to_characters_inr in Hrun.
  split; [symmetry; by eapply Forall2_length|]. split.
  - intros id row Hin. apply list_elem_of_lookup in Hin as [i Hi].
    destruct (Forall2_lookup_l _ _ _ _ _ Hrun Hi) as (c & _ & Hdec). eauto.
  - intros c. split.
    + intros Hc. apply list_elem_of_lookup in Hc as [i Hi].
      destruct (Forall2_lookup_r _ _ _ _ _ Hrun Hi) as ([id row] & Hkr & Hdec).
      exists id, row. split; [by eapply list_elem_of_lookup_2|done].
    + intros (id & row & Hin & Hdec). apply list_elem_of_lookup in Hin as [i Hi].
      destruct (Forall2_lookup_l _ _ _ _ _ Hrun Hi) as (c' & Hc' & Hdec').
      simpl in Hdec'. rewrite Hdec in Hdec'. injection Hdec' as <-.
      by eapply list_elem_of_lookup_2.
Qed.

Lemma rows_to_voices_inr (rows : list (string * VoiceRow.t))
    (found : list Voice.t) :
  rows_to_voices rows = inr found →
  Forall2 (λ kr v, _row_to_voice kr.1 kr.2 = inr v) rows found.
Proof.
  revert found. induction rows as [|[name row] rows IH]; intros found Hrun;
    simpl in Hrun.
  { injection Hrun as <-. constructor. }
  destruct (_row_to_voice name row) as [e|v] eqn:Hdec; [done|].
  destruct (rows_to_voices rows) as [e|vs]; [done|].
  injection Hrun as <-. constructor; [done|by apply IH].
Qed.

Lemma rows_to_voices_inl (rows : list (string * VoiceRow.t)) (e : exn) :
  rows_to_voices rows = inl e →
  ∃ name row, (name, row) ∈ rows ∧ _row_to_voice name row = inl e.
Proof.
  induction rows as [|[name row] rows IH]; intros Hrun; simpl in Hrun; [done|].
  destruct (_row_to_voice name row) as [e'|v] eqn:Hdec.
  { injection Hrun as ->. exists name, row. split; [left|done]. }
  destruct (rows_to_voices rows) as [e'|vs]; [|done].
  injection Hrun as ->. destruct IH as (name' & row' & Hin & Hbad); [done|].
  exists name', row'. split; [by right|done].
Qed.

Lemma rows_to_voices_elem (rows : list (string * VoiceRow.t))
    (found : list Voice.t) :
  rows_to_voices rows = inr found →
  length found = length rows ∧
  (∀ name row, (name, row) ∈ rows → ∃ v, _row_to_voice name row = inr v) ∧
  (∀ v, v ∈ found ↔ ∃ name row, (name, row) ∈ rows ∧ _row_to_voice name row = inr v).
Proof.
  intros Hrun. apply rows_to_voices_inr in Hrun.
  split; [symmetry; by eapply Forall2_length|]. split.
  - intros name row Hin. apply list_elem_of_lookup in Hin as [i Hi].
    destruct (Forall2_lookup_l _ _ _ _ _ Hrun Hi) as (v & _ & Hdec). eauto.
  - intros v. split.
    + intros Hv. apply list_elem_of_lookup in Hv as [i Hi].
      destruct (Forall2_lookup_r _ _ _ _ _ Hrun Hi) as ([name row] & Hkr & Hdec).
      exists name, row. split; [by eapply list_elem_of_lookup_2|done].
    + intros (name & row & Hin & Hdec). apply list_elem_of_lookup in Hin as [i Hi].
      destruct (Forall2_lookup_l _ _ _ _ _ Hrun Hi) as (v' & Hv' & Hdec').
      simpl in Hdec'. rewrite Hdec in Hdec'. injection Hdec' as <-.
      by eapply list_elem_of_lookup_2.
Qed.

Lemma rows_to_voices_total (rows : list (string * VoiceRow.t)) :
  (∀ name row, (name, row) ∈ rows → ∃ v, _row_to_voice name row = inr v) →
  ∃ found, rows_to_voices rows = inr found.
Proof.
  induction rows as [|[name row] rows IH]; intros Hall; [by eexists|].
  cbn [rows_to_voices]. destruct (Hall name row) as [v ->]; [left|].
  destruct IH as [found ->]; [|by eexists].
  intros name' row' Hin. apply Hall. by right.
Qed.

(** The characters cached by a loop over rows that all decode. *)
Lemma loaded_characters_coherent (s : Store) (found : list Character.t)
    (id : string) :
  rows_to_characters (map_to_list (characters s)) = inr found →
  (inr <$>
     foldl (λ m kr, match (match _row_to_character kr.1 kr.2 with
                           | inr c => Some c
                           | inl _ => None
                           end) with
                    | Some w => <[kr.1 := w]> m
                    | None => m
                    end) (∅ : gmap string Character.t)
       (map_to_list (characters s)) !! id
   : option (exn + Character.t))
  = _row_to_character id <$> characters s !! id.
Proof.
  intros Hrows. apply rows_to_characters_elem in Hrows as (_ & Hall & _).
  rewrite (table_rows_lookup
             (λ k v, match _row_to_character k v with
                     | inr c => Some c
                     | inl _ => None
                     end)).
  destruct (characters s !! id) as [row|] eqn:Hrow; cbn; [|done].
  destruct (Hall id row) as [c ->]; [by apply elem_of_map_to_list|]. done.
Qed.

(** The voices cached by a loop over rows that all decode. *)
Lemma loaded_voices_coherent (s : Store) (found : list Voice.t) (name : string) :
  rows_to_voices (map_to_list (voices s)) = inr found →
  (inr <$>
     foldl (λ m kr, match (match _row_to_voice kr.1 kr.2 with
                           | inr v => Some (voice_entry v)
                           | inl _ => None
                           end) with
                    | Some w => <[kr.1 := w]> m
                    | None => m
                    end) (∅ : gmap string VoiceEntry)
       (map_to_list (voices s)) !! name
   : option (exn + VoiceEntry))
  = row_voice_entry name <$> voices s !! name.
Proof.
  intros Hrows. apply rows_to_voices_elem in Hrows as (_ & Hall & _).
  rewrite (table_rows_lookup
             (λ k v, match _row_to_voice k v with
                     | inr v => Some (voice_entry v)
                     | inl _ => None
                     end)).
  destruct (voices s !! name) as [row|] eqn:Hrow; cbn; [|done].
  unfold row_voice_entry.
  destruct (Hall name row) as [v ->]; [by apply elem_of_map_to_list|]. done.
Qed.

(** The two caches right after a warm-up that returned. *)
Lemma init_database_returns (s : Store) (found : list Character.t)
    (heard : list Voice.t) :
  online s = true →
  rows_to_characters (map_to_list (characters s)) = inr found →
  rows_to_voices (map_to_list (voices s)) = inr heard →
  ∃ d',
    init_database (new_director s) = (inr tt, d') ∧
    _cache_loaded d' = true ∧ store d' = s ∧ tasks d' = [] ∧
    (∀ id, character_coherent id d') ∧
    (∀ name, voice_coherent name d') ∧
    (∀ id, _character_cache d' !! id
           = characters s !! id ≫=
               λ row, match _row_to_character id row with
                      | inr c => Some c
                      | inl _ => None
                      end) ∧
    (∀ name, _voice_cache d' !! name
             = voices s !! name ≫=
                 λ row, match _row_to_voice name row with
                        | inr v => Some (voice_entry v)
                        | inl _ => None
                        end).
Proof.
  intros Hon Hrows Hvoices. eexists. split.
  { unfold init_database, _load_caches.
    unfold mbind, M_bind, bind. rewrite !connect_query by done.
    pose proof (load_characters_run (map_to_list (characters s)) (new_director s))
      as Hload.
    cbn [store new_director] in *. rewrite Hrows in Hload. rewrite Hload.
    match goal with
    | |- context [load_voices ?rows ?d] =>
        pose proof (load_voices_run rows d) as Hheard
    end.
    rewrite Hvoices in Hheard. rewrite Hheard. done. }
  cbn. split; [done|]. split; [done|]. split; [done|].
  split; [|split; [|split]].
  - intros id. unfold character_coherent. cbn.
    by eapply loaded_characters_coherent.
  - intros name. unfold voice_coherent. cbn. by eapply loaded_voices_coherent.
  - intros id.
    rewrite (table_rows_lookup
               (λ k v, match _row_to_character k v with
                       | inr c => Some c
                       | inl _ => None
                       end)).
    by destruct (_ ≫= _).
  - intros name.
    rewrite (table_rows_lookup
               (λ k v, match _row_to_voice k v with
                       | inr v => Some (voice_entry v)
                       | inl _ => None
                       end)).
    by destruct (_ ≫= _).
Qed.

(** A character row that does not decode stops the warm-up in the first
    loop. *)
Lemma init_database_raises (s : Store) (e : exn) :
  online s = true →
  rows_to_characters (map_to_list (characters s)) = inl e →
  ∃ cache,
    init_database (new_director s) = (inl e, mkDirector s cache ∅ false []).
Proof.
  intros Hon Hrows. unfold init_database, _load_caches.
  unfold mbind, M_bind, bind. rewrite !connect_query by done.
  pose proof (load_characters_run (map_to_list (characters s)) (new_director s))
    as Hload.
  cbn [store new_director] in *. rewrite Hrows in Hload.
  destruct Hload as [cache ->]. by exists cache.
Qed.

(** A voice row that does not decode stops it in the second loop, with every
    character cached and the voices before that row. *)
Lemma init_database_voice_raises (s : Store) (found : list Character.t) (e : exn) :
  online s = true →
  rows_to_characters (map_to_list (characters s)) = inr found →
  rows_to_voices (map_to_list (voices s)) = inl e →
  ∃ d',
    init_database (new_director s) = (inl e, d') ∧
    _cache_loaded d' = false ∧ store d' = s ∧ tasks d' = [] ∧
    (∀ id, character_coherent id d') ∧
    (∀ name entry,
       _voice_cache d' !! name = Some entry →
       ∃ row, voices s !! name = Some row ∧ row_voice_entry name row = inr entry).
Proof.
  intros Hon Hrows Hvoices.
  pose proof (load_characters_run (map_to_list (characters s)) (new_director s))
    as Hload.
  cbn [store new_director] in *. rewrite Hrows in Hload.
  match type of Hload with
  | _ = (_, ?d1) =>
      pose proof (load_voices_run (map_to_list (voices s)) d1) as Hheard
  end.
  rewrite Hvoices in Hheard. destruct Hheard as (cache & Hheard & Hcache).
  eexists. split.
  { unfold init_database, _load_caches.
    unfold mbind, M_bind, bind. rewrite !connect_query by done.
    cbn [store new_director]. rewrite Hload, Hheard. done. }
  cbn. split; [done|]. split; [done|]. split; [done|]. split.
  - intros id. unfold character_coherent. cbn.
    by eapply loaded_characters_coherent.
  - intros name entry Hentry.
    destruct (Hcache name entry Hentry) as [Hold|(row & v & Hin & Hrow & ->)].
    { cbn in Hold. by rewrite lookup_empty in Hold. }
    apply elem_of_map_to_list in Hin. exists row. split; [done|].
    unfold row_voice_entry. by rewrite Hrow.
Qed.

(** X16.  [init_database] on a new director over a store that answers.  When
    every stored character and every stored voice decodes, it returns with
    the caches marked as loaded, and then every character and every voice is
    cached as its stored row decodes and nothing else is cached.  When some
    stored row does not decode, it raises the error of the decoding as it
    is, not the 500, and the caches stay marked as not loaded: for a
    character row, with no voice cached; for a voice row, with every
    character cached as its stored row decodes and with the voices cached
    that the loop had reached, each as its stored row decodes. *)
Theorem init_database_warms (s : Store) :
  online s = true →
  match init_database (new_director s) with
  | (inr _, d') =>
      _cache_loaded d' = true ∧ store d' = s ∧ tasks d' = [] ∧
      (∀ id, character_coherent id d') ∧
      (∀ name, voice_coherent name d') ∧
      (∀ id row, characters s !! id = Some row →
                 ∃ c, _row_to_character id row = inr c) ∧
      (∀ name row, voices s !! name = Some row →
                   ∃ v, _row_to_voice name row = inr v)
  | (inl e, d') =>
      _cache_loaded d' = false ∧ store d' = s ∧
      is_decoding_error e = true ∧
      (((∃ id row, characters s !! id = Some row ∧
                   _row_to_character id row = inl e) ∧
        _voice_cache d' = ∅) ∨
       ((∃ name row, voices s !! name = Some row ∧
                     _row_to_voice name row = inl e) ∧
        (∀ id, character_coherent id d') ∧
        (∀ name entry,
           _voice_cache d' !! name = Some entry →
           ∃ row, voices s !! name = Some row ∧
                  row_voice_entry name row = inr entry)))
  end.
Proof.
  intros Hon.
  destruct (rows_to_characters (map_to_list (characters s))) as [e|cs] eqn:Hrows.
  { destruct (init_database_raises s e Hon Hrows) as [cache ->]. cbn.
    apply rows_to_characters_inl in Hrows as (id & row & Hin & Hbad).
    apply elem_of_map_to_list in Hin.
    split; [done|]. split; [done|].
    split; [by eapply row_to_character_error|]. left. eauto. }
  destruct (rows_to_voices (map_to_list (voices s))) as [e|vs] eqn:Hvoices.
  { destruct (init_database_voice_raises s cs e Hon Hrows Hvoices)
      as (d' & -> & Hloaded & Hstore & _ & Hcharacters & Hcached).
    apply rows_to_voices_inl in Hvoices as (name & row & Hin & Hbad).
    apply elem_of_map_to_list in Hin.
    split; [done|]. split; [done|].
    split; [by eapply row_to_voice_error|]. right.
    split; [eauto|]. split; [exact Hcharacters|exact Hcached]. }
  destruct (init_database_returns s cs vs Hon Hrows Hvoices)
    as (d' & -> & Hloaded & Hstore & Htasks & Hcharacters & Hcached & _).
  apply rows_to_characters_elem in Hrows as (_ & Hall & _).
  apply rows_to_voices_elem in Hvoices as (_ & Hheard & _).
  split; [done|]. split; [done|]. split; [done|]. split; [done|]. split; [done|].
  split.
  - intros id row Hrow. apply Hall. by apply elem_of_map_to_list.
  - intros name row Hrow. apply Hheard. by apply elem_of_map_to_list.
Qed.

(** What [refresh_voice_cache] leaves on a store that answers and whose
    voice rows all decode. *)
Lemma refresh_voice_cache_online (d : Director) (heard : list Voice.t) :
  online (store d) = true →
  rows_to_voices (map_to_list (voices (store d))) = inr heard →
  ∃ d',
    refresh_voice_cache d = (inr tt, d') ∧
    (∀ name, voice_coherent name d') ∧
    store d' = store d ∧
    _character_cache d' = _character_cache d ∧
    _cache_loaded d' = _cache_loaded d ∧
    tasks d' = tasks d.
Proof.
  intros Hon Hvoices. eexists. split.
  { unfold refresh_voice_cache. unfold mbind, M_bind, bind, modify.
    rewrite connect_query by done. cbn [store with_voice_cache].
    match goal with
    | |- context [load_voices ?rows ?d] =>
        pose proof (load_voices_run rows d) as Hheard
    end.
    rewrite Hvoices in Hheard. rewrite Hheard. done. }
  split; [|done]. intros name. unfold voice_coherent. cbn.
  by eapply loaded_voices_coherent.
Qed.

(** X17.  [refresh_voice_cache] empties the voice cache and loads it from
    the store.  When the store answers and every stored voice decodes, every
    voice is then cached as its stored row decodes and nothing else is, so
    audio tokens that were only in the cache are gone.  When a stored voice
    does not decode, the call raises the error of the decoding as it is, and
    the cache holds the voices the loop had reached, each as its stored row
    decodes.  When the store does not answer, the call raises the storage
    error as it is and leaves the voice cache empty.  The store, the
    character cache and the mark of the loaded caches are as before in each
    case. *)
Theorem refresh_voice_cache_reloads (d : Director) :
  (online (store d) = true →
   match refresh_voice_cache d with
   | (inr _, d') =>
       (∀ name, voice_coherent name d') ∧
       store d' = store d ∧
       _character_cache d' = _character_cache d ∧
       _cache_loaded d' = _cache_loaded d
   | (inl e, d') =>
       is_decoding_error e = true ∧
       (∃ name row, voices (store d) !! name = Some row ∧
                    _row_to_voice name row = inl e) ∧
       (∀ name entry,
          _voice_cache d' !! name = Some entry →
          ∃ row, voices (store d) !! name = Some row ∧
                 row_voice_entry name row = inr entry) ∧
       store d' = store d ∧
       _character_cache d' = _character_cache d ∧
       _cache_loaded d' = _cache_loaded d
   end) ∧
  (online (store d) = false →
   refresh_voice_cache d
   = (inl (DatabaseError "unable to open database file"), with_voice_cache ∅ d)).
Proof.
  split; intros Hon.
  - destruct (rows_to_voices (map_to_list (voices (store d)))) as [e|vs] eqn:Hvoices.
    + unfold refresh_voice_cache. unfold mbind, M_bind, bind, modify.
      rewrite connect_query by done. cbn [store with_voice_cache].
      pose proof (load_voices_run (map_to_list (voices (store d)))
                    (with_voice_cache ∅ d)) as Hheard.
      rewrite Hvoices in Hheard. destruct Hheard as (cache & -> & Hcache). cbn.
      apply rows_to_voices_inl in Hvoices as (name & row & Hin & Hbad).
      apply elem_of_map_to_list in Hin.
      split; [by eapply row_to_voice_error|]. split; [eauto|]. split; [|done].
      intros name' entry Hentry.
      destruct (Hcache name' entry Hentry) as [Hold|(row' & v & Hin' & Hrow & ->)].
      { cbn in Hold. by rewrite lookup_empty in Hold. }
      apply elem_of_map_to_list in Hin'. exists row'. split; [done|].
      unfold row_voice_entry. by rewrite Hrow.
    + destruct (refresh_voice_cache_online d vs Hon Hvoices)
        as (d' & -> & Hcoherent & Hstore & Hcache & Hloaded & _).
      by repeat split.
  - unfold refresh_voice_cache. unfold mbind, M_bind, bind, modify.
    by rewrite connect_offline.
Qed.

(** X18.  [refresh_character_cache] empties the character cache and loads
    it from the store.  When the store answers and every stored character
    decodes, every character is then cached as its stored row decodes and
    nothing else is.  When a stored character does not decode, the call
    raises the error of the decoding as it is.  When the store does not
    answer, it raises the storage error as it is and leaves the character
    cache empty.  The store, the voice cache and the mark of the loaded
    caches are as before in each case. *)
Theorem refresh_character_cache_reloads (d : Director) :
  (online (store d) = true →
   match refresh_character_cache d with
   | (inr _, d') =>
       (∀ id, character_coherent id d') ∧
       store d' = store d ∧
       _voice_cache d' = _voice_cache d ∧
       _cache_loaded d' = _cache_loaded d
   | (inl e, d') =>
       is_decoding_error e = true ∧
       (∃ id row, characters (store d) !! id = Some row ∧
                  _row_to_character id row = inl e) ∧
       store d' = store d ∧
       _voice_cache d' = _voice_cache d ∧
       _cache_loaded d' = _cache_loaded d
   end) ∧
  (online (store d) = false →
   refresh_character_cache d
   = (inl (DatabaseError "unable to open database file"),
      with_character_cache ∅ d)).
Proof.
  split; intros Hon.
  - unfold refresh_character_cache. unfold mbind, M_bind, bind, modify.
    rewrite connect_query by done. cbn [store with_character_cache].
    pose proof (load_characters_run (map_to_list (characters (store d)))
                  (with_character_cache ∅ d)) as Hload.
    destruct (rows_to_characters (map_to_list (characters (store d))))
      as [e|cs] eqn:Hrows.
    + destruct Hload as [cache ->]. cbn.
      apply rows_to_characters_inl in Hrows as (id & row & Hin & Hbad).
      apply elem_of_map_to_list in Hin.
      split; [by eapply row_to_character_error|]. split; [eauto|done].
    + rewrite Hload. cbn. split; [|done].
      intros id. unfold character_coherent. cbn.
      by eapply loaded_characters_coherent.
  - unfold refresh_character_cache. unfold mbind, M_bind, bind, modify.
    by rewrite connect_offline.
Qed.

(** A warm-up that returned has decoded every row and cached it. *)
Lemma init_database_inr (s : Store) (d' : Director) :
  online s = true →
  init_database (new_director s) = (inr tt, d') →
  ∃ found heard,
    rows_to_characters (map_to_list (characters s)) = inr found ∧
    rows_to_voices (map_to_list (voices s)) = inr heard ∧
    _cache_loaded d' = true ∧ store d' = s ∧
    (∀ id, _character_cache d' !! id
           = characters s !! id ≫=
               λ row, match _row_to_character id row with
                      | inr c => Some c
                      | inl _ => None
                      end) ∧
    (∀ name, _voice_cache d' !! name
             = voices s !! name ≫=
                 λ row, match _row_to_voice name row with
                        | inr v => Some (voice_entry v)
                        | inl _ => None
                        end).
Proof.
  intros Hon Hinit.
  destruct (rows_to_characters (map_to_list (characters s))) as [e|cs] eqn:Hrows.
  { destruct (init_database_raises s e Hon Hrows) as [cache Hraise].
    rewrite Hraise in Hinit. done. }
  destruct (rows_to_voices (map_to_list (voices s))) as [e|vs] eqn:Hvoices.
  { destruct (init_database_voice_raises s cs e Hon Hrows Hvoices)
      as (d0 & Hraise & _). rewrite Hraise in Hinit. done. }
  destruct (init_database_returns s cs vs Hon Hrows Hvoices)
    as (d0 & Hrun & Hloaded & Hstore & _ & _ & _ & Hcharacters & Hcached).
  rewrite Hrun in Hinit. injection Hinit as ->.
  exists cs, vs. by repeat split.
Qed.

End Loading.

Lemma init_database_warms_witness :
  online Scenario.studio_store = true ∧
  _cache_loaded (snd (@init_database RefJson.codec (new_director Scenario.studio_store)))
  = true ∧
  @character_coherent RefJson.codec "robot-001"
    (snd (@init_database RefJson.codec (new_director Scenario.studio_store))) ∧
  @voice_coherent RefJson.codec "aria"
    (snd (@init_database RefJson.codec (new_director Scenario.studio_store))).
Proof.
  split; [reflexivity|].
  pose proof (@init_database_warms RefJson.codec Scenario.studio_store eq_refl) as Hthm.
  assert (fst (@init_database RefJson.codec (new_director Scenario.studio_store))
          = inr tt) as Hval by (vm_compute; reflexivity).
  destruct (@init_database RefJson.codec (new_director Scenario.studio_store))
    as [[e|u] d']; [discriminate Hval|].
  destruct Hthm as (Hloaded & _ & _ & Hcharacters & Hvoices & _).
  split; [exact Hloaded|]. split; [apply Hcharacters|apply Hvoices].
Defined.

(** On the never-warmed director whose cache alone holds the new audio
    tokens of [aria], the refresh returns and the tokens are gone. *)
Lemma refresh_voice_cache_reloads_witness :
  online (store Scenario.unwarmed_tokens) = true ∧
  get_cached_audio_tokens "aria" Scenario.unwarmed_tokens = Scenario.tokens ∧
  @voice_coherent RefJson.codec "aria"
    (snd (@refresh_voice_cache RefJson.codec Scenario.unwarmed_tokens)) ∧
  get_cached_audio_tokens "aria"
    (snd (@refresh_voice_cache RefJson.codec Scenario.unwarmed_tokens))
  = JNull.
Proof.
  split; [reflexivity|]. split; [vm_compute; reflexivity|].
  destruct (@refresh_voice_cache_reloads RefJson.codec Scenario.unwarmed_tokens)
    as [Honline _].
  specialize (Honline eq_refl).
  assert (fst (@refresh_voice_cache RefJson.codec Scenario.unwarmed_tokens)
          = inr tt) as Hval by (vm_compute; reflexivity).
  split.
  - destruct (@refresh_voice_cache RefJson.codec Scenario.unwarmed_tokens)
      as [[e|u] d']; [discriminate Hval|].
    destruct Honline as (Hcoherent & _). apply Hcoherent.
  - vm_compute. reflexivity.
Defined.

(** A stored character whose images are not JSON stops the warm-up with the
    error of the decoding. *)
Example init_database_bad_images :
  raised (@init_database RefJson.codec
            (new_director
               (with_characters
                  {["robot-001" :=
                      CharacterRow.mk "Robot" None None None (Some "oops") (Some 0)
                        None None None]}
                  Scenario.studio_store)))
  = Some (JSONDecodeError "Expecting value: line 1 column 1 (char 0)").
Proof. vm_compute. reflexivity. Qed.

(** A stored voice whose audio tokens are nested too deep stops the warm-up
    with the [RecursionError] of the reader: the caches are not marked as
    loaded, though the character is cached.  The same row stops
    [refresh_voice_cache], and a lookup of that voice gives the storage
    failure. *)
Example init_database_deep_tokens :
  raised (@init_database FullJson.codec (new_director Cases.deep_store))
  = Some (loads_exn FullJson.too_deep) ∧
  _cache_loaded (snd (@init_database FullJson.codec (new_director Cases.deep_store)))
  = false ∧
  is_Some
    (_character_cache
       (snd (@init_database FullJson.codec (new_director Cases.deep_store)))
       !! "robot-001") ∧
  raised (@refresh_voice_cache FullJson.codec (new_director Cases.deep_store))
  = Some (loads_exn FullJson.too_deep) ∧
  raised (@get_voice FullJson.codec "echo" (new_director Cases.deep_store))
  = Some (database_error (loads_exn FullJson.too_deep)).
Proof.
  split; [vm_compute; reflexivity|]. split; [vm_compute; reflexivity|].
  split; [vm_compute; eauto|]. split; vm_compute; reflexivity.
Qed.

(** A text that is not JSON is no error for a voice: it is passed through
    as the audio tokens. *)
Example voice_tokens_passed_through :
  Voice.audio_tokens <$>
    returned (@get_voice FullJson.codec "aria"
                (new_director
                   (with_voices
                      {["aria" :=
                          VoiceRow.mk None None None None None (Some "oops") None
                            None None]}
                      empty_store)))
  = Some (JStr "oops").
Proof. vm_compute. reflexivity. Qed.

(** ** Voices and their audio tokens *)

Section Voices.
Context `{JsonCodec}.

Lemma cached_voice_Some (voice_name : string) (entry : VoiceEntry) (d : Director) :
  cached_voice voice_name d = Some entry ↔
  _cache_loaded d = true ∧ _voice_cache d !! voice_name = Some entry.
Proof.
  unfold cached_voice. destruct (_cache_loaded d).
  - split; [done|by intros [_ ?]].
  - split; [done|by intros [? _]].
Qed.

(** X19.  New audio tokens given for a cached voice reach
    [get_cached_audio_tokens] at once and the store only through a task that
    is left pending.  They do not reach the voice that [get_voice] returns:
    it is the same after the call as before it. *)
Theorem cached_tokens_leave_config (voice_name : string) (audio_tokens : json)
    (entry : VoiceEntry) (d : Director) :
  cached_voice voice_name d = Some entry →
  ∃ d1,
    update_cached_audio_tokens voice_name audio_tokens d = (inr tt, d1) ∧
    get_cached_audio_tokens voice_name d1 = audio_tokens ∧
    get_voice voice_name d = (inr (config entry), d) ∧
    get_voice voice_name d1 = (inr (config entry), d1) ∧
    store d1 = store d ∧
    tasks d1 = tasks d ++ [PersistAudioTokens voice_name audio_tokens].
Proof.
  intros Hhit. pose proof Hhit as Hcached.
  apply cached_voice_Some in Hcached as [Hloaded Hentry].
  rewrite (update_cached_audio_tokens_present _ _ entry) by done.
  eexists. split; [done|].
  split; [|split; [|split; [|done]]].
  - unfold get_cached_audio_tokens. cbn. by rewrite lookup_insert_eq.
  - by apply get_voice_hit.
  - rewrite (get_voice_hit voice_name (mkVoiceEntry (config entry) audio_tokens));
      [done|].
    apply cached_voice_Some. cbn. split; [done|]. by rewrite lookup_insert_eq.
Qed.

(** X20.  Audio tokens given for a voice that is cached and stored survive
    a reload of the cache once their task has run: the task writes them to
    the row of the voice, [refresh_voice_cache] returns, and after it both
    [get_cached_audio_tokens] and the cached voice carry them.  This is
    given that [json] loads back what it dumped of them, and that every
    other stored voice decodes, without which the reload raises. *)
Theorem tokens_survive_refresh (now stamp : string) (uuid4 : nat → string)
    (voice_name : string) (audio_tokens : json) (entry : VoiceEntry)
    (row : VoiceRow.t) (d : Director) :
  _voice_cache d !! voice_name = Some entry →
  voices (store d) !! voice_name = Some row →
  online (store d) = true →
  tasks d = [] →
  Py.truthy (json_dumps audio_tokens) = true →
  json_loads (json_dumps audio_tokens) = inr audio_tokens →
  (∀ name other, name ≠ voice_name → voices (store d) !! name = Some other →
                 ∃ voice, _row_to_voice name other = inr voice) →
  let d1 := snd (update_cached_audio_tokens voice_name audio_tokens d) in
  let d2 := snd (run_next now stamp uuid4 d1) in
  let d3 := snd (refresh_voice_cache d2) in
  tasks d2 = [] ∧
  VoiceRow.audio_tokens <$> voices (store d2) !! voice_name
  = Some (Some (json_dumps audio_tokens)) ∧
  fst (refresh_voice_cache d2) = inr tt ∧
  get_cached_audio_tokens voice_name d3 = audio_tokens ∧
  Voice.audio_tokens ∘ config <$> _voice_cache d3 !! voice_name = Some audio_tokens.
Proof.
  intros Hentry Hrow Hon Hidle Htruthy Hloads Hothers d1 d2 d3.
  set (written := VoiceRow.mk (VoiceRow.method row) (VoiceRow.audio_path row)
                    (VoiceRow.text_path row) (VoiceRow.speaker_desc row)
                    (VoiceRow.scene_prompt row)
                    (Some (json_dumps audio_tokens)) (VoiceRow.id row)
                    (VoiceRow.created_at row) (Some now)).
  assert (tasks d2 = [] ∧
          store d2 = with_voices
                       (<[voice_name := written]>
                          (delete voice_name (voices (store d)))) (store d))
    as [Htasks Hstore].
  { unfold d2, d1. rewrite (update_cached_audio_tokens_present _ _ entry) by done.
    unfold run_next. unfold mbind, M_bind, bind, gets, modify.
    cbn [snd tasks with_tasks with_voice_cache]. rewrite Hidle. cbn [app run_task].
    unfold _persist_audio_tokens, try_except.
    rewrite connect_online by done. cbn [store with_tasks with_voice_cache].
    unfold execute_checked, Sql_stmt.update_voice. rewrite Hrow.
    unfold written. destruct row. cbn.
    rewrite bool_decide_eq_false_2 by (by intros ?). done. }
  split; [done|]. split.
  { rewrite Hstore. cbn. by rewrite lookup_insert_eq. }
  assert (online (store d2) = true) as Hon2 by (by rewrite Hstore).
  assert (∃ voice, _row_to_voice voice_name written = inr voice ∧
                   Voice.audio_tokens voice = audio_tokens) as (voice & Hdec & Htok).
  { unfold _row_to_voice, decode_audio_tokens, written. cbn.
    rewrite Htruthy, Hloads. eauto. }
  destruct (rows_to_voices_total (map_to_list (voices (store d2)))) as [heard Hheard].
  { intros name other Hin. apply elem_of_map_to_list in Hin.
    rewrite Hstore in Hin. cbn in Hin.
    destruct (decide (name = voice_name)) as [->|Hne].
    - rewrite lookup_insert_eq in Hin. injection Hin as <-. eauto.
    - rewrite lookup_insert_ne, lookup_delete_ne in Hin by done. eauto. }
  destruct (refresh_voice_cache_online d2 heard Hon2 Hheard)
    as (d' & Hrun & Hcoherent & Hs & _).
  split; [by rewrite Hrun|].
  assert (d3 = d') as -> by (unfold d3; by rewrite Hrun).
  specialize (Hcoherent voice_name). unfold voice_coherent in Hcoherent.
  rewrite Hs, Hstore in Hcoherent. cbn in Hcoherent.
  rewrite lookup_insert_eq in Hcoherent. cbn in Hcoherent.
  unfold row_voice_entry in Hcoherent. rewrite Hdec in Hcoherent.
  unfold get_cached_audio_tokens.
  destruct (_voice_cache d' !! voice_name) as [cached|]; [|done].
  injection Hcoherent as ->. cbn. by rewrite Htok.
Qed.

(** X21.  A voice that [delete_voice] deleted is gone from the store and
    from the cache, and looking it up afterwards raises the 404.  Every
    stored character that spoke with it has the empty text as its voice and
    the time of the deletion as its time of update; the other stored
    characters are as before. *)
Theorem delete_voice_detaches (now voice_name : string) (d d' : Director) (b : bool) :
  delete_voice now voice_name d = (inr b, d') →
  b = true ∧
  voices (store d') = delete voice_name (voices (store d)) ∧
  _voice_cache d' !! voice_name = None ∧
  get_voice voice_name d' = (inl (not_found "Voice"), d') ∧
  ∀ id,
    characters (store d') !! id
    = (λ row, if bool_decide (CharacterRow.voice row = Some voice_name)
              then foldl character_assign row [CSetVoice ""; CSetUpdatedAt now]
              else row) <$> characters (store d) !! id.
Proof.
  intros Hrun. unfold delete_voice in Hrun.
  apply except_http_reraise_inr, bind_inr in Hrun as (v0 & d1 & Hget & Hrun).
  apply get_voice_inr in Hget as (Hstore & _).
  apply bind_inr in Hrun as (u1 & d2 & Hdel & Hrun).
  apply connect_inr in Hdel as (Hon & s2 & Hdel & ->).
  apply execute_inr in Hdel as ->.
  apply bind_inr in Hrun as (u2 & d3 & Hm1 & Hrun). apply modify_inr in Hm1 as ->.
  apply bind_inr in Hrun as (u3 & d4 & Hm2 & Hrun). apply modify_inr in Hm2 as ->.
  apply mret_inr in Hrun as [-> ->]. rewrite Hstore in *.
  assert (∀ d0 : Director,
            store (if _cache_loaded d0
                   then with_character_cache
                          (retarget_cached "" now voice_name (_character_cache d0)) d0
                   else d0) = store d0 ∧
            _voice_cache (if _cache_loaded d0
                          then with_character_cache
                                 (retarget_cached "" now voice_name (_character_cache d0)) d0
                          else d0) = _voice_cache d0) as Hsame.
  { intros d0. by destruct (_cache_loaded d0). }
  match goal with |- context [store ?x] =>
    match x with context [retarget_cached] => set (final := x) end end.
  assert (store final = Sql_stmt.retarget_characters "" now voice_name
                          (Sql_stmt.delete_voice voice_name (store d))) as Hfinal.
  { unfold final. by rewrite (proj1 (Hsame _)). }
  assert (_voice_cache final !! voice_name = None) as Hcache.
  { unfold final. rewrite (proj2 (Hsame _)). cbn. apply lookup_delete_eq. }
  split; [done|]. rewrite Hfinal. split; [done|]. split; [done|]. split.
  - apply get_voice_missing.
    + unfold cached_voice. rewrite Hcache. by destruct (_cache_loaded final).
    + by rewrite Hfinal.
    + rewrite Hfinal. cbn. apply lookup_delete_eq.
  - intros id. by rewrite retarget_characters_lookup.
Qed.

(** X22.  A voice that [create_voice] returned is what [get_voice] returns
    for its name afterwards, whether the caches were loaded or not.  Its
    name is the name given without the blanks around it, and is not
    empty. *)
Theorem create_then_get_voice (now uuid4 : string) (voice_data : VoiceCreate.t)
    (d d' : Director) (voice : Voice.t) :
  create_voice now uuid4 voice_data d = (inr voice, d') →
  Voice.voice voice = Py.strip Py.isspace (VoiceCreate.voice voice_data) ∧
  Voice.voice voice ≠ "" ∧
  Voice.id voice = Some uuid4 ∧
  get_voice (Voice.voice voice) d' = (inr voice, d').
Proof.
  intros Hrun. unfold create_voice in Hrun.
  apply except_exception_inr in Hrun. cbv zeta in Hrun.
  destruct (Py.truthy (Py.strip Py.isspace (VoiceCreate.voice voice_data)))
    eqn:Hname; [|done]. cbn [negb] in Hrun.
  apply bind_inr in Hrun as (hit & d1 & Hhit & Hrun).
  injection Hhit as <- <-.
  destruct (cached_voice _ d) as [entry|] eqn:Hmiss; [done|].
  apply bind_inr in Hrun as (u1 & d2 & Hins & Hrun).
  apply connect_inr in Hins as (Hon & s2 & Hins & ->).
  apply execute_checked_inr, insert_voice_inr in Hins as ->.
  apply bind_inr in Hrun as (u2 & d3 & Hmod & Hrun). apply modify_inr in Hmod as ->.
  apply mret_inr in Hrun as [-> ->]. cbn [Voice.voice Voice.id].
  set (name := Py.strip Py.isspace (VoiceCreate.voice voice_data)) in *.
  split; [done|]. split; [by destruct name|]. split; [done|].
  match goal with |- get_voice _ ?x = (inr ?v, _) => set (final := x); set (made := v) end.
  destruct (_cache_loaded d) eqn:Hloaded.
  - rewrite (get_voice_hit name (mkVoiceEntry made JNull)); [done|].
    apply cached_voice_Some. cbn. split; [done|]. by rewrite lookup_insert_eq.
  - rewrite (get_voice_found name
               (VoiceRow.mk (Some (VoiceCreate.method voice_data))
                  (Some (VoiceCreate.audio_path voice_data))
                  (Some (VoiceCreate.text_path voice_data))
                  (Some (VoiceCreate.speaker_desc voice_data))
                  (Some (VoiceCreate.scene_prompt voice_data))
                  None (Some uuid4) (Some now) (Some now))).
    + f_equal. unfold final. cbn. unfold with_voice_cache. cbn.
      by rewrite insert_insert_eq.
    + unfold cached_voice, final. cbn. by rewrite Hloaded.
    + done.
    + unfold final. cbn. apply lookup_insert_eq.
Qed.

End Voices.

Lemma cached_tokens_leave_config_witness :
  is_Some (cached_voice "aria" Scenario.studio) ∧
  ∃ d1 voice,
    update_cached_audio_tokens "aria" Scenario.tokens Scenario.studio = (inr tt, d1) ∧
    get_cached_audio_tokens "aria" d1 = Scenario.tokens ∧
    @get_voice RefJson.codec "aria" d1 = (inr voice, d1) ∧
    Voice.audio_tokens voice = JNull.
Proof.
  assert (is_Some (cached_voice "aria" Scenario.studio)) as Hcached
    by (vm_compute; eauto).
  split; [exact Hcached|]. destruct Hcached as [entry Hentry].
  destruct (@cached_tokens_leave_config RefJson.codec "aria" Scenario.tokens entry
              Scenario.studio Hentry) as (d1 & Hrun & Htokens & _ & Hget & _).
  exists d1, (config entry). split; [exact Hrun|]. split; [exact Htokens|].
  split; [exact Hget|].
  assert (Voice.audio_tokens ∘ config <$> cached_voice "aria" Scenario.studio
          = Some JNull) as Hold by (vm_compute; reflexivity).
  rewrite Hentry in Hold. by injection Hold.
Defined.

Lemma tokens_survive_refresh_witness :
  is_Some (_voice_cache Scenario.studio !! "aria") ∧
  is_Some (voices (store Scenario.studio) !! "aria") ∧
  online (store Scenario.studio) = true ∧
  tasks Scenario.studio = [] ∧
  @json_loads FullJson.codec (@json_dumps FullJson.codec Scenario.tokens)
  = inr Scenario.tokens ∧
  get_cached_audio_tokens "aria"
    (snd (@refresh_voice_cache FullJson.codec
            (snd (@run_next FullJson.codec "2024-01-02T10:00:00" "2024-01-02 10:00"
                    Cases.ids
                    (snd (update_cached_audio_tokens "aria" Scenario.tokens
                            Scenario.studio))))))
  = Scenario.tokens.
Proof.
  assert (is_Some (_voice_cache Scenario.studio !! "aria")) as Hcached
    by (vm_compute; eauto).
  assert (is_Some (voices (store Scenario.studio) !! "aria")) as Hstored
    by (vm_compute; eauto).
  split; [exact Hcached|]. split; [exact Hstored|]. split; [reflexivity|].
  split; [reflexivity|]. split; [vm_compute; reflexivity|].
  destruct Hcached as [entry Hentry]. destruct Hstored as [row Hrow].
  destruct (@tokens_survive_refresh FullJson.codec "2024-01-02T10:00:00"
              "2024-01-02 10:00" Cases.ids "aria" Scenario.tokens entry row
              Scenario.studio Hentry Hrow) as (_ & _ & _ & Htokens & _).
  - reflexivity.
  - reflexivity.
  - vm_compute. reflexivity.
  - vm_compute. reflexivity.
  - intros name other Hne Hother.
    assert (voices (store Scenario.studio)
            = <["nova" := Scenario.nova_row]> {["aria" := Scenario.aria_row]})
      as Hvoices by (vm_compute; reflexivity).
    rewrite Hvoices in Hother.
    apply lookup_insert_Some in Hother as [[<- <-]|[_ Hother]].
    + eexists. vm_compute. reflexivity.
    + apply lookup_singleton_Some in Hother as [<- _]. exfalso. by apply Hne.
  - exact Htokens.
Defined.

Lemma delete_voice_detaches_witness :
  fst (@delete_voice RefJson.codec Scenario.now "aria" Scenario.studio) = inr true ∧
  @get_voice RefJson.codec "aria"
    (snd (@delete_voice RefJson.codec Scenario.now "aria" Scenario.studio))
  = (inl (not_found "Voice"),
     snd (@delete_voice RefJson.codec Scenario.now "aria" Scenario.studio)) ∧
  CharacterRow.voice <$>
    characters
      (store (snd (@delete_voice RefJson.codec Scenario.now "aria" Scenario.studio)))
    !! "robot-001"
  = Some (Some "").
Proof.
  assert (fst (@delete_voice RefJson.codec Scenario.now "aria" Scenario.studio)
          = inr true) as Hval by (vm_compute; reflexivity).
  split; [exact Hval|].
  destruct (@delete_voice RefJson.codec Scenario.now "aria" Scenario.studio)
    as [r d'] eqn:Hrun.
  simpl in Hval. subst r. cbn [snd].
  destruct (@delete_voice_detaches RefJson.codec Scenario.now "aria" Scenario.studio
              d' true Hrun) as (_ & _ & _ & Hget & Hrows).
  split; [exact Hget|]. rewrite Hrows. vm_compute. reflexivity.
Defined.

Lemma create_then_get_voice_witness :
  ∃ voice d',
    create_voice Scenario.now "v-9" Cases.shout Cases.library = (inr voice, d') ∧
    Voice.voice voice = "echo" ∧
    @get_voice RefJson.codec "echo" d' = (inr voice, d').
Proof.
  assert (∃ voice, fst (create_voice Scenario.now "v-9" Cases.shout Cases.library)
                   = inr voice) as [voice Hval] by (vm_compute; eauto).
  destruct (create_voice Scenario.now "v-9" Cases.shout Cases.library)
    as [r d'] eqn:Hrun.
  simpl in Hval. subst r.
  destruct (@create_then_get_voice RefJson.codec Scenario.now "v-9" Cases.shout
              Cases.library d' voice Hrun) as (Hname & _ & _ & Hget).
  exists voice, d'. split; [reflexivity|].
  assert (Voice.voice voice = "echo") as Hecho.
  { rewrite Hname. vm_compute. reflexivity. }
  split; [exact Hecho|]. rewrite <-Hecho. exact Hget.
Defined.

(** ** Characters *)

Lemma cached_character_Some (character_id : string) (c : Character.t) (d : Director) :
  cached_character character_id d = Some c ↔
  _cache_loaded d = true ∧ _character_cache d !! character_id = Some c.
Proof.
  unfold cached_character. destruct (_cache_loaded d).
  - split; [done|by intros [_ ?]].
  - split; [done|by intros [? _]].
Qed.

Lemma elem_of_values {V} (cache : gmap string V) (v : V) :
  v ∈ values cache ↔ ∃ k, cache !! k = Some v.
Proof.
  unfold values. rewrite list_elem_of_fmap. split.
  - intros ([k v'] & -> & Hin). apply elem_of_map_to_list in Hin. eauto.
  - intros [k Hk]. exists (k, v). split; [done|]. by apply elem_of_map_to_list.
Qed.

Section Characters.
Context `{JsonCodec}.

(** X23.  While no stored id is the slug of the name followed by [-999],
    [create_character] succeeds on a store that answers: the id it generates
    is free.  The character it returns is what [get_character] returns for
    that id afterwards, whether the caches were loaded or not, given that
    [json] loads back the list of images it dumped.  The slug is short
    enough for the pattern of the id query to be one SQLite accepts: the slug
    and two more bytes, 50000 at most. *)
Theorem create_character_fresh_id (now : string) (character_data : CharacterCreate.t)
    (d : Director) :
  online (store d) = true →
  Z.of_nat (String.length (slug (CharacterCreate.name character_data))) + 2
  ≤ Sql.max_like_pattern_length →
  (∀ id, is_Some (characters (store d) !! id) →
         match_suffix (slug (CharacterCreate.name character_data)) id ≠ Some 999%nat) →
  decode_images (Some (dump_images (CharacterCreate.images character_data)))
  = inr (CharacterCreate.images character_data) →
  ∃ character d',
    create_character now character_data d = (inr character, d') ∧
    characters (store d) !! Character.id character = None ∧
    is_Some (characters (store d') !! Character.id character) ∧
    Character.name character = CharacterCreate.name character_data ∧
    get_character (Character.id character) d' = (inr character, d').
Proof.
  intros Hon Hlen Hroom Hjson.
  rewrite <-id_pattern_length in Hlen.
  destruct (slug_plain (CharacterCreate.name character_data)) as [Hplain _].
  set (base_id := slug (CharacterCreate.name character_data)) in *.
  set (rows := ids_like base_id (map_to_list (characters (store d))).*1).
  set (h := highest_num base_id rows).
  assert (h < 999)%nat as Hh.
  { pose proof (highest_num_lt base_id rows) as Hlt. fold h in Hlt.
    destruct (decide (h = 999%nat)) as [Heq|]; [|lia].
    destruct (highest_num_attained base_id rows) as [H0|(id & Hin & Hm)].
    { fold h in H0. lia. }
    fold h in Hm. rewrite Heq in Hm. exfalso. apply (Hroom id); [|done].
    apply elem_of_table_keys. by eapply ids_like_subseteq. }
  assert (characters (store d) !! seq_id base_id (S h) = None) as Hfree.
  { apply eq_None_not_Some. intros Hstored.
    apply elem_of_table_keys in Hstored.
    destruct (match_suffix_seq_id base_id (S h)) as [Hm _]; [lia|].
    pose proof (elem_of_ids_like _ _ _ _ Hplain Hstored Hm) as Hin.
    pose proof (highest_num_upper _ _ _ _ Hin Hm) as Hle. fold rows h in Hle. lia. }
  eexists _, _. split.
  { unfold create_character. unfold except_exception, try_except, mbind, M_bind, bind.
    rewrite generate_character_id_online by done.
    fold base_id rows. unfold next_character_id. fold h. fold (seq_id base_id (S h)).
    rewrite connect_online by done.
    unfold execute_checked, Sql_stmt.insert_character. rewrite Hfree.
    unfold modify, mret, M_ret, ret. done. }
  cbn [Character.id Character.name]. split; [done|]. split.
  { cbn. rewrite lookup_insert_eq. eauto. }
  split; [done|].
  match goal with |- get_character _ ?x = (inr ?c, _) =>
    set (final := x); set (made := c) end.
  destruct (_cache_loaded d) eqn:Hloaded.
  - apply get_character_hit, cached_character_Some.
    unfold final. cbn. split; [done|]. apply lookup_insert_eq.
  - rewrite get_character_miss.
    2:{ unfold cached_character, final. cbn. by rewrite Hloaded. }
    erewrite get_character_from_db_found;
      [|done|unfold final; cbn; apply lookup_insert_eq].
    unfold _row_to_character. cbn [CharacterRow.images]. rewrite Hjson.
    cbn. unfold made. by destruct (CharacterCreate.is_active character_data).
Qed.

(** X24.  Once the slug of a name is stored with [-999] and with [-1000],
    [create_character] fails for this name with the 500 of the violated
    key and changes nothing, so it fails again on every later call.  The
    slug is short enough for the pattern of the id query to be one SQLite
    accepts: the slug and two more bytes, 50000 at most. *)
Theorem create_character_exhausted (now : string) (character_data : CharacterCreate.t)
    (d : Director) :
  online (store d) = true →
  Z.of_nat (String.length (slug (CharacterCreate.name character_data))) + 2
  ≤ Sql.max_like_pattern_length →
  let base_id := slug (CharacterCreate.name character_data) in
  is_Some (characters (store d) !! seq_id base_id 999) →
  is_Some (characters (store d) !! seq_id base_id 1000) →
  create_character now character_data d
  = (inl (HTTPException 500
            "Database error: UNIQUE constraint failed: characters.id"), d).
Proof.
  intros Hon Hlen base_id H999 H1000.
  rewrite <-id_pattern_length in Hlen.
  destruct (slug_plain (CharacterCreate.name character_data)) as [Hplain _].
  fold base_id in Hplain, Hlen.
  set (rows := ids_like base_id (map_to_list (characters (store d))).*1).
  set (h := highest_num base_id rows).
  assert (h = 999)%nat as Hh.
  { pose proof (highest_num_lt base_id rows) as Hlt. fold h in Hlt.
    apply elem_of_table_keys in H999.
    destruct (match_suffix_seq_id base_id 999) as [Hm _]; [lia|].
    pose proof (elem_of_ids_like _ _ _ _ Hplain H999 Hm) as Hin.
    pose proof (highest_num_upper _ _ _ _ Hin Hm) as Hle. fold rows h in Hle. lia. }
  unfold create_character. unfold except_exception, try_except, mbind, M_bind, bind.
  rewrite generate_character_id_online by done.
  fold base_id rows. unfold next_character_id. fold h. rewrite Hh.
  fold (seq_id base_id 1000). rewrite connect_online by done.
  unfold execute_checked, Sql_stmt.insert_character.
  destruct H1000 as [row ->]. done.
Qed.

Lemma character_assign_active (row : CharacterRow.t) (v : Z) (now : string) :
  CharacterRow.is_active (foldl character_assign row [CSetIsActive v; CSetUpdatedAt now])
  = Some v ∧
  CharacterRow.updated_at (foldl character_assign row [CSetIsActive v; CSetUpdatedAt now])
  = Some now.
Proof. by destruct row. Qed.

(** X25.  When [set_character_active] returns on a director whose caches
    are loaded, the character it returns carries the id and the status given
    and the time of the call, it is what [get_character] returns for the id,
    and [get_active_characters] lists it exactly when the status given is
    active. *)
Theorem set_character_active_listed (now character_id : string) (is_active : bool)
    (d d' : Director) (character : Character.t) :
  _cache_loaded d = true →
  set_character_active now character_id is_active d = (inr character, d') →
  Character.id character = character_id ∧
  Character.is_active character = is_active ∧
  Character.updated_at character = Some now ∧
  get_character character_id d' = (inr character, d') ∧
  ∃ listed,
    get_active_characters d' = (inr listed, d') ∧
    (character ∈ listed ↔ is_active = true).
Proof.
  intros Hloaded Hrun. unfold set_character_active, update_character in Hrun.
  apply except_http_reraise_inr, bind_inr in Hrun as (c0 & d1 & Hget & Hrun).
  apply get_character_inr in Hget as ->.
  cbn in Hrun.
  apply bind_inr in Hrun as (u1 & d2 & Hupd & Hrun).
  apply connect_inr in Hupd as (Hon & s2 & Hupd & ->).
  apply execute_inr in Hupd as ->.
  apply bind_inr in Hrun as (c & d3 & Hread & Hrun).
  apply get_character_from_db_inr in Hread as (-> & row & Hrow & Hdec).
  apply bind_inr in Hrun as (u2 & d4 & Hmod & Hrun). apply modify_inr in Hmod as ->.
  apply mret_inr in Hrun as [-> ->].
  cbn in Hrow. unfold Sql_stmt.update_character in Hrow. cbn in Hrow.
  rewrite lookup_alter_eq in Hrow.
  destruct (characters (store d) !! character_id) as [row0|]; [|done].
  cbn in Hrow. injection Hrow as <-.
  destruct (character_assign_active row0 (if is_active then 1 else 0) now)
    as [Hactive Hupdated].
  assert (Character.is_active c = is_active ∧ Character.updated_at c = Some now)
    as [Hc1 Hc2].
  { unfold _row_to_character in Hdec. destruct (decode_images _); [done|].
    injection Hdec as <-. cbn [Character.is_active Character.updated_at].
    cbn in Hactive, Hupdated. rewrite Hactive, Hupdated.
    split; [by destruct is_active|done]. }
  split; [by eapply row_to_character_id|]. split; [done|]. split; [done|].
  match goal with |- get_character _ ?x = _ ∧ _ => set (final := x) end.
  assert (_character_cache final !! character_id = Some c) as Hcached.
  { unfold final. cbn. apply lookup_insert_eq. }
  split.
  { apply get_character_hit, cached_character_Some. by split. }
  eexists. split.
  { unfold get_active_characters. unfold mbind, M_bind, bind, gets.
    change (_cache_loaded final) with (_cache_loaded d). by rewrite Hloaded. }
  rewrite list_elem_of_filter, elem_of_values, Hc1. split; [by intros [? _]|].
  intros ->. split; [done|]. eauto.
Qed.

(** X26.  A character that [delete_character] deleted is gone from the
    store and from the cache, and looking it up afterwards raises the 404.
    The conversations are as before: a conversation that lists the character
    among its active characters still lists it. *)
Theorem delete_character_keeps_conversations (character_id : string)
    (d d' : Director) (b : bool) :
  delete_character character_id d = (inr b, d') →
  b = true ∧
  characters (store d') = delete character_id (characters (store d)) ∧
  _character_cache d' = delete character_id (_character_cache d) ∧
  get_character character_id d' = (inl (not_found "Character"), d') ∧
  conversations (store d') = conversations (store d) ∧
  messages (store d') = messages (store d) ∧
  voices (store d') = voices (store d).
Proof.
  intros Hrun. unfold delete_character in Hrun.
  apply except_http_reraise_inr, bind_inr in Hrun as (c0 & d1 & Hget & Hrun).
  apply get_character_inr in Hget as ->.
  apply bind_inr in Hrun as (u1 & d2 & Hdel & Hrun).
  apply connect_inr in Hdel as (Hon & s2 & Hdel & ->).
  apply execute_inr in Hdel as ->.
  apply bind_inr in Hrun as (u2 & d3 & Hmod & Hrun). apply modify_inr in Hmod as ->.
  apply mret_inr in Hrun as [-> ->].
  split; [done|]. split; [done|]. split; [done|]. split; [|done].
  rewrite get_character_miss.
  - apply get_character_from_db_missing; [done|]. cbn. apply lookup_delete_eq.
  - unfold cached_character. cbn. rewrite lookup_delete_eq.
    by destruct (_cache_loaded d).
Qed.

End Characters.

Lemma create_character_fresh_id_witness :
  online (store Scenario.one_robot) = true ∧
  Z.of_nat (String.length (slug (CharacterCreate.name Scenario.second_robot))) + 2
  ≤ Sql.max_like_pattern_length ∧
  ∃ character d',
    @create_character RefJson.codec Scenario.now Scenario.second_robot
      Scenario.one_robot
    = (inr character, d') ∧
    characters (store Scenario.one_robot) !! Character.id character = None ∧
    @get_character RefJson.codec (Character.id character) d' = (inr character, d').
Proof.
  split; [reflexivity|]. split; [vm_compute; discriminate|].
  destruct (@create_character_fresh_id RefJson.codec Scenario.now
              Scenario.second_robot Scenario.one_robot)
    as (character & d' & Hrun & Hfree & _ & _ & Hget).
  - reflexivity.
  - vm_compute. discriminate.
  - intros id [row Hrow].
    change (characters (store Scenario.one_robot))
      with ({["robot-001" := Scenario.robot_row]} : gmap string CharacterRow.t) in Hrow.
    apply lookup_singleton_Some in Hrow as [<- _]. vm_compute. discriminate.
  - vm_compute. reflexivity.
  - exists character, d'. repeat split; assumption.
Defined.

Lemma create_character_exhausted_witness :
  online (store Cases.full_robots) = true ∧
  Z.of_nat (String.length (slug (CharacterCreate.name Scenario.second_robot))) + 2
  ≤ Sql.max_like_pattern_length ∧
  is_Some (characters (store Cases.full_robots) !! "robot-999") ∧
  is_Some (characters (store Cases.full_robots) !! "robot-1000") ∧
  @create_character RefJson.codec Scenario.now Scenario.second_robot Cases.full_robots
  = (inl (HTTPException 500
            "Database error: UNIQUE constraint failed: characters.id"),
     Cases.full_robots).
Proof.
  assert (is_Some (characters (store Cases.full_robots) !! "robot-999")) as H999
    by (vm_compute; eauto).
  assert (is_Some (characters (store Cases.full_robots) !! "robot-1000")) as H1000
    by (vm_compute; eauto).
  assert (Z.of_nat (String.length
                      (slug (CharacterCreate.name Scenario.second_robot))) + 2
          ≤ Sql.max_like_pattern_length) as Hlen by (vm_compute; discriminate).
  split; [reflexivity|]. split; [exact Hlen|].
  split; [exact H999|]. split; [exact H1000|].
  apply (@create_character_exhausted RefJson.codec Scenario.now Scenario.second_robot
           Cases.full_robots eq_refl Hlen); assumption.
Defined.

(** A name whose slug has 49999 letters makes a pattern SQLite refuses.  On
    a store that holds a character the id query raises and the id falls back
    to the suffix [001], whatever is stored: once a character of that name
    was created, the id generated for the name is the same again, and the
    second [create_character] fails on the key. *)
Example long_name_second_create_fails :
  let long_robot := CharacterCreate.mk Cases.long_name "" "" "" [] false in
  let d1 := snd (@create_character RefJson.codec Scenario.now long_robot
                   Scenario.one_robot) in
  match fst (_generate_character_id Cases.long_name d1) with
  | inr id =>
      String.eqb id (Cases.long_name +:+ "-001") &&
      bool_decide (is_Some (characters (store d1) !! id))
  | inl _ => false
  end = true ∧
  raised (@create_character RefJson.codec Scenario.now long_robot d1)
  = Some (HTTPException 500
            "Database error: UNIQUE constraint failed: characters.id").
Proof. split; vm_compute; reflexivity. Qed.

Lemma set_character_active_listed_witness :
  _cache_loaded Scenario.studio = true ∧
  ∃ character d' listed,
    @set_character_active RefJson.codec Scenario.now "robot-001" true Scenario.studio
    = (inr character, d') ∧
    @get_active_characters RefJson.codec d' = (inr listed, d') ∧
    character ∈ listed.
Proof.
  split; [reflexivity|].
  assert (∃ character,
            fst (@set_character_active RefJson.codec Scenario.now "robot-001" true
                   Scenario.studio) = inr character) as [character Hval]
    by (vm_compute; eauto).
  destruct (@set_character_active RefJson.codec Scenario.now "robot-001" true
              Scenario.studio) as [r d'] eqn:Hrun.
  simpl in Hval. subst r.
  destruct (@set_character_active_listed RefJson.codec Scenario.now "robot-001" true
              Scenario.studio d' character eq_refl Hrun)
    as (_ & _ & _ & _ & listed & Hlist & Hin).
  exists character, d', listed. split; [reflexivity|]. split; [exact Hlist|].
  by apply Hin.
Defined.

Lemma delete_character_keeps_conversations_witness :
  ∃ d',
    @delete_character RefJson.codec "robot-001" Cases.library = (inr true, d') ∧
    @get_character RefJson.codec "robot-001" d' = (inl (not_found "Character"), d') ∧
    conversations (store d') !! "conv-2" = Some Cases.trip_row.
Proof.
  assert (fst (@delete_character RefJson.codec "robot-001" Cases.library) = inr true)
    as Hval by (vm_compute; reflexivity).
  destruct (@delete_character RefJson.codec "robot-001" Cases.library)
    as [r d'] eqn:Hrun.
  simpl in Hval. subst r.
  destruct (@delete_character_keeps_conversations RefJson.codec "robot-001"
              Cases.library d' true Hrun) as (_ & _ & _ & Hget & Hconversations & _).
  exists d'. split; [reflexivity|]. split; [exact Hget|].
  rewrite Hconversations. vm_compute. reflexivity.
Defined.

(** ** Listings from the cache and from the store *)

Section Listing.
Context `{JsonCodec}.

Lemma rows_to_characters_total (rows : list (string * CharacterRow.t)) :
  (∀ id row, (id, row) ∈ rows → ∃ c, _row_to_character id row = inr c) →
  ∃ found, rows_to_characters rows = inr found.
Proof.
  induction rows as [|[id row] rows IH]; intros Hall; [by eexists|].
  destruct (Hall id row) as [c Hdec]; [left|].
  destruct IH as [cs Hcs]. { intros id' row' Hin. apply Hall. by right. }
  exists (c :: cs). simpl. by rewrite Hdec, Hcs.
Qed.

Lemma get_all_characters_cold (d : Director) :
  _cache_loaded d = false →
  online (store d) = true →
  get_all_characters d
  = match rows_to_characters (map_to_list (characters (store d))) with
    | inl e => (inl (database_error e), d)
    | inr found => (inr found, d)
    end.
Proof.
  intros Hcold Hon. unfold get_all_characters. unfold_M.
  rewrite Hcold, connect_query by done. by destruct (rows_to_characters _).
Qed.

Lemma same_keys_same_size {V W} (m1 : gmap string V) (m2 : gmap string W) :
  (∀ k, is_Some (m1 !! k) ↔ is_Some (m2 !! k)) →
  length (map_to_list m1) = length (map_to_list m2).
Proof.
  intros Hkeys. rewrite !length_map_to_list.
  rewrite <-!(size_dom (D := gset string)). f_equal.
  apply set_eq. intros k. by rewrite !elem_of_dom.
Qed.

(** X27.  Right after a warm-up that returned, the listings served from the
    caches hold what the listings read from the store hold: [get_all_characters]
    and [get_all_voices] on the warmed director return as many elements as
    on a director over the same store that was never warmed, and the same
    ones. *)
Theorem warm_listings_match_store (s : Store) (d' : Director) :
  online s = true →
  init_database (new_director s) = (inr tt, d') →
  (∃ warm cold,
     get_all_characters d' = (inr warm, d') ∧
     get_all_characters (new_director s) = (inr cold, new_director s) ∧
     length warm = length cold ∧
     ∀ c, c ∈ warm ↔ c ∈ cold) ∧
  (∃ warm cold,
     get_all_voices d' = (inr warm, d') ∧
     get_all_voices (new_director s) = (inr cold, new_director s) ∧
     length warm = length cold ∧
     ∀ v, v ∈ warm ↔ v ∈ cold).
Proof.
  intros Hon Hinit.
  destruct (init_database_inr s d' Hon Hinit)
    as (cs & vs & Hrows & Hheard & Hloaded & Hstore & Hcharacters & Hvoices).
  pose proof (rows_to_characters_elem _ _ Hrows) as (Hlen & Hall & Helem).
  pose proof (rows_to_voices_elem _ _ Hheard) as (Hlen' & Hall' & Helem').
  assert (∀ name row, voices s !! name = Some row →
                      ∃ v, _row_to_voice name row = inr v) as Hdecodes'.
  { intros name row Hrow. apply Hall'. by apply elem_of_map_to_list. }
  assert (∀ id row, characters s !! id = Some row →
                    ∃ c, _row_to_character id row = inr c) as Hdecodes.
  { intros id row Hrow. apply Hall. by apply elem_of_map_to_list. }
  split.
  - exists (values (_character_cache d')), cs. split; [|split; [|split]].
    + unfold get_all_characters. unfold_M. by rewrite Hloaded.
    + rewrite get_all_characters_cold by done. cbn [store new_director].
      by rewrite Hrows.
    + unfold values. rewrite length_fmap, Hlen. apply same_keys_same_size.
      intros id. rewrite Hcharacters.
      destruct (characters s !! id) as [row|] eqn:Hrow; cbn.
      * destruct (Hdecodes id row Hrow) as [c ->]. split; eauto.
      * split; by intros [? ?].
    + intros c. rewrite elem_of_values, Helem. split.
      * intros [id Hid]. rewrite Hcharacters in Hid.
        destruct (characters s !! id) as [row|] eqn:Hrow; [|done]. cbn in Hid.
        exists id, row. split; [by apply elem_of_map_to_list|].
        destruct (_row_to_character id row); [done|]. by injection Hid as ->.
      * intros (id & row & Hin & Hdec). apply elem_of_map_to_list in Hin.
        exists id. rewrite Hcharacters, Hin. cbn. by rewrite Hdec.
  - exists (config <$> values (_voice_cache d')), vs.
    split; [|split; [|split]].
    + unfold get_all_voices. unfold_M. by rewrite Hloaded.
    + unfold get_all_voices. unfold_M. cbn [_cache_loaded new_director].
      rewrite connect_query by done. cbn [store new_director]. by rewrite Hheard.
    + unfold values. rewrite !length_fmap, Hlen'. apply same_keys_same_size.
      intros name. rewrite Hvoices.
      destruct (voices s !! name) as [row|] eqn:Hrow; cbn.
      * destruct (Hdecodes' name row Hrow) as [v ->]. split; eauto.
      * split; by intros [? ?].
    + intros v. rewrite list_elem_of_fmap, Helem'. split.
      * intros (entry & -> & Hentry). apply elem_of_values in Hentry as [name Hname].
        rewrite Hvoices in Hname.
        destruct (voices s !! name) as [row|] eqn:Hrow; [|done]. cbn in Hname.
        exists name, row. split; [by apply elem_of_map_to_list|].
        destruct (_row_to_voice name row); [done|]. by injection Hname as <-.
      * intros (name & row & Hin & Hdec). apply elem_of_map_to_list in Hin.
        exists (voice_entry v). split; [done|].
        apply elem_of_values. exists name. rewrite Hvoices, Hin. cbn.
        by rewrite Hdec.
Qed.

Lemma decode_bool_one (column : option Z) :
  column = None ∨ column = Some 0 ∨ column = Some 1 →
  decode_bool column = true ↔ column = Some 1.
Proof. intros [-> | [-> | ->]]; cbn; split; done. Qed.

(** X28.  Right after a warm-up that returned, [get_active_characters]
    returns from the cache the characters it reads from the store on a
    director that was never warmed, given that every stored [is_active] is
    missing, 0 or 1: the store is asked for the rows with [is_active = 1],
    the cache for the characters whose [is_active] is true, which holds of
    every stored number other than 0. *)
Theorem warm_active_listing_matches (s : Store) (d' : Director) :
  online s = true →
  init_database (new_director s) = (inr tt, d') →
  (∀ id row, characters s !! id = Some row →
     CharacterRow.is_active row = None ∨
     CharacterRow.is_active row = Some 0 ∨
     CharacterRow.is_active row = Some 1) →
  ∃ warm cold,
    get_active_characters d' = (inr warm, d') ∧
    get_active_characters (new_director s) = (inr cold, new_director s) ∧
    ∀ c, c ∈ warm ↔ c ∈ cold.
Proof.
  intros Hon Hinit Hflags.
  destruct (init_database_inr s d' Hon Hinit)
    as (cs & vs & Hrows & _ & Hloaded & Hstore & Hcharacters & _).
  pose proof (rows_to_characters_elem _ _ Hrows) as (_ & Hall & _).
  set (active := filter (λ kr : string * CharacterRow.t,
                           CharacterRow.is_active kr.2 = Some 1)
                   (map_to_list (characters s))).
  destruct (rows_to_characters_total active) as [cold Hcold].
  { intros id row Hin. apply Hall. by apply list_elem_of_filter in Hin as [_ ?]. }
  pose proof (rows_to_characters_elem _ _ Hcold) as (_ & _ & Helem).
  eexists _, cold. split; [|split].
  - unfold get_active_characters. unfold_M. by rewrite Hloaded.
  - unfold get_active_characters. unfold_M. cbn [_cache_loaded new_director].
    rewrite connect_query by done. cbn [store new_director]. fold active.
    by rewrite Hcold.
  - intros c. rewrite list_elem_of_filter, elem_of_values, Helem. split.
    + intros [Hactive [id Hid]]. rewrite Hcharacters in Hid.
      destruct (characters s !! id) as [row|] eqn:Hrow; [|done]. cbn in Hid.
      destruct (_row_to_character id row) as [e|c'] eqn:Hdec; [done|].
      injection Hid as ->. exists id, row. split; [|done].
      apply list_elem_of_filter. split; [|by apply elem_of_map_to_list].
      cbn. apply decode_bool_one; [by eapply Hflags|].
      unfold _row_to_character in Hdec. destruct (decode_images _); [done|].
      injection Hdec as <-. exact Hactive.
    + intros (id & row & Hin & Hdec).
      apply list_elem_of_filter in Hin as [Hone Hin]. cbn in Hone.
      apply elem_of_map_to_list in Hin. split.
      * unfold _row_to_character in Hdec. destruct (decode_images _); [done|].
        injection Hdec as <-. cbn. by rewrite Hone.
      * exists id. rewrite Hcharacters, Hin. cbn. by rewrite Hdec.
Qed.

End Listing.

Lemma warm_listings_match_store_witness :
  online Scenario.studio_store = true ∧
  @init_database RefJson.codec (new_director Scenario.studio_store)
  = (inr tt, Scenario.studio) ∧
  ∃ warm cold,
    @get_all_voices RefJson.codec Scenario.studio = (inr warm, Scenario.studio) ∧
    @get_all_voices RefJson.codec (new_director Scenario.studio_store)
    = (inr cold, new_director Scenario.studio_store) ∧
    length warm = length cold ∧
    ∀ v, v ∈ warm ↔ v ∈ cold.
Proof.
  split; [reflexivity|].
  assert (@init_database RefJson.codec (new_director Scenario.studio_store)
          = (inr tt, Scenario.studio)) as Hinit by (vm_compute; reflexivity).
  split; [exact Hinit|].
  destruct (@warm_listings_match_store RefJson.codec Scenario.studio_store
              Scenario.studio eq_refl Hinit) as [_ Hvoices].
  exact Hvoices.
Defined.

Lemma warm_active_listing_matches_witness :
  online Scenario.studio_store = true ∧
  ∃ warm cold,
    @get_active_characters RefJson.codec Scenario.studio = (inr warm, Scenario.studio) ∧
    @get_active_characters RefJson.codec (new_director Scenario.studio_store)
    = (inr cold, new_director Scenario.studio_store) ∧
    ∀ c, c ∈ warm ↔ c ∈ cold.
Proof.
  split; [reflexivity|].
  apply (@warm_active_listing_matches RefJson.codec Scenario.studio_store
           Scenario.studio eq_refl).
  - vm_compute. reflexivity.
  - intros id row Hrow.
    change (characters Scenario.studio_store)
      with ({["robot-001" := Scenario.aria_robot_row]} : gmap string CharacterRow.t)
      in Hrow.
    apply lookup_singleton_Some in Hrow as [_ <-]. right. left. reflexivity.
Defined.

(** A stored [is_active] of 2 is active for the cache and not for the
    store. *)
Example active_flag_two :
  let s :=
    with_characters
      {["robot-001" :=
          CharacterRow.mk "Robot" None None None (Some "[]") (Some 2) None None None]}
      empty_store in
  length <$>
    returned (@get_active_characters RefJson.codec
                (snd (@init_database RefJson.codec (new_director s))))
  = Some 1%nat ∧
  returned (@get_active_characters RefJson.codec (new_director s)) = Some [].
Proof. split; vm_compute; reflexivity. Qed.

(** ** Updates that change nothing *)

(** What leaves [except HTTPException: raise] followed by
    [except Exception] is an [HTTPException]. *)
Lemma except_http_reraise_inl {A} (m : M A) (d d1 : Director) (e : exn) :
  except_http_reraise m d = (inl e, d1) → is_Some (status_of e).
Proof.
  unfold except_http_reraise, try_except, raise.
  destruct (m d) as [[e'|a] d']; [|done].
  destruct e'; intros [= <- <-]; cbn; eauto.
Qed.

(** The same handlers pass on the [HTTPException] of a lookup. *)
Lemma lookup_error_passed {A B} (lookup : M A) (rest : A → M B) (d d1 : Director)
    (e : exn) :
  lookup d = (inl e, d1) → is_Some (status_of e) →
  except_http_reraise (lookup ≫= rest) d = (inl e, d1).
Proof.
  intros Hrun [status Hstatus].
  unfold except_http_reraise, try_except, mbind, M_bind, bind. rewrite Hrun.
  by destruct e.
Qed.

Section EmptyUpdates.
Context `{JsonCodec}.

Lemma get_character_inl (character_id : string) (d d1 : Director) (e : exn) :
  get_character character_id d = (inl e, d1) → is_Some (status_of e).
Proof.
  unfold get_character. unfold mbind, M_bind, bind, gets.
  destruct (cached_character character_id d); [done|].
  apply except_http_reraise_inl.
Qed.

Lemma get_voice_inl (voice_name : string) (d d1 : Director) (e : exn) :
  get_voice voice_name d = (inl e, d1) → is_Some (status_of e).
Proof.
  unfold get_voice. unfold mbind, M_bind, bind, gets.
  destruct (cached_voice voice_name d); [done|].
  apply except_http_reraise_inl.
Qed.

(** X29.  An update that gives no field is rejected with the 400.
    [update_conversation] rejects it before it looks at the store, so also
    for a conversation that is not stored and on a store that does not
    answer.  [update_character] and [update_voice] look the entity up first,
    in the loaded cache or in the store: when the lookup returns, the update
    with no field is rejected with the 400, and the director is as the
    lookup left it; when the lookup raises, the update raises the same
    error, so an unknown character or voice gets the 404.  For
    [update_voice], a new name that is the current one counts as no field,
    and a new name that is blank is rejected as missing. *)
Theorem empty_update_rejected (now key : string) (d : Director) :
  update_conversation now key (ConversationUpdate.mk None None) d
  = (inl (HTTPException 400 "No fields to update"), d) ∧
  (∀ character d1,
     get_character key d = (inr character, d1) →
     d1 = d ∧
     update_character now key (CharacterUpdate.mk None None None None None None None) d
     = (inl (HTTPException 400 "No fields to update"), d)) ∧
  (∀ e d1 character_data,
     get_character key d = (inl e, d1) →
     update_character now key character_data d = (inl e, d1)) ∧
  (online (store d) = true →
   cached_character key d = None →
   characters (store d) !! key = None →
   get_character key d = (inl (not_found "Character"), d)) ∧
  (∀ voice d1,
     get_voice key d = (inr voice, d1) →
     update_voice now key (VoiceUpdate.mk None None None None None None JNull) d
     = (inl (HTTPException 400 "No fields to update"), d1) ∧
     (∀ new_voice,
        Py.strip Py.isspace new_voice = key → key ≠ "" →
        update_voice now key
          (VoiceUpdate.mk (Some new_voice) None None None None None JNull) d
        = (inl (HTTPException 400 "No fields to update"), d1)) ∧
     (∀ new_voice,
        Py.strip Py.isspace new_voice = "" →
        update_voice now key
          (VoiceUpdate.mk (Some new_voice) None None None None None JNull) d
        = (inl (HTTPException 400 "New voice name required"), d1))) ∧
  (∀ e d1 voice_data,
     get_voice key d = (inl e, d1) →
     update_voice now key voice_data d = (inl e, d1)) ∧
  (online (store d) = true →
   cached_voice key d = None →
   voices (store d) !! key = None →
   get_voice key d = (inl (not_found "Voice"), d)).
Proof.
  split; [done|]. split; [|split; [|split; [|split; [|split]]]].
  - intros character d1 Hget. pose proof (get_character_inr _ _ _ _ Hget) as ->.
    split; [done|]. unfold update_character.
    unfold except_http_reraise, try_except, mbind, M_bind, bind.
    by rewrite Hget.
  - intros e d1 character_data Hget. unfold update_character.
    apply lookup_error_passed; [done|]. by eapply get_character_inl.
  - intros Hon Hmiss Hrow.
    by rewrite get_character_miss, get_character_from_db_missing.
  - intros voice d1 Hget. split; [|split].
    + unfold update_voice.
      unfold except_http_reraise, try_except, mbind, M_bind, bind.
      by rewrite Hget.
    + intros new_voice Hsame Hname. unfold update_voice.
      unfold except_http_reraise, try_except, mbind, M_bind, bind.
      rewrite Hget.
      unfold stripped_new_voice, voice_updates, stripped_new_voice. cbn.
      rewrite Hsame. destruct key as [|a key']; [done|].
      unfold is_rename. cbn. by rewrite bool_decide_eq_false_2 by (by intros ?).
    + intros new_voice Hblank. unfold update_voice.
      unfold except_http_reraise, try_except, mbind, M_bind, bind.
      rewrite Hget.
      unfold stripped_new_voice. cbn. by rewrite Hblank.
  - intros e d1 voice_data Hget. unfold update_voice.
    apply lookup_error_passed; [done|]. by eapply get_voice_inl.
  - intros Hon Hmiss Hrow. by apply get_voice_missing.
Qed.

End EmptyUpdates.

(** On the library, whose caches were never loaded, the robot and the voice
    [aria] are looked up in the store: the update with no field is rejected
    with the 400 for both, and the lookup has put [aria] into the voice
    cache.  The unknown [ghost] gets the 404 from both. *)
Lemma empty_update_rejected_witness :
  _cache_loaded Cases.library = false ∧
  @update_character RefJson.codec Scenario.now "robot-001"
    (CharacterUpdate.mk None None None None None None None) Cases.library
  = (inl (HTTPException 400 "No fields to update"), Cases.library) ∧
  (∃ d1,
     @update_voice RefJson.codec Scenario.now "aria"
       (VoiceUpdate.mk None None None None None None JNull) Cases.library
     = (inl (HTTPException 400 "No fields to update"), d1) ∧
     is_Some (_voice_cache d1 !! "aria")) ∧
  @update_character RefJson.codec Scenario.now "ghost"
    (CharacterUpdate.mk None None None None None None None) Cases.library
  = (inl (not_found "Character"), Cases.library) ∧
  @update_voice RefJson.codec Scenario.now "ghost"
    (VoiceUpdate.mk None None None None None None JNull) Cases.library
  = (inl (not_found "Voice"), Cases.library).
Proof.
  split; [reflexivity|].
  destruct (@empty_update_rejected RefJson.codec Scenario.now "robot-001"
              Cases.library) as (_ & Hcharacter & _).
  destruct (@empty_update_rejected RefJson.codec Scenario.now "aria" Cases.library)
    as (_ & _ & _ & _ & Hvoice & _).
  destruct (@empty_update_rejected RefJson.codec Scenario.now "ghost" Cases.library)
    as (_ & _ & Hno_character & Hghost & _ & Hno_voice & Hecho).
  split; [|split; [|split]].
  - assert (∃ character,
              @get_character RefJson.codec "robot-001" Cases.library
              = (inr character, Cases.library)) as [character Hget]
      by (eexists; vm_compute; reflexivity).
    by destruct (Hcharacter character Cases.library Hget) as [_ ->].
  - assert (∃ voice,
              @get_voice RefJson.codec "aria" Cases.library
              = (inr voice,
                 snd (@get_voice RefJson.codec "aria" Cases.library)))
      as [voice Hget] by (eexists; vm_compute; reflexivity).
    destruct (Hvoice voice _ Hget) as [Hrun _].
    eexists. split; [exact Hrun|]. vm_compute. eauto.
  - apply Hno_character. apply Hghost; vm_compute; reflexivity.
  - apply Hno_voice. apply Hecho; vm_compute; reflexivity.
Defined.
